(** * Verification of the task pipeline of tds_project1

    The development embeds the Python sources

      - [evaluator.py]       (result reporter with retry and back-off),
      - [code_generator.py]  (prompt construction and completion parsing),
      - [github_manager.py]  (create and update publication paths),
      - [app.py]             (submission endpoint and background pipeline)

    as Rocq functions and proves the properties the specification states
    about them.  Pure Python code becomes pure functions on strings and
    dictionaries; code that talks to the outside world (HTTP requests, the
    hosting platform, the clock) runs in a small monad that threads the
    state of the world, raises and catches Python exceptions, and emits
    the list of external calls it performs together with their outcomes.
    Of the messages the sources print, those that hold text of the
    request as it is are part of the model: such a message raises when
    the standard output cannot encode it. *)

From Stdlib Require Import String Ascii DecimalString.
From Stdlib Require Import List ZArith NArith Lia Bool.
Import ListNotations.

Set Implicit Arguments.

(* ================================================================== *)
(** * Python strings *)
(* ================================================================== *)

(** A Python [str] is a sequence of Unicode code points. *)
Definition char := N.
Definition str := list char.

(** String literals of the source, written ["like this"]. *)
Definition lit (s : string) : str := map N_of_ascii (list_ascii_of_string s).
Arguments lit s%_string.

Definition NL : char := 10%N.

Module Str.

Definition eqb (a b : str) : bool :=
  if list_eq_dec N.eq_dec a b then true else false.

(** [c.isspace()], the characters removed by [str.strip()]. *)
Definition isspace (c : char) : bool :=
  (((9 <=? c) && (c <=? 13)) || ((28 <=? c) && (c <=? 32))
   || (c =? 133) || (c =? 160) || (c =? 5760)
   || ((8192 <=? c) && (c <=? 8202))
   || (c =? 8232) || (c =? 8233) || (c =? 8239) || (c =? 8287)
   || (c =? 12288))%N.

(** [s.startswith(p)] *)
Fixpoint startswith (p s : str) : bool :=
  match p, s with
  | [], _ => true
  | _ :: _, [] => false
  | a :: p', b :: s' => (a =? b)%N && startswith p' s'
  end.

(** [s.endswith(p)] *)
Definition endswith (p s : str) : bool := startswith (rev p) (rev s).

(** [s.lstrip()], [s.rstrip()], [s.strip()] *)
Fixpoint lstrip (s : str) : str :=
  match s with
  | [] => []
  | c :: s' => if isspace c then lstrip s' else s
  end.

Definition rstrip (s : str) : str := rev (lstrip (rev s)).

Definition strip (s : str) : str := rstrip (lstrip s).

(** [s.split(sep)] for a one-character separator: always at least one
    piece. *)
Fixpoint split (sep : char) (s : str) : list str :=
  match s with
  | [] => [[]]
  | c :: s' =>
      if (c =? sep)%N then [] :: split sep s'
      else match split sep s' with
           | [] => [[c]]
           | h :: t => (c :: h) :: t
           end
  end.

(** [s.split(sep, 1)] for a one-character separator: one piece when the
    separator is absent, two otherwise. *)
Fixpoint split1 (sep : char) (s : str) : list str :=
  match s with
  | [] => [[]]
  | c :: s' =>
      if (c =? sep)%N then [[]; s']
      else match split1 sep s' with
           | h :: t => (c :: h) :: t
           | [] => [[c]]
           end
  end.

(** [sep.join(pieces)] *)
Fixpoint join (sep : str) (pieces : list str) : str :=
  match pieces with
  | [] => []
  | [p] => p
  | p :: rest => p ++ sep ++ join sep rest
  end.

(** [s.replace(old, new)] for a non-empty [old]: occurrences are found
    left to right and do not overlap.  [skip] counts the characters of
    the current occurrence still to be dropped. *)
Fixpoint replace_from (old new : str) (skip : nat) (s : str) : str :=
  match s with
  | [] => []
  | c :: s' =>
      match skip with
      | S k => replace_from old new k s'
      | O =>
          if startswith old s
          then new ++ replace_from old new (length old - 1) s'
          else c :: replace_from old new 0 s'
      end
  end.

Definition replace (old new s : str) : str := replace_from old new 0 s.

(** [sub in s] *)
Fixpoint contains (sub s : str) : bool :=
  startswith sub s ||
  match s with
  | [] => false
  | _ :: s' => contains sub s'
  end.

(** [s[:n]] for [n >= 0] *)
Definition upto (n : nat) (s : str) : str := firstn n s.

(** [str(z)] for an integer *)
Definition of_Z (z : Z) : str := lit (NilZero.string_of_int (Z.to_int z)).

(** [s.isascii()] *)
Definition isascii (s : str) : bool := forallb (fun c => (c <? 128)%N) s.

(** [s.lower()] for a string [s] with [s.isascii()]: there the letters
    A-Z are the only ones with a lower-case form.  Outside ASCII Python
    lowers further letters, which this function keeps; what is stated of
    its value is stated of ASCII strings. *)
Definition lower (s : str) : str :=
  map (fun c => if ((65 <=? c) && (c <=? 90))%N then (c + 32)%N else c) s.

(** Hexadecimal digits in lower case: [format(n, '02x')] for [n < 256]
    and [format(n, '04x')] for [n < 65536]. *)
Definition hex_digit (d : N) : char :=
  (if d <? 10 then 48 + d else 87 + d)%N.

Definition hex2 (n : N) : str :=
  [hex_digit ((n / 16) mod 16); hex_digit (n mod 16)]%N.

Definition hex4 (n : N) : str :=
  [hex_digit ((n / 4096) mod 16); hex_digit ((n / 256) mod 16);
   hex_digit ((n / 16) mod 16); hex_digit (n mod 16)]%N.

End Str.

Infix "=s?" := Str.eqb (at level 70).

(* ================================================================== *)
(** * Python dictionaries and JSON values *)
(* ================================================================== *)

(** A [dict] with string keys.  Python dictionaries iterate in insertion
    order and assigning to a key that is present keeps its position, so
    the model is an association list with unique keys. *)
Module Dict.
Section Dict.
Variable V : Type.

Definition t := list (str * V).

Definition empty : t := [].

(** [d.get(k)] *)
Fixpoint get (k : str) (d : t) : option V :=
  match d with
  | [] => None
  | (k', v) :: d' => if k' =s? k then Some v else get k d'
  end.

(** [k in d] *)
Definition mem (k : str) (d : t) : bool :=
  match get k d with Some _ => true | None => false end.

(** [d[k] = v] *)
Fixpoint set (k : str) (v : V) (d : t) : t :=
  match d with
  | [] => [(k, v)]
  | (k', v') :: d' =>
      if k' =s? k then (k', v) :: d' else (k', v') :: set k v d'
  end.

(** [d.keys()] *)
Definition keys (d : t) : list str := map fst d.

(** [d.items()] *)
Definition items (d : t) : list (str * V) := d.
End Dict.
End Dict.

(** Values produced by a JSON decoder (numbers are restricted to
    integers). *)
#[local] Unset Elimination Schemes.
Inductive json : Type :=
| JNull
| JBool (b : bool)
| JNum (z : Z)
| JStr (s : str)
| JList (l : list json)
| JObj (o : list (str * json)).
#[local] Set Elimination Schemes.

(* ================================================================== *)
(** * Exceptions and results *)
(* ================================================================== *)

(** The exception classes the sources raise or catch; every one carries
    the text [str(e)]. *)
Inductive exn : Type :=
| GithubException (status : Z) (msg : str)
| requests_Timeout (msg : str)
| requests_RequestException (msg : str)
| ValueError (msg : str)
| TypeError (msg : str)
| KeyError (msg : str)
| UnicodeEncodeError (msg : str)
| OtherException (msg : str).

(** [str(e)] *)
Definition exn_str (e : exn) : str :=
  match e with
  | GithubException _ m | requests_Timeout m | requests_RequestException m
  | ValueError m | TypeError m | KeyError m | UnicodeEncodeError m
  | OtherException m => m
  end.

(** [isinstance(e, GithubException)] *)
Definition is_GithubException (e : exn) : bool :=
  match e with GithubException _ _ => true | _ => false end.

Inductive result (A : Type) : Type :=
| Ok (a : A)
| Raise (e : exn).
Arguments Ok {A} a.
Arguments Raise {A} e.

(* ================================================================== *)
(** * Data model *)
(* ================================================================== *)

(** One entry of the [attachments] list: a dictionary whose keys ['name']
    and ['url'] may be absent. *)
Record attachment : Type := {
  att_name : option str;
  att_url : option str
}.

(** The task request as the background pipeline reads it. *)
Record task_request : Type := {
  email : str;
  task : str;
  round : Z;
  nonce : str;
  brief : str;
  checks : list str;
  attachments : list attachment;
  evaluation_url : str
}.

(** Environment configuration of [app.py]. *)
Record config : Type := {
  SECRET_CODE : str;
  GITHUB_TOKEN : str;
  GITHUB_USERNAME : str;
  LLM_API_KEY : str;
  LLM_PROVIDER : str
}.

(** A repository object of the hosting client. *)
Record Repository : Type := {
  name : str;
  html_url : str
}.

(** A branch reference object. *)
Record GitRef : Type := { ref_name : str }.

(** The dictionary appended to [elements] in [_create_initial_commit]. *)
Record tree_element : Type := {
  path : str;
  mode : str;
  type_ : str;
  sha : str
}.

(** The text-generation back ends of [code_generator.py]. *)
Inductive backend : Type := gemini | openai | anthropic.

(* ================================================================== *)
(** * External calls *)
(* ================================================================== *)

(** Every interaction with the outside world. *)
Inductive call : Type :=
| requests_post (url : str) (data : Dict.t json) (timeout : Z)
| time_sleep (seconds : Z)
| datetime_utcnow
| llm_post (b : backend) (api_key prompt : str)
| user_create_repo (repo_name description : str) (private auto_init : bool)
| user_get_repo (repo_name : str)
| create_git_blob (repo : Repository) (content encoding : str)
| create_git_tree (repo : Repository) (elements : list tree_element)
| create_git_commit (repo : Repository) (message tree : str)
    (parents : list str)
| get_git_ref (repo : Repository) (ref : str)
| ref_edit (ref : GitRef) (commit_sha : str)
| create_git_ref (repo : Repository) (ref commit_sha : str)
| get_contents (repo : Repository) (file : str)
| update_file (repo : Repository) (file message content file_sha branch : str)
| create_file (repo : Repository) (file message content branch : str)
| get_commits_first (repo : Repository)
| create_pages_site (repo : Repository) (branch dir : str).

(** What [requests.post] can do: answer with a status code, raise
    [requests.exceptions.Timeout], raise another exception of the
    [requests.exceptions] hierarchy, or raise an exception from outside
    that hierarchy (the URL parser of urllib3 does, for one). *)
Inductive post_outcome : Type :=
| Response (status_code : Z)
| PostTimeout (msg : str)
| PostError (msg : str)
| PostOther (msg : str).

(** The type of the answer to each call.  Calls of the hosting client and
    of the text-generation back end may raise any exception. *)
Definition ret_ty (c : call) : Type :=
  match c with
  | requests_post _ _ _ => post_outcome
  | time_sleep _ => unit
  | datetime_utcnow => str
  | llm_post _ _ _ => result str
  | user_create_repo _ _ _ _ => result Repository
  | user_get_repo _ => result Repository
  | create_git_blob _ _ _ => result str
  | create_git_tree _ _ => result str
  | create_git_commit _ _ _ _ => result str
  | get_git_ref _ _ => result GitRef
  | ref_edit _ _ => result unit
  | create_git_ref _ _ _ => result unit
  | get_contents _ _ => result str
  | update_file _ _ _ _ _ _ => result unit
  | create_file _ _ _ _ _ => result unit
  | get_commits_first _ => result str
  | create_pages_site _ _ _ => result unit
  end.

(** What an execution leaves behind: the external calls with their
    answers, the records written to the status tracker, and the threads
    started. *)
Inductive event : Type :=
| Called (c : call) (r : ret_ty c)
| Tracker (task_id : str) (record : Dict.t json)
| ThreadStart (task_data : json).

(* ================================================================== *)
(** * The execution monad *)
(* ================================================================== *)

Section Runtime.
Variable World : Type.

(** The world together with the two global dictionaries of [app.py]. *)
Record state : Type := {
  world : World;
  processing_status : Dict.t (Dict.t json);
  tasks_db : Dict.t (task_request * Dict.t json)
}.

(** The outcome of running a computation. *)
Record run (A : Type) : Type := Run {
  value : result A;
  events : list event;
  final : state
}.

Definition M (A : Type) : Type := state -> run A.

Definition ret {A} (a : A) : M A :=
  fun s => Run (Ok a) [] s.

Definition raise {A} (e : exn) : M A :=
  fun s => Run (Raise e) [] s.

Definition bind {A B} (m : M A) (f : A -> M B) : M B :=
  fun s =>
    match m s with
    | Run (Ok a) evs s1 =>
        match f a s1 with
        | Run v evs' s2 => Run v (evs ++ evs') s2
        end
    | Run (Raise e) evs s1 => Run (Raise e) evs s1
    end.

(** [try: body except ...: handler]; the handler answers [None] for an
    exception no [except] clause matches. *)
Definition try_except {A} (body : M A) (handler : exn -> option (M A))
  : M A :=
  fun s =>
    match body s with
    | Run (Ok a) evs s1 => Run (Ok a) evs s1
    | Run (Raise e) evs s1 =>
        match handler e with
        | Some h =>
            match h s1 with
            | Run v evs' s2 => Run v (evs ++ evs') s2
            end
        | None => Run (Raise e) evs s1
        end
    end.

(** [for x in l: body(x)] *)
Fixpoint for_each {A} (l : list A) (body : A -> M unit) : M unit :=
  match l with
  | [] => ret tt
  | x :: l' => bind (body x) (fun _ => for_each l' body)
  end.

(** The world's answer to each call. *)
Variable api : forall c : call, World -> ret_ty c * World.

Definition perform (c : call) : state -> run (ret_ty c) :=
  fun s =>
    let '(r, w) := api c (world s) in
    Run (Ok r) [Called c r]
      {| world := w;
         processing_status := processing_status s;
         tasks_db := tasks_db s |}.

(** A call whose answer is a Python result: an exception it reports is
    raised at the call site. *)
Definition raising {A} (m : state -> run (result A)) : M A :=
  fun s =>
    match m s with
    | Run (Ok x) evs s1 => Run x evs s1
    | Run (Raise e) evs s1 => Run (Raise e) evs s1
    end.
End Runtime.

Arguments ret {World A} a.
Arguments raise {World A} e.
Arguments bind {World A B} m f.
Arguments try_except {World A} body handler.
Arguments for_each {World A} l body.

Declare Scope py_scope.
Delimit Scope py_scope with py.
Notation "x <- m ;; k" := (bind m (fun x => k))
  (at level 100, m at next level, right associativity) : py_scope.
Notation "' p <- m ;; k" := (bind m (fun x => let p := x in k))
  (at level 100, p pattern, m at next level, right associativity) : py_scope.
Notation "m ;; k" := (bind m (fun _ => k))
  (at level 100, right associativity) : py_scope.

Local Open Scope py_scope.
Local Open Scope Z_scope.

(* ================================================================== *)
(** * The standard output *)
(* ================================================================== *)

(** The standard output is encoded in UTF-8 (the sources print the marks
    U+2713 and U+2717), and UTF-8 has no encoding of the surrogate code
    points U+D800..U+DFFF. *)
Definition is_surrogate (c : char) : bool :=
  ((55296 <=? c) && (c <=? 57343))%N.

Definition printable (text : str) : bool :=
  forallb (fun c => negb (is_surrogate c)) text.

(** The surrogates at the head of a text. *)
Fixpoint leading_surrogates (text : str) : str :=
  match text with
  | c :: rest => if is_surrogate c then c :: leading_surrogates rest else []
  | [] => []
  end.

(** The first run of surrogates of a text and its position. *)
Fixpoint first_surrogates (position : Z) (text : str) : Z * str :=
  match text with
  | [] => (position, [])
  | c :: rest =>
      if is_surrogate c then (position, c :: leading_surrogates rest)
      else first_surrogates (position + 1) rest
  end.

(** The [UnicodeEncodeError] of the UTF-8 encoder on a text that holds a
    surrogate, and its message. *)
Definition encode_message (text : str) : str :=
  let '(start, bad) := first_surrogates 0 text in
  lit "'utf-8' codec can't encode "
    ++ match bad with
       | [c] =>
           lit "character '\u" ++ Str.hex4 c ++ lit "' in position "
             ++ Str.of_Z start
       | _ =>
           lit "characters in position " ++ Str.of_Z start ++ lit "-"
             ++ Str.of_Z (start + Z.of_nat (length bad) - 1)
       end
    ++ lit ": surrogates not allowed".

Definition encode_error (text : str) : exn :=
  UnicodeEncodeError (encode_message text).

(** [print(text)]: nothing the statements observe when the text can be
    encoded, the encoder's exception when it cannot. *)
Definition print {World : Type} (text : str) : M World unit :=
  if printable text then ret tt else raise (encode_error text).

(** Slices and [enumerate], as the sources use them. *)
Definition slice_upto {A} (n : Z) (l : list A) : list A :=
  if n <? 0 then firstn (length l - Z.to_nat (- n)) l
  else firstn (Z.to_nat n) l.

Fixpoint enumerate {A} (start : Z) (l : list A) : list (Z * A) :=
  match l with
  | [] => []
  | x :: l' => (start, x) :: enumerate (start + 1) l'
  end.

(* ================================================================== *)
(** * evaluator.py *)
(* ================================================================== *)

Module Evaluator.
Section WithWorld.
Variable World : Type.
Variable api : forall c : call, World -> ret_ty c * World.

Definition retry_delays : list Z := [1; 2; 4; 8; 16].

(** [requests.post(url, json=data, headers=headers, timeout=30)]
    followed by reading [response.status_code]. *)
Definition post (url : str) (data : Dict.t json) : M World Z :=
  r <- perform api (requests_post url data 30) ;;
  match r with
  | Response status_code => ret status_code
  | PostTimeout m => raise (requests_Timeout m)
  | PostError m => raise (requests_RequestException m)
  | PostOther m => raise (OtherException m)
  end.

(** [time.sleep(delay)] *)
Definition sleep (delay : Z) : M World unit :=
  perform api (time_sleep delay).

(** What lines 22-45 do with the answer to the request: [Ok (Some b)]
    stands for [return b], [Ok None] for going on to the code after the
    [try] statement, [Raise e] for an exception that no [except] clause
    of the statement catches. *)
Definition verdict (answer : post_outcome) : result (option bool) :=
  match answer with
  | Response status_code =>
      if status_code =? 200 then Ok (Some true)
      else if (400 <=? status_code) && (status_code <? 500)
           then Ok (Some false)
           else Ok None
  | PostTimeout _ => Ok None
  | PostError _ => Ok None
  | PostOther m => Raise (OtherException m)
  end.

(** The [try] statement of the loop body (lines 17-45).  [Some b]
    stands for [return b]; [None] for falling through to the code
    after the [try].  Of the messages printed, the one of line 19 holds
    the URL as it is and raises when the URL cannot be encoded.  The
    others are left out: they hold fixed text and numbers, the payload
    through [repr], the text of the response or that of the exception. *)
Definition attempt (url : str) (data : Dict.t json)
  : M World (option bool) :=
  try_except
    (print (lit "URL: " ++ url) ;;
     status_code <- post url data ;;
     if status_code =? 200 then ret (Some true)
     else if (400 <=? status_code) && (status_code <? 500)
          then ret (Some false)
          else ret None)
    (fun e =>
       match e with
       | requests_Timeout _ => Some (ret None)
       | requests_RequestException _ => Some (ret None)
       | _ => None
       end).

(** The [for attempt, delay in enumerate(...)] loop and the final
    [return False]. *)
Fixpoint attempts (url : str) (data : Dict.t json) (max_retries : Z)
  (pairs : list (Z * Z)) : M World bool :=
  match pairs with
  | [] => ret false
  | (attempt_no, delay) :: rest =>
      r <- attempt url data ;;
      match r with
      | Some b => ret b
      | None =>
          (if attempt_no <? max_retries then sleep delay else ret tt) ;;
          attempts url data max_retries rest
      end
  end.

Definition submit_to_evaluation (url : str) (data : Dict.t json)
  (max_retries : Z) : M World bool :=
  attempts url data max_retries
    (enumerate 1 (slice_upto max_retries retry_delays)).

(** The default [max_retries=5]. *)
Definition submit_to_evaluation_default (url : str) (data : Dict.t json)
  : M World bool :=
  submit_to_evaluation url data 5.
End WithWorld.
End Evaluator.

(* ================================================================== *)
(** * code_generator.py *)
(* ================================================================== *)

Definition DQ : str := [34%N].
Definition COMMA : char := 44%N.
Definition EQUALS : char := 61%N.
Definition SLASH : char := 47%N.

(** Lines joined by newlines: the multi-line literals of the sources. *)
Definition text (lines : list str) : str := Str.join [NL] lines.

Module CodeGenerator.

(** The object built by [CodeGenerator(api_key, provider)]. *)
Record t : Type := {
  api_key : str;
  provider : str
}.

Definition __init__ (api_key provider : str) : t :=
  {| api_key := api_key; provider := Str.lower provider |}.

Section Prompt.
(** [base64.b64decode(data).decode('utf-8', errors='ignore')], [None]
    when the decoding raises. *)
Variable b64decode_utf8 : str -> option str.

(** [att.get('name', default)] and [att.get('url', '')] *)
Definition name_or (default : str) (att : attachment) : str :=
  match att_name att with Some n => n | None => default end.
Definition url_of (att : attachment) : str :=
  match att_url att with Some u => u | None => [] end.

(** The text one attachment adds to [info] (lines 43-64). *)
Definition attachment_info (att : attachment) : str :=
  let name := name_or (lit "unknown") att in
  let url := url_of att in
  if Str.startswith (lit "data:") url then
    match Str.split1 COMMA url with
    | [mime_info; data] =>
        if Str.contains (lit "base64") mime_info then
          match b64decode_utf8 data with
          | Some decoded =>
              lit "- " ++ name ++ lit ": " ++ Str.upto 200 decoded
                ++ lit "..." ++ [NL]
          | None => lit "- " ++ name ++ lit ": [binary data]" ++ [NL]
          end
        else
          lit "- " ++ name ++ lit ": " ++ Str.upto 200 data
            ++ lit "..." ++ [NL]
    | _ => []
    end
  else lit "- " ++ name ++ lit ": " ++ url ++ [NL].

Definition _process_attachments (attachments : list attachment) : str :=
  match attachments with
  | [] => lit "No attachments provided."
  | _ =>
      fold_left (fun info att => info ++ attachment_info att)
        attachments (lit "Attachments:" ++ [NL])
  end.

(** ["\n".join([f"- {check}" for check in checks])] *)
Definition checks_str (checks : list str) : str :=
  text (map (fun check => lit "- " ++ check) checks).

Definition prompt_head : str := text [
  lit "You are an expert web developer. Create a complete, functional single-page web application based on the following requirements.";
  lit "";
  lit "BRIEF:";
  lit "" ].

Definition prompt_requirements : str := text [
  lit "";
  lit "";
  lit "REQUIREMENTS:";
  lit "1. Create a single HTML file with embedded CSS and JavaScript";
  lit "2. Use CDN links for any libraries (Bootstrap, marked, highlight.js, etc.)";
  lit "3. Make the code clean, well-commented, and professional";
  lit "4. Ensure ALL checks will pass";
  lit "5. If attachments are provided as data URIs, embed them directly in the code or fetch them";
  lit "6. The app should be fully functional and production-ready";
  lit "7. Handle errors gracefully";
  lit "8. Use modern ES6+ JavaScript";
  lit "";
  lit "OUTPUT FORMAT:";
  lit "Provide the complete HTML file content. Start with <!DOCTYPE html> and include everything in a single file.";
  lit "After the HTML file, if needed, provide a README.md with:";
  lit "- Project title and description";
  lit "- Features";
  lit "- How to use";
  lit "- Code structure explanation";
  lit "- Technologies used";
  lit "";
  lit "Use this format:";
  lit "=== index.html ===";
  lit "[HTML content here]";
  lit "";
  lit "=== README.md ===";
  lit "[README content here]";
  lit "";
  lit "Now generate the complete application code:" ].

Definition _create_prompt (brief : str) (checks : list str)
  (attachments_info : str) : str :=
  prompt_head ++ brief
    ++ text [lit ""; lit ""; lit "CHECKS (These will be tested):"; lit ""]
    ++ checks_str checks
    ++ text [lit ""; lit ""; lit ""]
    ++ attachments_info
    ++ prompt_requirements.
End Prompt.

(** ** Parsing the completion *)

(** The test of line 94 and the name taken at line 100. *)
Definition is_marker (line : str) : bool :=
  Str.startswith (lit "=== ") (Str.strip line)
  && Str.endswith (lit " ===") (Str.strip line).

Definition marker_name (line : str) : str :=
  Str.strip
    (Str.replace (lit " ===") []
       (Str.replace (lit "=== ") [] (Str.strip line))).

(** The three variables of the scanning loop. *)
Record scan : Type := {
  files : Dict.t str;
  current_file : option str;
  current_content : list str
}.

(** [if current_file:] holds for a non-empty string only. *)
Definition truthy (current_file : option str) : bool :=
  match current_file with
  | Some (_ :: _) => true
  | _ => false
  end.

(** [if current_file: files[current_file] = '\n'.join(current_content).strip()] *)
Definition save (sc : scan) : Dict.t str :=
  match current_file sc with
  | Some (c :: f) =>
      Dict.set (c :: f) (Str.strip (text (current_content sc))) (files sc)
  | _ => files sc
  end.

(** One iteration of [for line in lines] (lines 92-103). *)
Definition scan_line (sc : scan) (line : str) : scan :=
  if is_marker line then
    {| files := save sc;
       current_file := Some (marker_name line);
       current_content := [] |}
  else if truthy (current_file sc) then
    {| files := files sc;
       current_file := current_file sc;
       current_content := current_content sc ++ [line] |}
  else sc.

(** Lines 85-107: the file set found by the delimiter scan. *)
Definition parse_sections (response : str) : Dict.t str :=
  save (fold_left scan_line (Str.split NL response)
          {| files := Dict.empty str;
             current_file := None;
             current_content := [] |}).

(** The markup skeleton of lines 116-126. *)
Definition wrap_html (response : str) : str :=
  text [
    lit "<!DOCTYPE html>";
    lit "<html lang=" ++ DQ ++ lit "en" ++ DQ ++ lit ">";
    lit "<head>";
    lit "    <meta charset=" ++ DQ ++ lit "UTF-8" ++ DQ ++ lit ">";
    lit "    <meta name=" ++ DQ ++ lit "viewport" ++ DQ ++ lit " content="
      ++ DQ ++ lit "width=device-width, initial-scale=1.0" ++ DQ ++ lit ">";
    lit "    <title>Generated App</title>";
    lit "</head>";
    lit "<body>";
    lit "    " ++ response;
    lit "</body>";
    lit "</html>" ].

(** Lines 109-126: the fall-back when the scan found nothing. *)
Definition or_index_html (response : str) (files : Dict.t str)
  : Dict.t str :=
  match files with
  | [] =>
      if Str.contains (lit "<!DOCTYPE html>") response
         || Str.contains (lit "<html") response
      then Dict.set (lit "index.html") (Str.strip response) files
      else Dict.set (lit "index.html") (wrap_html response) files
  | _ => files
  end.

(** Lines 128-133: one iteration of [for att in attachments]. *)
Definition save_attachment (files : Dict.t str) (att : attachment)
  : Dict.t str :=
  let name := name_or [] att in
  let url := url_of att in
  match name with
  | _ :: _ =>
      if Str.startswith (lit "data:") url then Dict.set name url files
      else files
  | [] => files
  end.

Definition _parse_response (response : str) (attachments : list attachment)
  : Dict.t str :=
  fold_left save_attachment attachments
    (or_index_html response (parse_sections response)).
(** ** Required files *)

Definition MIT_LICENSE : str := text [
  lit "MIT License";
  lit "";
  lit "Copyright (c) 2025";
  lit "";
  lit "Permission is hereby granted, free of charge, to any person obtaining a copy";
  lit "of this software and associated documentation files (the " ++ DQ
    ++ lit "Software" ++ DQ ++ lit "), to deal";
  lit "in the Software without restriction, including without limitation the rights";
  lit "to use, copy, modify, merge, publish, distribute, sublicense, and/or sell";
  lit "copies of the Software, and to permit persons to whom the Software is";
  lit "furnished to do so, subject to the following conditions:";
  lit "";
  lit "The above copyright notice and this permission notice shall be included in all";
  lit "copies or substantial portions of the Software.";
  lit "";
  lit "THE SOFTWARE IS PROVIDED " ++ DQ ++ lit "AS IS" ++ DQ
    ++ lit ", WITHOUT WARRANTY OF ANY KIND, EXPRESS OR";
  lit "IMPLIED, INCLUDING BUT NOT LIMITED TO THE WARRANTIES OF MERCHANTABILITY,";
  lit "FITNESS FOR A PARTICULAR PURPOSE AND NONINFRINGEMENT. IN NO EVENT SHALL THE";
  lit "AUTHORS OR COPYRIGHT HOLDERS BE LIABLE FOR ANY CLAIM, DAMAGES OR OTHER";
  lit "LIABILITY, WHETHER IN AN ACTION OF CONTRACT, TORT OR OTHERWISE, ARISING FROM,";
  lit "OUT OF OR IN CONNECTION WITH THE SOFTWARE OR THE USE OR OTHER DEALINGS IN THE";
  lit "SOFTWARE." ].

Definition _generate_readme (brief : str) (checks : list str)
  (files : Dict.t str) : str :=
  text [
    lit "# Web Application";
    lit "";
    lit "## Description";
    brief;
    lit "";
    lit "## Features";
    lit "This application fulfills the following requirements:";
    checks_str checks;
    lit "";
    lit "## Setup";
    lit "1. Clone this repository";
    lit "2. Open `index.html` in a web browser";
    lit "3. No build process or dependencies required!";
    lit "";
    lit "## Usage";
    lit "Simply open the `index.html` file in your browser. The application is fully self-contained with all necessary CDN resources loaded automatically.";
    lit "";
    lit "## Code Structure";
    lit "- **index.html**: Main application file containing HTML, CSS, and JavaScript";
    lit "- All external libraries are loaded via CDN for reliability";
    lit "- Modern ES6+ JavaScript is used throughout";
    lit "- Responsive design ensures compatibility across devices";
    lit "";
    lit "## Technologies Used";
    lit "- HTML5";
    lit "- CSS3";
    lit "- JavaScript (ES6+)";
    lit "- External libraries as specified in requirements";
    lit "";
    lit "## License";
    lit "This project is licensed under the MIT License - see the LICENSE file for details.";
    lit "";
    lit "## Generated";
    lit "This application was automatically generated based on project requirements." ].

Definition _add_required_files (files : Dict.t str) (brief : str)
  (checks : list str) : Dict.t str :=
  let files :=
    if negb (Dict.mem (lit "LICENSE") files)
       && negb (Dict.mem (lit "LICENSE.md") files)
    then Dict.set (lit "LICENSE") MIT_LICENSE files
    else files in
  if negb (Dict.mem (lit "README.md") files)
  then Dict.set (lit "README.md") (_generate_readme brief checks files) files
  else files.

(** ** The generator *)

Section WithWorld.
Variable World : Type.
Variable api : forall c : call, World -> ret_ty c * World.
Variable b64decode_utf8 : str -> option str.

(** [_call_gemini], [_call_openai], [_call_anthropic]: one request,
    [raise_for_status()], and the unwrapping of the envelope. *)
Definition _call_backend (self : t) (b : backend) (prompt : str)
  : M World str :=
  raising (perform api (llm_post b (api_key self) prompt)).

Definition _call_llm (self : t) (prompt : str) : M World str :=
  if provider self =s? lit "gemini" then _call_backend self gemini prompt
  else if provider self =s? lit "openai"
  then _call_backend self openai prompt
  else if provider self =s? lit "anthropic"
  then _call_backend self anthropic prompt
  else raise (ValueError (lit "Unsupported provider: " ++ provider self)).

Definition generate_app (self : t) (brief : str) (checks : list str)
  (attachments : list attachment) : M World (Dict.t str) :=
  let attachments_info := _process_attachments b64decode_utf8 attachments in
  let prompt := _create_prompt brief checks attachments_info in
  response <- _call_llm self prompt ;;
  let files := _parse_response response attachments in
  let files := _add_required_files files brief checks in
  ret files.
End WithWorld.
End CodeGenerator.

(* ================================================================== *)
(** * github_manager.py *)
(* ================================================================== *)

Module GitHubManager.

(** The object built by [GitHubManager(token, username)]; the client and
    the authenticated user live in the world. *)
Record t : Type := { username : str }.

(** The reference file written for a data URI (lines 92-93 and
    131-132, the same text at both places). *)
Definition reference_text (filename content : str) : str :=
  lit "# " ++ filename ++ [NL; NL]
    ++ lit "This file was provided as an attachment." ++ [NL]
    ++ lit "Data URI: " ++ Str.upto 100 content ++ lit "...".

Definition reference_path (filename : str) : str :=
  lit "attachments/" ++ filename ++ lit ".txt".

Definition pages_url_of (self : t) (repo_name : str) : str :=
  lit "https://" ++ username self ++ lit ".github.io/" ++ repo_name
    ++ lit "/".

Section WithWorld.
Variable World : Type.
Variable api : forall c : call, World -> ret_ty c * World.

Definition gh (c : call) := perform api c.

Definition _enable_pages (self : t) (repo : Repository) : M World str :=
  try_except
    (raising (gh (create_pages_site repo (lit "main") (lit "/"))))
    (fun e => if is_GithubException e then Some (ret tt) else None) ;;
  ret (pages_url_of self (name repo)).

(** The [for filename, content in files.items()] loop of
    [_create_initial_commit] (lines 88-104). *)
Fixpoint create_blobs (repo : Repository) (items : list (str * str))
  (elements : list tree_element) : M World (list tree_element) :=
  match items with
  | [] => ret elements
  | (filename, content) :: rest =>
      let '(filename, content) :=
        if Str.startswith (lit "data:") content
        then (reference_path filename, reference_text filename content)
        else (filename, content) in
      blob_sha <- raising (gh (create_git_blob repo content (lit "utf-8"))) ;;
      create_blobs repo rest
        (elements ++ [ {| path := filename;
                          mode := lit "100644";
                          type_ := lit "blob";
                          sha := blob_sha |} ])
  end.

Definition _create_initial_commit (self : t) (repo : Repository)
  (files : Dict.t str) : M World str :=
  elements <- create_blobs repo (Dict.items files) [] ;;
  tree <- raising (gh (create_git_tree repo elements)) ;;
  commit_sha <- raising (gh (create_git_commit repo
                   (lit "Initial commit - Auto-generated application")
                   tree [])) ;;
  try_except
    (ref <- raising (gh (get_git_ref repo (lit "heads/main"))) ;;
     raising (gh (ref_edit ref commit_sha)))
    (fun _ =>
       Some (raising (gh (create_git_ref repo (lit "refs/heads/main")
                            commit_sha)))) ;;
  ret commit_sha.

Definition _update_or_create_file (self : t) (repo : Repository)
  (filename content : str) : M World unit :=
  try_except
    (let '(filename, content) :=
       if Str.startswith (lit "data:") content
       then (reference_path filename, reference_text filename content)
       else (filename, content) in
     try_except
       (file_sha <- raising (gh (get_contents repo filename)) ;;
        raising (gh (update_file repo filename
                       (lit "Update " ++ filename) content file_sha
                       (lit "main"))))
       (fun e =>
          match e with
          | GithubException status _ =>
              Some (if status =? 404
                    then raising (gh (create_file repo filename
                                        (lit "Add " ++ filename) content
                                        (lit "main")))
                    else raise e)
          | _ => None
          end))
    (fun e => Some (raise e)).

Definition update_repo (self : t) (repo_name : str) (files : Dict.t str)
  : M World (str * str * str) :=
  try_except
    (repo <- raising (gh (user_get_repo repo_name)) ;;
     for_each (Dict.items files)
       (fun '(filename, content) =>
          _update_or_create_file self repo filename content) ;;
     latest_commit <- raising (gh (get_commits_first repo)) ;;
     let pages_url := pages_url_of self repo_name in
     try_except (_enable_pages self repo ;; ret tt)
       (fun _ => Some (ret tt)) ;;
     ret (html_url repo, latest_commit, pages_url))
    (fun e => if is_GithubException e then Some (raise e) else None).

(** The body of the [try] statement of [create_repo] (lines 21-43). *)
Definition create_repo_try (self : t) (repo_name : str)
  (files : Dict.t str) (description : str) : M World (str * str * str) :=
  repo <- raising (gh (user_create_repo repo_name description false false)) ;;
  perform api (time_sleep 2) ;;
  commit_sha <- _create_initial_commit self repo files ;;
  pages_url <- _enable_pages self repo ;;
  perform api (time_sleep 5) ;;
  ret (html_url repo, commit_sha, pages_url).

Definition create_repo (self : t) (repo_name : str) (files : Dict.t str)
  (description : str) : M World (str * str * str) :=
  try_except
    (create_repo_try self repo_name files description)
    (fun e =>
       match e with
       | GithubException status _ =>
           Some (if status =? 422 then update_repo self repo_name files
                 else raise e)
       | _ => None
       end).

(** [verify_repo_accessible]: the repository asked for is named by what
    follows the last [/] of the URL; the bare [except] answers [False]. *)
Definition verify_repo_accessible (self : t) (repo_url : str)
  : M World bool :=
  try_except
    (let repo_name := last (Str.split SLASH repo_url) [] in
     repo <- raising (gh (user_get_repo repo_name)) ;;
     ret true)
    (fun _ => Some (ret false)).
End WithWorld.
End GitHubManager.

(* ================================================================== *)
(** * app.py *)
(* ================================================================== *)

Module App.

(** [v == s] for a decoded JSON value and a string. *)
Definition json_is_str (v : json) (s : str) : bool :=
  match v with JStr s' => s' =s? s | _ => false end.

(** [field in task_data] for a decoded JSON value. *)
Definition contains_field (field : str) (task_data : json) : result bool :=
  match task_data with
  | JObj o => Ok (Dict.mem field o)
  | JList l => Ok (existsb (fun v => json_is_str v field) l)
  | JStr s => Ok (Str.contains field s)
  | JNull =>
      Raise (TypeError (lit "argument of type 'NoneType' is not iterable"))
  | JBool _ =>
      Raise (TypeError (lit "argument of type 'bool' is not iterable"))
  | JNum _ =>
      Raise (TypeError (lit "argument of type 'int' is not iterable"))
  end.

(** [task_data[key]] for a string [key]. *)
Definition getitem (task_data : json) (key : str) : result json :=
  match task_data with
  | JObj o =>
      match Dict.get key o with
      | Some v => Ok v
      | None => Raise (KeyError key)
      end
  | JList _ =>
      Raise (TypeError (lit "list indices must be integers or slices, not str"))
  | JStr _ =>
      Raise (TypeError (lit "string indices must be integers, not 'str'"))
  | JNull => Raise (TypeError (lit "'NoneType' object is not subscriptable"))
  | JBool _ => Raise (TypeError (lit "'bool' object is not subscriptable"))
  | JNum _ => Raise (TypeError (lit "'int' object is not subscriptable"))
  end.

(** [repr(s)] for a string: in single quotes, or in double quotes when
    the string holds a single quote and no double quote; the quote, the
    backslash and the code points that cannot be displayed are escaped.
    Above U+007E the surrogates are escaped here; Python escapes every
    code point that [str.isprintable] rejects. *)
Definition repr_char (quote c : char) : str :=
  (if (c =? quote) || (c =? 92) then [92; c]
   else if c =? 9 then lit "\t"
   else if c =? 10 then lit "\n"
   else if c =? 13 then lit "\r"
   else if (c <? 32) || (c =? 127) then lit "\x" ++ Str.hex2 c
   else if is_surrogate c then lit "\u" ++ Str.hex4 c
   else [c])%N.

Definition repr_str (s : str) : str :=
  let quote :=
    if existsb (N.eqb 39) s && negb (existsb (N.eqb 34) s)
    then 34%N else 39%N in
  quote :: flat_map (repr_char quote) s ++ [quote].

(** [repr(v)] for a decoded JSON value. *)
Fixpoint repr (v : json) : str :=
  match v with
  | JNull => lit "None"
  | JBool b => if b then lit "True" else lit "False"
  | JNum z => Str.of_Z z
  | JStr s => repr_str s
  | JList l => lit "[" ++ Str.join (lit ", ") (map repr l) ++ lit "]"
  | JObj o =>
      lit "{"
        ++ Str.join (lit ", ")
             (map (fun item : str * json =>
                     let (key, v') := item in
                     repr_str key ++ lit ": " ++ repr v') o)
        ++ lit "}"
  end.

(** [f"{v}"], that is [str(v)]: a string is taken as it is, every other
    value through [repr]. *)
Definition format (v : json) : str :=
  match v with
  | JStr s => s
  | _ => repr v
  end.

(** [str(d)] for the datetime [d] whose [d.isoformat()] is [iso]: the
    same text with a space for the [T]. *)
Definition datetime_str (iso : str) : str :=
  Str.replace (lit "T") (lit " ") iso.

(** The message of line 128. *)
Definition received_line (now : str) (task_id round_num : json) : str :=
  lit "[" ++ datetime_str now ++ lit "] Received task: "
    ++ format task_id ++ lit " Round " ++ format round_num.

Definition required_fields : list str :=
  [lit "email"; lit "secret"; lit "task"; lit "round"; lit "nonce";
   lit "brief"; lit "checks"; lit "evaluation_url"].

(** The loop of lines 119-121: the first required field that is not in
    [task_data], if any. *)
Fixpoint first_missing (fields : list str) (task_data : json)
  : result (option str) :=
  match fields with
  | [] => Ok None
  | field :: rest =>
      match contains_field field task_data with
      | Raise e => Raise e
      | Ok false => Ok (Some field)
      | Ok true => first_missing rest task_data
      end
  end.

(** The payload sent to the evaluation URL (lines 71-79). *)
Definition submission_data (task_data : task_request)
  (repo_url commit_sha pages_url : str) : Dict.t json :=
  [(lit "email", JStr (email task_data));
   (lit "task", JStr (task task_data));
   (lit "round", JNum (round task_data));
   (lit "nonce", JStr (nonce task_data));
   (lit "repo_url", JStr repo_url);
   (lit "commit_sha", JStr commit_sha);
   (lit "pages_url", JStr pages_url)].

Section WithWorld.
Variable World : Type.
Variable api : forall c : call, World -> ret_ty c * World.
Variable b64decode_utf8 : str -> option str.
Variable cfg : config.

Definition lift {A} (r : result A) : M World A :=
  match r with
  | Ok a => ret a
  | Raise e => raise e
  end.

(** [datetime.utcnow()], rendered as [isoformat()] does. *)
Definition utcnow : M World str := perform api datetime_utcnow.

(** [processing_status[task_id] = record] *)
Definition set_status (task_id : str) (record : Dict.t json)
  : M World unit :=
  fun s =>
    Run (Ok tt) [Tracker task_id record]
      {| world := world s;
         processing_status :=
           Dict.set task_id record (processing_status s);
         tasks_db := tasks_db s |}.

(** [processing_status[task_id]] *)
Definition get_status (task_id : str) : M World (Dict.t json) :=
  fun s =>
    match Dict.get task_id (processing_status s) with
    | Some record => ret record s
    | None => raise (KeyError task_id) s
    end.

(** [processing_status[task_id]['step'] = step] *)
Definition set_step (task_id step : str) : M World unit :=
  record <- get_status task_id ;;
  set_status task_id (Dict.set (lit "step") (JStr step) record).

(** [tasks_db[key] = entry] *)
Definition store_task (key : str) (entry : task_request * Dict.t json)
  : M World unit :=
  fun s =>
    Run (Ok tt) []
      {| world := world s;
         processing_status := processing_status s;
         tasks_db := Dict.set key entry (tasks_db s) |}.

(** Lines 55-67: the choice between the two publication paths. *)
Definition publish (gh_manager : GitHubManager.t) (task_id : str)
  (round_num : Z) (code_files : Dict.t str) : M World (str * str * str) :=
  let repo_name := task_id in
  if round_num =? 1 then
    GitHubManager.create_repo api gh_manager repo_name code_files
      (lit "Project: " ++ task_id)
  else
    GitHubManager.update_repo api gh_manager repo_name code_files.

(** The [try] block of [process_task_async] (lines 31-100). *)
Definition process_task_try (task_data : task_request) : M World unit :=
  let email := email task_data in
  let task_id := task task_data in
  let round_num := round task_data in
  set_status task_id
    [(lit "status", JStr (lit "processing"));
     (lit "step", JStr (lit "initializing"))] ;;
  set_step task_id (lit "generating_code") ;;
  let generator :=
    CodeGenerator.__init__ (LLM_API_KEY cfg) (LLM_PROVIDER cfg) in
  code_files <- CodeGenerator.generate_app api b64decode_utf8 generator
                  (brief task_data) (checks task_data)
                  (attachments task_data) ;;
  set_step task_id (lit "creating_repo") ;;
  let gh_manager := {| GitHubManager.username := GITHUB_USERNAME cfg |} in
  '(repo_url, commit_sha, pages_url) <-
     publish gh_manager task_id round_num code_files ;;
  set_step task_id (lit "submitting_evaluation") ;;
  let submission_data :=
    submission_data task_data repo_url commit_sha pages_url in
  success <- Evaluator.submit_to_evaluation_default api
               (evaluation_url task_data) submission_data ;;
  timestamp <- utcnow ;;
  set_status task_id
    [(lit "status",
      JStr (if success : bool then lit "completed" else lit "failed"));
     (lit "step", JStr (lit "done"));
     (lit "repo_url", JStr repo_url);
     (lit "commit_sha", JStr commit_sha);
     (lit "pages_url", JStr pages_url);
     (lit "submitted", JBool success);
     (lit "timestamp", JStr timestamp)] ;;
  record <- get_status task_id ;;
  store_task
    (email ++ lit "_" ++ task_id ++ lit "_" ++ Str.of_Z round_num)
    (task_data, record).

(** [process_task_async]: the [try] block and its [except Exception]
    clause (lines 102-107). *)
Definition process_task_async (task_data : task_request) : M World unit :=
  try_except (process_task_try task_data)
    (fun e =>
       Some (timestamp <- utcnow ;;
             set_status (task task_data)
               [(lit "status", JStr (lit "error"));
                (lit "error", JStr (exn_str e));
                (lit "timestamp", JStr timestamp)])).

(** [thread.start()] on a thread that will run [process_task_async]. *)
Definition start_thread (task_data : json) : M World unit :=
  fun s => Run (Ok tt) [ThreadStart task_data] s.

(** [task_data['secret'] != SECRET_CODE] *)
Definition secret_differs (secret : json) : bool :=
  negb (json_is_str secret (SECRET_CODE cfg)).

(** [handle_task]; [request_json] is what [request.get_json()] gives,
    a value or an exception.  The answer is the JSON body and the HTTP
    status.  The message of line 128 holds the task and the round of the
    request as they are; the message of the [except] clause holds the
    text of an exception and is left out. *)
Definition handle_task (request_json : result json) : M World (json * Z) :=
  try_except
    (task_data <- lift request_json ;;
     missing <- lift (first_missing required_fields task_data) ;;
     match missing with
     | Some field =>
         ret (JObj [(lit "error", JStr (lit "Missing field: " ++ field))],
              400)
     | None =>
         secret <- lift (getitem task_data (lit "secret")) ;;
         if secret_differs secret then
           ret (JObj [(lit "error", JStr (lit "Invalid secret"))], 403)
         else
           now <- utcnow ;;
           task_id <- lift (getitem task_data (lit "task")) ;;
           round_num <- lift (getitem task_data (lit "round")) ;;
           print (received_line now task_id round_num) ;;
           start_thread task_data ;;
           ret (JObj [(lit "status", JStr (lit "accepted"));
                      (lit "message",
                       JStr (lit "Task received and processing started"));
                      (lit "task", task_id);
                      (lit "round", round_num)],
                200)
     end)
    (fun e => Some (ret (JObj [(lit "error", JStr (exn_str e))], 500))).

(** [check_status] *)
Definition check_status (task_id : str) : M World (json * Z) :=
  fun s =>
    match Dict.get task_id (processing_status s) with
    | Some record => ret (JObj record, 200) s
    | None => ret (JObj [(lit "error", JStr (lit "Task not found"))], 404) s
    end.
End WithWorld.
End App.

(* ================================================================== *)
(** * Reading executions *)
(* ================================================================== *)

(** The call of an event, if it is one. *)
Definition call_of (e : event) : option call :=
  match e with
  | Called c _ => Some c
  | _ => None
  end.

Definition calls (evs : list event) : list call :=
  flat_map (fun e => match call_of e with Some c => [c] | None => [] end) evs.

(** The answer to a [requests.post]. *)
Definition post_answer (e : event) : option post_outcome :=
  match e with
  | Called c r =>
      match c as c0 return ret_ty c0 -> option post_outcome with
      | requests_post _ _ _ => fun r => Some r
      | _ => fun _ => None
      end r
  | _ => None
  end.

(** The answers to the requests of an execution, in order. *)
Definition post_answers (evs : list event) : list post_outcome :=
  flat_map (fun e => match post_answer e with Some a => [a] | None => [] end)
    evs.



(** The records written to the status tracker, in order. *)
Definition tracker_writes (evs : list event) : list (str * Dict.t json) :=
  flat_map (fun e => match e with
                     | Tracker task_id record => [(task_id, record)]
                     | _ => []
                     end) evs.

(** The threads started. *)
Definition threads_started (evs : list event) : list json :=
  flat_map (fun e => match e with
                     | ThreadStart task_data => [task_data]
                     | _ => []
                     end) evs.

(** Whether the call failed, for the calls that can. *)
Definition raised (e : event) : bool :=
  match e with
  | Called c r =>
      match c as c0 return ret_ty c0 -> bool with
      | requests_post _ _ _ =>
          fun r => match r with Response _ => false | _ => true end
      | time_sleep _ => fun _ => false
      | datetime_utcnow => fun _ => false
      | llm_post _ _ _ => fun r => match r with Ok _ => false | _ => true end
      | user_create_repo _ _ _ _ =>
          fun r => match r with Ok _ => false | _ => true end
      | user_get_repo _ => fun r => match r with Ok _ => false | _ => true end
      | create_git_blob _ _ _ =>
          fun r => match r with Ok _ => false | _ => true end
      | create_git_tree _ _ =>
          fun r => match r with Ok _ => false | _ => true end
      | create_git_commit _ _ _ _ =>
          fun r => match r with Ok _ => false | _ => true end
      | get_git_ref _ _ => fun r => match r with Ok _ => false | _ => true end
      | ref_edit _ _ => fun r => match r with Ok _ => false | _ => true end
      | create_git_ref _ _ _ =>
          fun r => match r with Ok _ => false | _ => true end
      | get_contents _ _ => fun r => match r with Ok _ => false | _ => true end
      | update_file _ _ _ _ _ _ =>
          fun r => match r with Ok _ => false | _ => true end
      | create_file _ _ _ _ _ =>
          fun r => match r with Ok _ => false | _ => true end
      | get_commits_first _ =>
          fun r => match r with Ok _ => false | _ => true end
      | create_pages_site _ _ _ =>
          fun r => match r with Ok _ => false | _ => true end
      end r
  | _ => false
  end.

(* ================================================================== *)
(** * A scripted world *)
(* ================================================================== *)

(** A small world on which the model runs on concrete inputs: the
    evaluation server answers from a script, the text-generation back end
    gives a fixed completion, and the hosting platform keeps the names of
    its repositories and files and numbers the objects it creates. *)
Module Sim.
Record t : Type := {
  replies : list post_outcome;      (* answers of the evaluation server *)
  then_reply : post_outcome;        (* its answer once the script is over *)
  completion : result str;          (* answer of the back end *)
  repos : list str;                 (* repositories that exist *)
  contents : list str;              (* files that exist *)
  main_ref : bool;                  (* whether heads/main exists *)
  counter : Z                       (* next object number *)
}.

Definition has (x : str) (l : list str) : bool :=
  existsb (fun y => y =s? x) l.

Definition tick (w : t) : t :=
  {| replies := replies w; then_reply := then_reply w;
     completion := completion w; repos := repos w;
     contents := contents w; main_ref := main_ref w;
     counter := counter w + 1 |}.

Definition repo_at (repo_name : str) : Repository :=
  {| name := repo_name;
     html_url := lit "https://github.com/user/" ++ repo_name |}.

Definition not_found : exn := GithubException 404 (lit "404 Not Found").
Definition exists_already : exn :=
  GithubException 422 (lit "422 name already exists on this account").

Definition object_id (w : t) : str := lit "sha" ++ Str.of_Z (counter w).

Definition api (c : call) (w : t) : ret_ty c * t :=
  match c as c0 return ret_ty c0 * t with
  | requests_post _ _ _ =>
      match replies w with
      | a :: rest =>
          (a, {| replies := rest; then_reply := then_reply w;
                 completion := completion w; repos := repos w;
                 contents := contents w; main_ref := main_ref w;
                 counter := counter w |})
      | [] => (then_reply w, w)
      end
  | time_sleep _ => (tt, w)
  | datetime_utcnow => (lit "2025-01-01T00:00:00", w)
  | llm_post _ _ _ => (completion w, w)
  | user_create_repo repo_name _ _ _ =>
      if has repo_name (repos w) then (Raise exists_already, w)
      else (Ok (repo_at repo_name),
            {| replies := replies w; then_reply := then_reply w;
               completion := completion w; repos := repo_name :: repos w;
               contents := contents w; main_ref := main_ref w;
               counter := counter w |})
  | user_get_repo repo_name =>
      if has repo_name (repos w) then (Ok (repo_at repo_name), w)
      else (Raise not_found, w)
  | create_git_blob _ _ _ => (Ok (object_id w), tick w)
  | create_git_tree _ _ => (Ok (object_id w), tick w)
  | create_git_commit _ _ _ _ => (Ok (object_id w), tick w)
  | get_git_ref _ ref =>
      if main_ref w then (Ok {| ref_name := ref |}, w)
      else (Raise not_found, w)
  | ref_edit _ _ => (Ok tt, w)
  | create_git_ref _ _ _ =>
      (Ok tt,
       {| replies := replies w; then_reply := then_reply w;
          completion := completion w; repos := repos w;
          contents := contents w; main_ref := true;
          counter := counter w |})
  | get_contents _ file =>
      if has file (contents w) then (Ok (object_id w), w)
      else (Raise not_found, w)
  | update_file _ _ _ _ _ _ => (Ok tt, tick w)
  | create_file _ file _ _ _ =>
      (Ok tt,
       {| replies := replies w; then_reply := then_reply w;
          completion := completion w; repos := repos w;
          contents := file :: contents w; main_ref := main_ref w;
          counter := counter w + 1 |})
  | get_commits_first _ => (Ok (object_id w), w)
  | create_pages_site _ _ _ => (Ok tt, w)
  end.

(** A platform with nothing on it and a server that accepts. *)
Definition fresh : t :=
  {| replies := []; then_reply := Response 200;
     completion := Ok (lit "<html></html>"); repos := [];
     contents := []; main_ref := false; counter := 0 |}.

(** The start of a process: both dictionaries of [app.py] empty. *)
Definition boot (w : t) : state t :=
  {| world := w;
     processing_status := Dict.empty _;
     tasks_db := Dict.empty _ |}.


(** No decoding of base64 payloads. *)
Definition no_decoder : str -> option str := fun _ => None.

(** A decoder for padded base64 whose payload is ASCII text; it gives up
    on everything else. *)
Definition sextet (c : char) : option N :=
  (if (65 <=? c) && (c <=? 90) then Some (c - 65)
   else if (97 <=? c) && (c <=? 122) then Some (c - 71)
   else if (48 <=? c) && (c <=? 57) then Some (c + 4)
   else if c =? 43 then Some 62
   else if c =? 47 then Some 63
   else None)%N.

Definition ascii_bytes (bytes : list N) : option str :=
  if forallb (fun b => (b <? 128)%N) bytes then Some bytes else None.

Fixpoint decode_ascii (s : str) : option str :=
  match s with
  | [] => Some []
  | a :: b :: c :: d :: rest =>
      match sextet a, sextet b with
      | Some x, Some y =>
          let head :=
            if (c =? 61)%N && (d =? 61)%N then
              ascii_bytes [(x * 4 + y / 16)%N]
            else
              match sextet c with
              | Some z =>
                  if (d =? 61)%N then
                    ascii_bytes [(x * 4 + y / 16)%N;
                                 ((y mod 16) * 16 + z / 4)%N]
                  else
                    match sextet d with
                    | Some w =>
                        ascii_bytes [(x * 4 + y / 16)%N;
                                     ((y mod 16) * 16 + z / 4)%N;
                                     ((z mod 4) * 64 + w)%N]
                    | None => None
                    end
              | None => None
              end in
          match head, decode_ascii rest with
          | Some h, Some t => Some (h ++ t)
          | _, _ => None
          end
      | _, _ => None
      end
  | _ => None
  end.

(** A platform on which the repository [demo] exists already, with its
    main branch. *)
Definition with_demo : t :=
  {| replies := []; then_reply := Response 200;
     completion := Ok (lit "<html></html>"); repos := [lit "demo"];
     contents := []; main_ref := true; counter := 0 |}.

Definition sample_config : config :=
  {| SECRET_CODE := lit "secret"; GITHUB_TOKEN := lit "token";
     GITHUB_USERNAME := lit "user"; LLM_API_KEY := lit "key";
     LLM_PROVIDER := lit "openai" |}.

(** A request for the task [demo] in the given round. *)
Definition demo_request (round_num : Z) : task_request :=
  {| email := lit "a@example.com"; task := lit "demo"; round := round_num;
     nonce := lit "n1"; brief := lit "A page"; checks := [lit "h1 exists"];
     attachments := []; evaluation_url := lit "https://example.com/notify" |}.

Definition server_error : exn :=
  GithubException 500 (lit "500 Internal Server Error").

(** The same platform, on which reading the file [bad] fails with a
    server error and enabling the pages fails as well. *)
Definition api_failing_on (bad : str) (c : call) (w : t) : ret_ty c * t :=
  match c as c0 return ret_ty c0 * t with
  | get_contents repo file =>
      if file =s? bad then (Raise server_error, w)
      else api (get_contents repo file) w
  | create_pages_site _ _ _ => (Raise server_error, w)
  | c0 => api c0 w
  end.
End Sim.

(* ================================================================== *)
(** * Vocabulary of the statements *)
(* ================================================================== *)

(** The required fields a JSON object lacks, in the order of the check. *)
Definition missing_fields (o : Dict.t json) : list str :=
  filter (fun field => negb (Dict.mem field o)) App.required_fields.

Definition error_body (message : str) : json :=
  JObj [(lit "error", JStr message)].

(** A computation that leaves the tracker, the task table and the
    threads alone: it only performs external calls. *)
Definition quiet {World A : Type} (m : M World A) : Prop :=
  forall s : state World,
    tracker_writes (events (m s)) = []
    /\ threads_started (events (m s)) = []
    /\ processing_status (final (m s)) = processing_status s
    /\ tasks_db (final (m s)) = tasks_db s.

(** The record the pipeline holds while it is at [step]. *)
Definition step_record (step : str) : Dict.t json :=
  [(lit "status", JStr (lit "processing")); (lit "step", JStr step)].

(** The record written by the [except] clause of the pipeline. *)
Definition error_record (e : exn) (timestamp : str) : Dict.t json :=
  [(lit "status", JStr (lit "error"));
   (lit "error", JStr (exn_str e));
   (lit "timestamp", JStr timestamp)].

(** The record written at the end of the [try] block. *)
Definition done_record (success : bool) (repo_url commit_sha pages_url : str)
  (timestamp : str) : Dict.t json :=
  [(lit "status", JStr (if success then lit "completed" else lit "failed"));
   (lit "step", JStr (lit "done"));
   (lit "repo_url", JStr repo_url);
   (lit "commit_sha", JStr commit_sha);
   (lit "pages_url", JStr pages_url);
   (lit "submitted", JBool success);
   (lit "timestamp", JStr timestamp)].



(** The state of the pipeline of [task_id] once it holds
    [step_record step]. *)
Definition at_step {World : Type} (task_id step : str) (s : state World)
  : state World :=
  {| world := world s;
     processing_status :=
       Dict.set task_id (step_record step) (processing_status s);
     tasks_db := tasks_db s |}.

(** What the [except] clause of the pipeline adds to an execution that
    ends in state [s]. *)
Definition failure {World : Type}
  (api : forall c : call, World -> ret_ty c * World)
  (task_id : str) (e : exn) (s : state World) : list event :=
  [Called datetime_utcnow (fst (api datetime_utcnow (world s)));
   Tracker task_id (error_record e (fst (api datetime_utcnow (world s))))].

(** The two publication paths and the call that enters each. *)
Inductive route : Type := CreatePath | UpdatePath.

Definition entry_of (c : call) : option route :=
  match c with
  | user_create_repo _ _ _ _ => Some CreatePath
  | user_get_repo _ => Some UpdatePath
  | _ => None
  end.

(** The publication paths an execution entered, in order. *)
Definition paths_entered (evs : list event) : list route :=
  flat_map (fun c => match entry_of c with Some p => [p] | None => [] end)
    (calls evs).

(** An event that enters no publication path. *)
Definition enters_no_path (e : event) : Prop :=
  match call_of e with
  | Some c => entry_of c = None
  | None => True
  end.

(** Every event of every execution of [m] satisfies [P]. *)
Definition emits {World A : Type} (P : event -> Prop) (m : M World A) : Prop :=
  forall s : state World, Forall P (events (m s)).

(** How a file of the file set is published: its path and its content
    (lines 90-93 of [_create_initial_commit], 130-132 of
    [_update_or_create_file]). *)
Definition published_as (file : str * str) : str * str :=
  let '(filename, content) := file in
  if Str.startswith (lit "data:") content
  then (GitHubManager.reference_path filename,
        GitHubManager.reference_text filename content)
  else (filename, content).

(** The successful creation of one blob per item, answered by [shas]. *)
Definition blob_events (repo : Repository) (items : list (str * str))
  (shas : list str) : list event :=
  map (fun item_sha : (str * str) * str =>
         Called (create_git_blob repo (snd (fst item_sha)) (lit "utf-8"))
           (Ok (snd item_sha)))
    (combine items shas).

(** The tree elements built from the items and the blobs created. *)
Definition tree_of (items : list (str * str)) (shas : list str)
  : list tree_element :=
  map (fun item_sha : (str * str) * str =>
         {| path := fst (fst item_sha);
            mode := lit "100644";
            type_ := lit "blob";
            sha := snd item_sha |})
    (combine items shas).

Definition initial_message : str :=
  lit "Initial commit - Auto-generated application".

(** The last step of the initial commit: pointing [heads/main] at the
    commit.  The reference is edited when it exists; it is created when
    it does not exist, and also when the edit raised.  The result is that
    of the last call. *)
Inductive ref_phase (repo : Repository) (commit_sha : str)
  : result unit -> list event -> Prop :=
| ref_edited (ref : GitRef) :
    ref_phase repo commit_sha (Ok tt)
      [Called (get_git_ref repo (lit "heads/main")) (Ok ref);
       Called (ref_edit ref commit_sha) (Ok tt)]
| ref_created (e : exn) (r : result unit) :
    ref_phase repo commit_sha r
      [Called (get_git_ref repo (lit "heads/main")) (Raise e);
       Called (create_git_ref repo (lit "refs/heads/main") commit_sha) r]
| ref_created_after_edit (ref : GitRef) (e : exn) (r : result unit) :
    ref_phase repo commit_sha r
      [Called (get_git_ref repo (lit "heads/main")) (Ok ref);
       Called (ref_edit ref commit_sha) (Raise e);
       Called (create_git_ref repo (lit "refs/heads/main") commit_sha) r].

(** The executions of the initial commit of [items]: one blob per item in
    order, then one tree of all the blobs, then one commit of that tree
    without parent, then the reference; the first call that raises ends
    the execution. *)
Inductive commit_trace (repo : Repository) (items : list (str * str))
  : result str -> list event -> Prop :=
| blob_failed (k : nat) (item : str * str) (shas : list str) (e : exn) :
    nth_error items k = Some item ->
    length shas = k ->
    commit_trace repo items (Raise e)
      (blob_events repo items shas
       ++ [Called (create_git_blob repo (snd item) (lit "utf-8")) (Raise e)])
| tree_failed (shas : list str) (e : exn) :
    length shas = length items ->
    commit_trace repo items (Raise e)
      (blob_events repo items shas
       ++ [Called (create_git_tree repo (tree_of items shas)) (Raise e)])
| commit_failed (shas : list str) (tree : str) (e : exn) :
    length shas = length items ->
    commit_trace repo items (Raise e)
      (blob_events repo items shas
       ++ [Called (create_git_tree repo (tree_of items shas)) (Ok tree);
           Called (create_git_commit repo initial_message tree []) (Raise e)])
| committed (shas : list str) (tree commit_sha : str) (r : result unit)
    (refs : list event) :
    length shas = length items ->
    ref_phase repo commit_sha r refs ->
    commit_trace repo items
      (match r with Ok _ => Ok commit_sha | Raise e => Raise e end)
      (blob_events repo items shas
       ++ [Called (create_git_tree repo (tree_of items shas)) (Ok tree);
           Called (create_git_commit repo initial_message tree [])
             (Ok commit_sha)]
       ++ refs).

(** Calls that create a git object, and calls that move a reference. *)
Definition creates_object (e : event) : bool :=
  match call_of e with
  | Some (create_git_blob _ _ _) => true
  | Some (create_git_tree _ _) => true
  | Some (create_git_commit _ _ _ _) => true
  | _ => false
  end.

Definition moves_ref (e : event) : bool :=
  match call_of e with
  | Some (ref_edit _ _) => true
  | Some (create_git_ref _ _ _) => true
  | _ => false
  end.

(** What the hosting platform is sent for the files of a file set: every
    blob, every tree and every file read or written comes from a file of
    the set taken through [published_as]. *)
Definition prepared (files : Dict.t str) (e : event) : Prop :=
  match call_of e with
  | Some (create_git_blob _ content _) =>
      exists file, In file files /\ content = snd (published_as file)
  | Some (create_git_tree _ elements) =>
      map path elements = map (fun file => fst (published_as file)) files
  | Some (get_contents _ name) =>
      exists file, In file files /\ name = fst (published_as file)
  | Some (update_file _ name _ content _ _) =>
      exists file, In file files /\ (name, content) = published_as file
  | Some (create_file _ name _ content _) =>
      exists file, In file files /\ (name, content) = published_as file
  | _ => True
  end.

(** The content an event sends to the platform, if it sends one. *)
Definition content_sent (e : event) : option str :=
  match call_of e with
  | Some (create_git_blob _ content _) => Some content
  | Some (update_file _ _ _ content _ _) => Some content
  | Some (create_file _ _ _ content _) => Some content
  | _ => None
  end.

(** The event stores [item], a path and a content, successfully: a file
    written on the update path, a blob created on the create path. *)
Definition stores (item : str * str) (e : event) : Prop :=
  match e with
  | Called c r =>
      match c as c0 return ret_ty c0 -> Prop with
      | update_file _ name _ content _ _ =>
          fun r => r = Ok tt /\ (name, content) = item
      | create_file _ name _ content _ =>
          fun r => r = Ok tt /\ (name, content) = item
      | create_git_blob _ content _ =>
          fun r => (exists blob_sha, r = Ok blob_sha) /\ content = snd item
      | _ => fun _ => False
      end r
  | _ => False
  end.

(** [piece] occurs in [whole]. *)
Definition occurs_in (piece whole : str) : Prop :=
  exists before after, whole = before ++ piece ++ after.

(** The line of the prompt that previews a base64 attachment: the decoded
    text cut at 200 characters, or the placeholder when the decoding
    raises. *)
Definition preview_line (decode : str -> option str) (name data : str) : str :=
  lit "- " ++ name ++ lit ": "
    ++ match decode data with
       | Some decoded => Str.upto 200 decoded ++ lit "..."
       | None => lit "[binary data]"
       end
    ++ [NL].

(** The attachment stores a data URI under [name] in the file set. *)
Definition stores_under (name : str) (att : attachment) : bool :=
  (CodeGenerator.name_or [] att =s? name)
  && Str.startswith (lit "data:") (CodeGenerator.url_of att).

(** The delimiter line that opens the section of [name]. *)
Definition header (name : str) : str := lit "=== " ++ name ++ lit " ===".

(** Serialisation of a file set with the delimiter convention of the
    parser, as the specification words it: for every file a line
    [=== <filename> ===] followed by the lines of its content. *)
Definition serialize (files : Dict.t str) : str :=
  text (map (fun file : str * str => header (fst file) ++ [NL] ++ snd file)
          files).

(** The parser reads the name back from the delimiter line of [name]. *)
Definition stable_name (name : str) : bool :=
  CodeGenerator.marker_name (header name) =s? name.

(** Lines that open no section. *)
Definition plain (line : str) : Prop := CodeGenerator.is_marker line = false.

(** What a second parse needs of a file: a name the scan can hold, and a
    content that is its own trimmed text and has no delimiter line. *)
Definition well_formed (file : str * str) : Prop :=
  fst file <> []
  /\ ~ In NL (fst file)
  /\ Str.strip (fst file) = fst file
  /\ Str.strip (snd file) = snd file
  /\ Forall plain (Str.split NL (snd file)).

(** The invariant of the scanning loop of [_parse_response]. *)
Definition scan_ok (sc : CodeGenerator.scan) : Prop :=
  NoDup (Dict.keys (CodeGenerator.files sc))
  /\ Forall well_formed (CodeGenerator.files sc)
  /\ (forall name, CodeGenerator.current_file sc = Some name ->
        ~ In NL name /\ Str.strip name = name)
  /\ Forall plain (CodeGenerator.current_content sc)
  /\ Forall (fun line => ~ In NL line) (CodeGenerator.current_content sc).

(** The lines a file takes in the serialisation. *)
Definition block (file : str * str) : list str :=
  header (fst file) :: Str.split NL (snd file).

(** The completion opens a named section, or has no delimiter line at
    all. *)
Definition sections_or_plain (response : str) : bool :=
  match CodeGenerator.parse_sections response with
  | [] =>
      forallb (fun line => negb (CodeGenerator.is_marker line))
        (Str.split NL response)
  | _ :: _ => true
  end.

(** Whom an external call addresses. *)
Inductive party : Type := EvaluationServer | Clock | BackEnd | Platform.

Definition party_of (c : call) : party :=
  match c with
  | requests_post _ _ _ => EvaluationServer
  | time_sleep _ | datetime_utcnow => Clock
  | llm_post _ _ _ => BackEnd
  | _ => Platform
  end.

(** An event that is a call to one of the parties [allowed]. *)
Definition addresses (allowed : party -> bool) (e : event) : Prop :=
  match call_of e with
  | Some c => allowed (party_of c) = true
  | None => False
  end.

(** The back end [_call_llm] chooses for a provider. *)
Definition backend_of (provider : str) : option backend :=
  if provider =s? lit "gemini" then Some gemini
  else if provider =s? lit "openai" then Some openai
  else if provider =s? lit "anthropic" then Some anthropic
  else None.

(** The key of [tasks_db] for a request (line 97). *)
Definition task_key (task_data : task_request) : str :=
  email task_data ++ lit "_" ++ task task_data ++ lit "_"
    ++ Str.of_Z (round task_data).

(** The value of ['status'] in a record of the tracker. *)
Definition status_of (record : Dict.t json) : option json :=
  Dict.get (lit "status") record.

(** [e.status == 404] for a [GithubException]. *)
Definition is_404 (e : exn) : bool :=
  match e with
  | GithubException status _ => status =? 404
  | _ => false
  end.

(** The parties each stage of the pipeline may address. *)
Definition to_back_end (p : party) : bool :=
  match p with BackEnd => true | _ => false end.

Definition to_platform (p : party) : bool :=
  match p with Platform | Clock => true | _ => false end.

Definition to_evaluation (p : party) : bool :=
  match p with EvaluationServer | Clock => true | _ => false end.

(** The record is one the [except] clause of the pipeline wrote. *)
Definition is_error (record : Dict.t json) : bool :=
  match status_of record with
  | Some status => App.json_is_str status (lit "error")
  | None => false
  end.

(** A value that [print] can show as it is: every value but a string that
    holds a surrogate. *)
Definition no_surrogate (v : json) : bool :=
  match v with
  | JStr s => printable s
  | _ => true
  end.

(** The body of the answer to an accepted request. *)
Definition accepted_body (task_id round_num : json) : json :=
  JObj [(lit "status", JStr (lit "accepted"));
        (lit "message", JStr (lit "Task received and processing started"));
        (lit "task", task_id);
        (lit "round", round_num)].



Unset Implicit Arguments.

(* ================================================================== *)
(** * Facts about the execution monad *)
(* ================================================================== *)

Section Steps.
Variable World : Type.

Lemma bind_steps {A B} (m : M World A) (f : A -> M World B)
  s a evs s1 v evs' s2 :
  m s = Run (Ok a) evs s1 ->
  f a s1 = Run v evs' s2 ->
  bind m f s = Run v (evs ++ evs') s2.
Proof. intros H1 H2. unfold bind. rewrite H1, H2. reflexivity. Qed.

Lemma bind_stops {A B} (m : M World A) (f : A -> M World B) s e evs s1 :
  m s = Run (Raise e) evs s1 ->
  bind m f s = Run (Raise e) evs s1.
Proof. intros H1. unfold bind. rewrite H1. reflexivity. Qed.
End Steps.

Section RuntimeFacts.
Variable World : Type.
Variable api : forall c : call, World -> ret_ty c * World.

Lemma perform_run (c : call) (s : state World) :
  perform api c s =
  Run (Ok (fst (api c (world s))))
    [Called c (fst (api c (world s)))]
    {| world := snd (api c (world s));
       processing_status := processing_status s;
       tasks_db := tasks_db s |}.
Proof.
  unfold perform. destruct (api c (world s)); reflexivity.
Qed.

Lemma perform_value (c : call) (s : state World) :
  value (perform api c s) = Ok (fst (api c (world s))).
Proof. rewrite perform_run; reflexivity. Qed.

Lemma perform_events (c : call) (s : state World) :
  events (perform api c s) = [Called c (fst (api c (world s)))].
Proof. rewrite perform_run; reflexivity. Qed.


Lemma run_eta {A} (r : run World A) :
  r = Run (value r) (events r) (final r).
Proof. destruct r; reflexivity. Qed.

Lemma bind_ok {A B} (m : M World A) (f : A -> M World B) s a :
  value (m s) = Ok a ->
  bind m f s =
  Run (value (f a (final (m s))))
    (events (m s) ++ events (f a (final (m s))))
    (final (f a (final (m s)))).
Proof.
  intros H. unfold bind. destruct (m s) as [v evs s1]. cbn in *. subst v.
  destruct (f a s1); reflexivity.
Qed.

Lemma bind_raise {A B} (m : M World A) (f : A -> M World B) s e :
  value (m s) = Raise e ->
  bind m f s = Run (Raise e) (events (m s)) (final (m s)).
Proof.
  intros H. unfold bind. destruct (m s) as [v evs s1]. cbn in *. subst v.
  reflexivity.
Qed.
End RuntimeFacts.

(* ================================================================== *)
(** * The reporter: evaluator.py *)
(* ================================================================== *)

Section EvaluatorFacts.
Variable World : Type.
Variable api : forall c : call, World -> ret_ty c * World.
Variables (url : str) (data : Dict.t json).

Let req : call := requests_post url data 30.

Lemma printable_URL : printable (lit "URL: " ++ url) = printable url.
Proof. reflexivity. Qed.

(** What one attempt does with the answer to its request, when the URL
    can be printed. *)
Lemma attempt_run (s : state World) :
  printable url = true ->
  Evaluator.attempt api url data s =
  Run (Evaluator.verdict (fst (api req (world s))))
    [Called req (fst (api req (world s)))]
    (final (perform api req s)).
Proof.
  intros Hp.
  unfold Evaluator.attempt, try_except, Evaluator.post, bind, print.
  rewrite printable_URL, Hp. cbn [ret value events final app].
  rewrite !perform_run. cbn [value events final]. subst req.
  destruct (fst (api (requests_post url data 30) (world s)))
    as [code | m | m | m]; unfold ret, raise; cbn.
  - destruct (code =? 200); [reflexivity |].
    destruct ((400 <=? code) && (code <? 500)); reflexivity.
  - reflexivity.
  - reflexivity.
  - reflexivity.
Qed.

(** An attempt with a URL that cannot be printed raises before it posts
    anything. *)
Lemma attempt_unprintable (s : state World) :
  printable url = false ->
  Evaluator.attempt api url data s =
  Run (Raise (encode_error (lit "URL: " ++ url))) [] s.
Proof.
  intros Hp.
  unfold Evaluator.attempt, try_except, bind, print.
  rewrite printable_URL, Hp. reflexivity.
Qed.

(** Unfolding one iteration of the loop. *)
Lemma attempts_cons (max_retries attempt_no delay : Z) rest (s : state World) :
  Evaluator.attempts api url data max_retries ((attempt_no, delay) :: rest) s
  = if printable url then
      let answer := fst (api req (world s)) in
      let s1 := final (perform api req s) in
      match Evaluator.verdict answer with
      | Ok (Some b) => Run (Ok b) [Called req answer] s1
      | Ok None =>
          let pause := (if attempt_no <? max_retries
                        then Evaluator.sleep api delay else ret tt) s1 in
          let r' := Evaluator.attempts api url data max_retries rest
                      (final pause) in
          Run (value r') (Called req answer :: events pause ++ events r')
            (final r')
      | Raise e => Run (Raise e) [Called req answer] s1
      end
    else Run (Raise (encode_error (lit "URL: " ++ url))) [] s.
Proof.
  cbn zeta. cbn [Evaluator.attempts]. unfold bind at 1.
  destruct (printable url) eqn:Hp.
  - rewrite (attempt_run s Hp).
    destruct (Evaluator.verdict (fst (api req (world s)))) as [[b |] | e].
    + reflexivity.
    + unfold bind. destruct (attempt_no <? max_retries).
      * unfold Evaluator.sleep. rewrite !perform_run.
        cbn [value events final].
        match goal with
        | |- context [Evaluator.attempts ?a ?b ?c ?d ?e ?f] =>
            destruct (Evaluator.attempts a b c d e f)
        end.
        reflexivity.
      * cbn [ret value events final].
        match goal with
        | |- context [Evaluator.attempts ?a ?b ?c ?d ?e ?f] =>
            destruct (Evaluator.attempts a b c d e f)
        end.
        reflexivity.
    + reflexivity.
  - rewrite (attempt_unprintable s Hp). reflexivity.
Qed.
End EvaluatorFacts.

Lemma enumerate_length {A} (l : list A) :
  forall k, length (enumerate k l) = length l.
Proof.
  induction l as [| x l IH]; intros k; cbn [enumerate length].
  - reflexivity.
  - now rewrite IH.
Qed.





Section ReporterLoop.
Variable World : Type.
Variable api : forall c : call, World -> ret_ty c * World.
Variables (url : str) (data : Dict.t json) (max_retries : Z).

Local Abbreviation req := (requests_post url data 30).
Local Abbreviation loop := (Evaluator.attempts api url data max_retries).

(** The pause between two attempts: its events. *)
Lemma pause_events (attempt_no delay : Z) (s : state World) :
  events ((if attempt_no <? max_retries
           then Evaluator.sleep api delay else ret tt) s)
  = if attempt_no <? max_retries
    then [Called (time_sleep delay) (fst (api (time_sleep delay) (world s)))]
    else [].
Proof.
  destruct (attempt_no <? max_retries).
  - unfold Evaluator.sleep. now rewrite perform_run.
  - reflexivity.
Qed.

Lemma pause_answers (attempt_no delay : Z) (s : state World) :
  post_answers (events ((if attempt_no <? max_retries
                         then Evaluator.sleep api delay else ret tt) s)) = [].
Proof.
  rewrite pause_events. destruct (attempt_no <? max_retries); reflexivity.
Qed.

(** The answers of an execution that goes on after its first request. *)
Lemma answers_cons (answer : post_outcome) (pause rest : list event) :
  post_answers pause = [] ->
  post_answers (Called req answer :: pause ++ rest)
  = answer :: post_answers rest.
Proof.
  intros H. unfold post_answers in *. cbn [flat_map post_answer app].
  rewrite flat_map_app, H. reflexivity.
Qed.


(** It makes at most one request per pair. *)
Lemma attempts_count pairs :
  forall s,
    (length (post_answers (events (loop pairs s))) <= length pairs)%nat.
Proof.
  induction pairs as [| [attempt_no delay] rest IH]; intros s.
  - cbn. lia.
  - rewrite attempts_cons. cbn zeta.
    destruct (printable url); [| cbn; lia].
    destruct (Evaluator.verdict (fst (api req (world s))))
      as [[b |] | e]; cbn [events].
    + cbn. lia.
    + rewrite answers_cons by apply pause_answers. cbn [length].
      apply le_n_S, IH.
    + cbn. lia.
Qed.



End ReporterLoop.









(** C10.  Whatever [max_retries] is, and so for every value above 5,
    [submit_to_evaluation] makes at most 5 requests: one per element of
    the five-element delay list cut at [max_retries].  With
    [max_retries = 0] it returns [False] and does nothing at all. *)
Theorem max_retries_cannot_exceed_schedule :
  forall (World : Type) (api : forall c : call, World -> ret_ty c * World)
         (url : str) (data : Dict.t json),
    (forall (max_retries : Z) (s : state World),
        let r := Evaluator.submit_to_evaluation api url data max_retries s in
        (length (post_answers (events r))
         <= length (slice_upto max_retries Evaluator.retry_delays))%nat
        /\ (length (slice_upto max_retries Evaluator.retry_delays) <= 5)%nat)
    /\
    (forall s : state World,
        Evaluator.submit_to_evaluation api url data 0 s = Run (Ok false) [] s).
Proof.
  intros World api url data. split.
  - intros max_retries s. cbn zeta. split.
    + unfold Evaluator.submit_to_evaluation.
      etransitivity; [apply attempts_count |].
      rewrite enumerate_length. lia.
    + unfold slice_upto.
      destruct (max_retries <? 0);
        rewrite length_firstn; unfold Evaluator.retry_delays;
        cbn [length]; lia.
  - intros s. reflexivity.
Qed.

(* ================================================================== *)
(** * The submission endpoint: app.py, handle_task *)
(* ================================================================== *)

Lemma first_missing_object (o : Dict.t json) (fields : list str) :
  App.first_missing fields (JObj o)
  = Ok (hd_error (filter (fun field => negb (Dict.mem field o)) fields)).
Proof.
  induction fields as [| field rest IH]; cbn [App.first_missing filter].
  - reflexivity.
  - cbn [App.contains_field]. destruct (Dict.mem field o); cbn [negb].
    + exact IH.
    + reflexivity.
Qed.

Lemma mem_get {V} (k : str) (d : Dict.t V) :
  Dict.mem k d = true -> exists v, Dict.get k d = Some v.
Proof.
  unfold Dict.mem. destruct (Dict.get k d) as [v |]; [eauto | discriminate].
Qed.

Lemma nothing_missing (o : Dict.t json) :
  missing_fields o = [] ->
  forall field, In field App.required_fields -> Dict.mem field o = true.
Proof.
  intros H field Hin. unfold missing_fields in H.
  destruct (Dict.mem field o) eqn:Hm; [reflexivity |].
  assert (Hf : In field (filter (fun f => negb (Dict.mem f o))
                           App.required_fields)).
  { apply filter_In. split; [exact Hin | now rewrite Hm]. }
  rewrite H in Hf. destruct Hf.
Qed.

Section HandleTask.
Variable World : Type.
Variable api : forall c : call, World -> ret_ty c * World.
Variable cfg : config.

Local Abbreviation handle := (App.handle_task api cfg).

(** The endpoint on a JSON object that lacks a required field. *)
Lemma handle_task_missing (o : Dict.t json) (field : str) rest
  (s : state World) :
  missing_fields o = field :: rest ->
  handle (Ok (JObj o)) s
  = Run (Ok (error_body (lit "Missing field: " ++ field), 400)) [] s.
Proof.
  intros H. unfold App.handle_task, try_except, bind.
  cbn [App.lift ret value events final app].
  rewrite first_missing_object. fold (missing_fields o). rewrite H.
  reflexivity.
Qed.

(** The endpoint on a JSON object with every required field. *)
Lemma handle_task_complete (o : Dict.t json) (s : state World) :
  missing_fields o = [] ->
  exists secret task_id round_num,
    Dict.get (lit "secret") o = Some secret
    /\ Dict.get (lit "task") o = Some task_id
    /\ Dict.get (lit "round") o = Some round_num
    /\ handle (Ok (JObj o)) s
       = if App.secret_differs cfg secret
         then Run (Ok (error_body (lit "Invalid secret"), 403)) [] s
         else
           let now := fst (api datetime_utcnow (world s)) in
           let line := App.received_line now task_id round_num in
           if printable line
           then Run (Ok (accepted_body task_id round_num, 200))
                  [Called datetime_utcnow now; ThreadStart (JObj o)]
                  (final (perform api datetime_utcnow s))
           else Run (Ok (error_body (encode_message line), 500))
                  [Called datetime_utcnow now]
                  (final (perform api datetime_utcnow s)).
Proof.
  intros H.
  destruct (mem_get (lit "secret") o) as [secret Hs].
  { apply nothing_missing; [exact H | cbn; tauto]. }
  destruct (mem_get (lit "task") o) as [task_id Ht].
  { apply nothing_missing; [exact H | cbn; tauto]. }
  destruct (mem_get (lit "round") o) as [round_num Hr].
  { apply nothing_missing; [exact H | cbn; tauto]. }
  exists secret, task_id, round_num. repeat (split; [assumption |]).
  unfold App.handle_task, try_except, bind.
  cbn [App.lift ret value events final app].
  rewrite first_missing_object. fold (missing_fields o). rewrite H.
  cbn [hd_error App.lift ret value events final app App.getitem].
  rewrite Hs. cbn [App.lift ret value events final app].
  destruct (App.secret_differs cfg secret).
  - reflexivity.
  - unfold bind, App.utcnow. rewrite !perform_run.
    cbn [value events final app App.getitem App.lift].
    rewrite Ht, Hr. cbn [App.lift ret value events final app].
    unfold print. cbn zeta.
    destruct (printable (App.received_line (fst (api datetime_utcnow (world s)))
                           task_id round_num)); reflexivity.
Qed.
End HandleTask.

(** ** What can be printed *)

Lemma printable_app (a b : str) :
  printable (a ++ b) = printable a && printable b.
Proof. apply forallb_app. Qed.

Lemma printable_lit (text : string) : printable (lit text) = true.
Proof.
  induction text as [| a text IH]; [reflexivity |].
  change (lit (String a text)) with (N_of_ascii a :: lit text).
  cbn [printable forallb]. fold (printable (lit text)). rewrite IH.
  destruct a as [[] [] [] [] [] [] [] []]; reflexivity.
Qed.

Lemma printable_hex_digit (d : N) :
  (d < 16)%N -> is_surrogate (Str.hex_digit d) = false.
Proof.
  intros H. unfold is_surrogate, Str.hex_digit.
  apply andb_false_intro1. apply N.leb_gt.
  destruct (d <? 10)%N; lia.
Qed.

Lemma printable_hex2 (n : N) : printable (Str.hex2 n) = true.
Proof.
  unfold Str.hex2. cbn [printable forallb].
  rewrite !printable_hex_digit by (apply N.mod_lt; discriminate).
  reflexivity.
Qed.

Lemma printable_hex4 (n : N) : printable (Str.hex4 n) = true.
Proof.
  unfold Str.hex4. cbn [printable forallb].
  rewrite !printable_hex_digit by (apply N.mod_lt; discriminate).
  reflexivity.
Qed.

Lemma printable_join (sep : str) (pieces : list str) :
  printable sep = true ->
  Forall (fun piece => printable piece = true) pieces ->
  printable (Str.join sep pieces) = true.
Proof.
  intros Hsep H. induction H as [| piece rest Hp Hrest IH]; [reflexivity |].
  cbn [Str.join]. destruct rest as [| next rest]; [exact Hp |].
  rewrite !printable_app, Hp, Hsep, IH. reflexivity.
Qed.

Lemma printable_repr_char (quote c : char) :
  is_surrogate quote = false ->
  printable (App.repr_char quote c) = true.
Proof.
  intros Hq. unfold App.repr_char.
  destruct ((c =? quote)%N || (c =? 92)%N) eqn:E.
  { cbn [printable forallb]. apply orb_prop in E.
    destruct E as [E | E]; apply N.eqb_eq in E; subst c;
      [rewrite Hq |]; reflexivity. }
  destruct (c =? 9)%N; [reflexivity |].
  destruct (c =? 10)%N; [reflexivity |].
  destruct (c =? 13)%N; [reflexivity |].
  destruct ((c <? 32)%N || (c =? 127)%N).
  { rewrite printable_app, printable_hex2. reflexivity. }
  destruct (is_surrogate c) eqn:Hc.
  { rewrite printable_app, printable_hex4. reflexivity. }
  cbn [printable forallb]. rewrite Hc. reflexivity.
Qed.

Lemma printable_repr_str (s : str) : printable (App.repr_str s) = true.
Proof.
  unfold App.repr_str.
  set (quote := if existsb (N.eqb 39) s && negb (existsb (N.eqb 34) s)
                then 34%N else 39%N).
  assert (Hq : is_surrogate quote = false)
    by (subst quote;
        destruct (existsb (N.eqb 39) s && negb (existsb (N.eqb 34) s));
        reflexivity).
  clearbody quote.
  assert (Hbody : printable (flat_map (App.repr_char quote) s) = true).
  { induction s as [| c s IH]; [reflexivity |].
    cbn [flat_map]. rewrite printable_app, printable_repr_char by exact Hq.
    exact IH. }
  change (printable ([quote] ++ flat_map (App.repr_char quote) s ++ [quote])
          = true).
  rewrite !printable_app, Hbody. cbn [printable forallb]. rewrite Hq.
  reflexivity.
Qed.

(** [repr] escapes the surrogates: its result can always be printed. *)
Lemma printable_repr : forall v : json, printable (App.repr v) = true.
Proof.
  fix IH 1. intros [| b | z | s | l | o]; cbn [App.repr].
  - reflexivity.
  - destruct b; reflexivity.
  - apply printable_lit.
  - apply printable_repr_str.
  - rewrite !printable_app, printable_join; [reflexivity | reflexivity |].
    induction l as [| x l IHl]; constructor; [apply IH | exact IHl].
  - rewrite !printable_app, printable_join; [reflexivity | reflexivity |].
    induction o as [| [key x] o IHo]; constructor; [| exact IHo].
    rewrite !printable_app, printable_repr_str, IH. reflexivity.
Qed.

Lemma printable_format (v : json) :
  printable (App.format v) = no_surrogate v.
Proof.
  destruct v; cbn [App.format no_surrogate]; try reflexivity.
  - destruct b; reflexivity.
  - apply printable_lit.
  - apply (printable_repr (JList l)).
  - apply (printable_repr (JObj o)).
Qed.

Lemma printable_T_to_space (iso : str) :
  printable (Str.replace_from [84%N] [32%N] 0 iso) = printable iso.
Proof.
  unfold printable.
  induction iso as [| c iso IH]; [reflexivity |].
  cbn [Str.replace_from Str.startswith].
  destruct (84 =? c)%N eqn:E; cbn [andb length Nat.sub app forallb].
  - apply N.eqb_eq in E. subst c. rewrite IH. reflexivity.
  - rewrite IH. reflexivity.
Qed.

Lemma printable_datetime_str (iso : str) :
  printable (App.datetime_str iso) = printable iso.
Proof. exact (printable_T_to_space iso). Qed.

(** The message of line 128 can be printed unless the clock's text, the
    task or the round holds a surrogate as it is. *)
Lemma printable_received_line (now : str) (task_id round_num : json) :
  printable (App.received_line now task_id round_num)
  = printable now && no_surrogate task_id && no_surrogate round_num.
Proof.
  unfold App.received_line.
  rewrite !printable_app, !printable_format, printable_datetime_str.
  rewrite !printable_lit. cbn [andb]. now rewrite andb_assoc.
Qed.


(* ================================================================== *)
(** * Computations that only perform external calls *)
(* ================================================================== *)

Section Quiet.
Variable World : Type.
Variable api : forall c : call, World -> ret_ty c * World.

Lemma tracker_writes_app (a b : list event) :
  tracker_writes (a ++ b) = tracker_writes a ++ tracker_writes b.
Proof. apply flat_map_app. Qed.

Lemma threads_started_app (a b : list event) :
  threads_started (a ++ b) = threads_started a ++ threads_started b.
Proof. apply flat_map_app. Qed.

Lemma quiet_ret {A} (a : A) : quiet (ret (World := World) a).
Proof. intros s. repeat split. Qed.

Lemma quiet_raise {A} (e : exn) : quiet (raise (World := World) (A := A) e).
Proof. intros s. repeat split. Qed.

Lemma quiet_perform (c : call) : quiet (perform api c).
Proof. intros s. rewrite perform_run. repeat split. Qed.

Lemma quiet_raising {A} (m : state World -> run World (result A)) :
  quiet m -> quiet (raising m).
Proof.
  intros H s. destruct (H s) as (H1 & H2 & H3 & H4).
  unfold raising. destruct (m s) as [[a | e] evs s1]; cbn in *; auto.
Qed.

Lemma quiet_bind {A B} (m : M World A) (f : A -> M World B) :
  quiet m -> (forall a, quiet (f a)) -> quiet (bind m f).
Proof.
  intros Hm Hf s. destruct (Hm s) as (H1 & H2 & H3 & H4).
  unfold bind. destruct (m s) as [[a | e] evs s1]; cbn [events final] in *.
  - destruct (Hf a s1) as (G1 & G2 & G3 & G4).
    destruct (f a s1) as [v evs' s2]; cbn [events final] in *.
    rewrite tracker_writes_app, threads_started_app, H1, H2, G1, G2, G3, G4.
    auto.
  - auto.
Qed.

Lemma quiet_try_except {A} (body : M World A) handler :
  quiet body ->
  (forall e h, handler e = Some h -> quiet h) ->
  quiet (try_except body handler).
Proof.
  intros Hb Hh s. destruct (Hb s) as (H1 & H2 & H3 & H4).
  unfold try_except.
  destruct (body s) as [[a | e] evs s1]; cbn [events final] in *; [auto |].
  destruct (handler e) as [h |] eqn:He; [| auto].
  destruct (Hh e h He s1) as (G1 & G2 & G3 & G4).
  destruct (h s1) as [v evs' s2]; cbn [events final] in *.
  rewrite tracker_writes_app, threads_started_app, H1, H2, G1, G2, G3, G4.
  auto.
Qed.

Lemma quiet_for_each {A} (l : list A) (body : A -> M World unit) :
  (forall x, quiet (body x)) -> quiet (for_each l body).
Proof.
  intros H. induction l as [| x l IH]; cbn [for_each].
  - apply quiet_ret.
  - apply quiet_bind; [apply H | intros _; exact IH].
Qed.

Lemma quiet_if {A} (b : bool) (m1 m2 : M World A) :
  quiet m1 -> quiet m2 -> quiet (if b then m1 else m2).
Proof. destruct b; auto. Qed.

Lemma quiet_print (text : str) : quiet (print (World := World) text).
Proof. unfold print. apply quiet_if; [apply quiet_ret | apply quiet_raise]. Qed.
End Quiet.

Ltac quiet_step :=
  first
    [ apply quiet_ret
    | apply quiet_raise
    | apply quiet_print
    | match goal with
      | |- quiet (perform ?api ?c) => exact (quiet_perform _ api c)
      end
    | apply quiet_raising
    | apply quiet_if
    | apply quiet_for_each; intros
    | apply quiet_bind; [| intros]
    | apply quiet_try_except; [| intros ? ? ?] ].

Ltac quiet_auto := repeat quiet_step.

Section QuietParts.
Variable World : Type.
Variable api : forall c : call, World -> ret_ty c * World.

Lemma quiet_attempts url data max_retries pairs :
  quiet (Evaluator.attempts api url data max_retries pairs).
Proof.
  induction pairs as [| [attempt_no delay] rest IH]; cbn [Evaluator.attempts].
  - apply quiet_ret.
  - apply quiet_bind.
    + unfold Evaluator.attempt, Evaluator.post.
      apply quiet_try_except.
      * apply quiet_bind; [apply quiet_print | intros _].
        apply quiet_bind; [apply quiet_bind; [apply quiet_perform |] |].
        -- intros [code | m | m | m]; quiet_auto.
        -- intros code. quiet_auto.
      * intros e h He. destruct e; inversion He; apply quiet_ret.
    + intros [b |]; [apply quiet_ret |].
      apply quiet_bind; [| intros _; exact IH].
      unfold Evaluator.sleep. quiet_auto.
Qed.

Lemma quiet_submit url data max_retries :
  quiet (Evaluator.submit_to_evaluation api url data max_retries).
Proof. apply quiet_attempts. Qed.

Lemma quiet_generate_app decode self brief checks attachments :
  quiet (CodeGenerator.generate_app api decode self brief checks attachments).
Proof.
  unfold CodeGenerator.generate_app, CodeGenerator._call_llm,
    CodeGenerator._call_backend.
  apply quiet_bind; [| intros; apply quiet_ret].
  quiet_auto.
Qed.

Lemma quiet_enable_pages self repo :
  quiet (GitHubManager._enable_pages api self repo).
Proof.
  unfold GitHubManager._enable_pages, GitHubManager.gh.
  apply quiet_bind; [| intros; apply quiet_ret].
  apply quiet_try_except; [quiet_auto |].
  intros e h He. destruct (is_GithubException e); inversion He.
  apply quiet_ret.
Qed.

Lemma quiet_create_blobs repo items :
  forall elements, quiet (GitHubManager.create_blobs api repo items elements).
Proof.
  induction items as [| [filename content] rest IH]; intros elements;
    cbn [GitHubManager.create_blobs].
  - apply quiet_ret.
  - destruct (Str.startswith (lit "data:") content);
      (apply quiet_bind; [unfold GitHubManager.gh; quiet_auto | intros; apply IH]).
Qed.

Lemma quiet_create_initial_commit self repo files :
  quiet (GitHubManager._create_initial_commit api self repo files).
Proof.
  unfold GitHubManager._create_initial_commit, GitHubManager.gh.
  apply quiet_bind; [apply quiet_create_blobs | intros elements].
  apply quiet_bind; [quiet_auto | intros tree].
  apply quiet_bind; [quiet_auto | intros commit_sha].
  apply quiet_bind; [| intros; apply quiet_ret].
  apply quiet_try_except; [quiet_auto |].
  intros e h He. inversion He. quiet_auto.
Qed.

Lemma quiet_update_or_create_file self repo filename content :
  quiet (GitHubManager._update_or_create_file api self repo filename content).
Proof.
  unfold GitHubManager._update_or_create_file, GitHubManager.gh.
  apply quiet_try_except.
  - destruct (Str.startswith (lit "data:") content);
      (apply quiet_try_except; [quiet_auto |];
       intros e h He; destruct e; inversion He; quiet_auto).
  - intros e h He. inversion He. apply quiet_raise.
Qed.

Lemma quiet_update_repo self repo_name files :
  quiet (GitHubManager.update_repo api self repo_name files).
Proof.
  unfold GitHubManager.update_repo, GitHubManager.gh.
  apply quiet_try_except.
  - apply quiet_bind; [quiet_auto | intros repo].
    apply quiet_bind.
    { apply quiet_for_each. intros [filename content].
      apply quiet_update_or_create_file. }
    intros _. apply quiet_bind; [quiet_auto | intros latest].
    apply quiet_bind; [| intros; apply quiet_ret].
    apply quiet_try_except.
    + apply quiet_bind; [apply quiet_enable_pages | intros; apply quiet_ret].
    + intros e h He. inversion He. apply quiet_ret.
  - intros e h He. destruct (is_GithubException e); inversion He.
    apply quiet_raise.
Qed.

Lemma quiet_create_repo self repo_name files description :
  quiet (GitHubManager.create_repo api self repo_name files description).
Proof.
  unfold GitHubManager.create_repo, GitHubManager.create_repo_try,
    GitHubManager.gh.
  apply quiet_try_except.
  - apply quiet_bind; [quiet_auto | intros repo].
    apply quiet_bind; [quiet_auto | intros _].
    apply quiet_bind; [apply quiet_create_initial_commit | intros commit_sha].
    apply quiet_bind; [apply quiet_enable_pages | intros pages_url].
    quiet_auto.
  - intros e h He. destruct e; inversion He.
    apply quiet_if; [apply quiet_update_repo | apply quiet_raise].
Qed.

Lemma quiet_publish self task_id round_num files :
  quiet (App.publish api self task_id round_num files).
Proof.
  unfold App.publish. apply quiet_if.
  - apply quiet_create_repo.
  - apply quiet_update_repo.
Qed.
End QuietParts.

(* ================================================================== *)
(** * Dictionaries *)
(* ================================================================== *)

Lemma eqb_refl (a : str) : (a =s? a) = true.
Proof. unfold Str.eqb. destruct (list_eq_dec N.eq_dec a a); congruence. Qed.

Lemma eqb_eq (a b : str) : (a =s? b) = true <-> a = b.
Proof.
  unfold Str.eqb. destruct (list_eq_dec N.eq_dec a b); split; congruence.
Qed.

Lemma eqb_neq (a b : str) : (a =s? b) = false <-> a <> b.
Proof.
  unfold Str.eqb. destruct (list_eq_dec N.eq_dec a b); split; congruence.
Qed.

Lemma get_set_same {V} (k : str) (v : V) (d : Dict.t V) :
  Dict.get k (Dict.set k v d) = Some v.
Proof.
  induction d as [| [k' v'] d IH]; cbn [Dict.set Dict.get].
  - now rewrite eqb_refl.
  - destruct (k' =s? k) eqn:E; cbn [Dict.get]; rewrite E; auto.
Qed.

Lemma get_set_other {V} (k k0 : str) (v : V) (d : Dict.t V) :
  k <> k0 -> Dict.get k0 (Dict.set k v d) = Dict.get k0 d.
Proof.
  intros Hne. induction d as [| [k' v'] d IH]; cbn [Dict.set Dict.get].
  - destruct (k =s? k0) eqn:E; [apply eqb_eq in E; contradiction | reflexivity].
  - destruct (k' =s? k) eqn:E; cbn [Dict.get].
    + apply eqb_eq in E. subst k'.
      destruct (k =s? k0) eqn:E; [apply eqb_eq in E; contradiction |].
      reflexivity.
    + now rewrite IH.
Qed.

(* ================================================================== *)
(** * The background pipeline: app.py, process_task_async *)
(* ================================================================== *)

Ltac step H := unfold bind at 1; rewrite H; cbn beta iota.

Section Pipeline.
Variable World : Type.
Variable api : forall c : call, World -> ret_ty c * World.
Variable decode : str -> option str.
Variable cfg : config.
Variable task_data : task_request.

Local Abbreviation task_id := (task task_data).
Local Abbreviation gh_manager :=
  {| GitHubManager.username := GITHUB_USERNAME cfg |}.
Local Abbreviation generator :=
  (CodeGenerator.__init__ (LLM_API_KEY cfg) (LLM_PROVIDER cfg)).
Local Abbreviation wrote step := (Tracker task_id (step_record (lit step))).

(** Writing a record: the event and the state. *)
Lemma set_status_run (record : Dict.t json) (s : state World) :
  App.set_status task_id record s
  = Run (Ok tt) [Tracker task_id record]
      {| world := world s;
         processing_status := Dict.set task_id record (processing_status s);
         tasks_db := tasks_db s |}.
Proof. reflexivity. Qed.

(** Changing the step of the record the pipeline wrote before. *)
Lemma set_step_run (previous step : str) (s : state World) :
  Dict.get task_id (processing_status s) = Some (step_record previous) ->
  App.set_step task_id step s
  = Run (Ok tt) [Tracker task_id (step_record step)]
      {| world := world s;
         processing_status :=
           Dict.set task_id (step_record step) (processing_status s);
         tasks_db := tasks_db s |}.
Proof.
  intros H. unfold App.set_step, bind, App.get_status. rewrite H.
  reflexivity.
Qed.

(** The [try] block of the pipeline, stage by stage. *)
Lemma process_task_try_run (s : state World) :
  let s2 := at_step task_id (lit "generating_code")
              (at_step task_id (lit "initializing") s) in
  let g := CodeGenerator.generate_app api decode generator (brief task_data)
             (checks task_data) (attachments task_data) s2 in
  let r := App.process_task_try api decode cfg task_data s in
  match value g with
  | Raise e =>
      r = Run (Raise e)
            ([wrote "initializing"; wrote "generating_code"] ++ events g)
            (final g)
  | Ok code_files =>
      let p := App.publish api gh_manager task_id (round task_data) code_files
                 (at_step task_id (lit "creating_repo") (final g)) in
      match value p with
      | Raise e =>
          r = Run (Raise e)
                ([wrote "initializing"; wrote "generating_code"] ++ events g
                 ++ wrote "creating_repo" :: events p)
                (final p)
      | Ok (repo_url, commit_sha, pages_url) =>
          let sub := Evaluator.submit_to_evaluation_default api
                       (evaluation_url task_data)
                       (App.submission_data task_data repo_url commit_sha pages_url)
                       (at_step task_id (lit "submitting_evaluation") (final p)) in
          let timestamp := fst (api datetime_utcnow (world (final sub))) in
          match value sub with
          | Raise e =>
              r = Run (Raise e)
                    ([wrote "initializing"; wrote "generating_code"]
                     ++ events g
                     ++ wrote "creating_repo" :: events p
                     ++ wrote "submitting_evaluation" :: events sub)
                    (final sub)
          | Ok success =>
              value r = Ok tt
              /\ events r =
                 [wrote "initializing"; wrote "generating_code"] ++ events g
                 ++ wrote "creating_repo" :: events p
                 ++ wrote "submitting_evaluation" :: events sub
                 ++ [Called datetime_utcnow timestamp;
                     Tracker task_id
                       (done_record success repo_url commit_sha pages_url
                          timestamp)]
          end
      end
  end.
Proof.
  cbn zeta.
  set (s2 := at_step task_id (lit "generating_code")
               (at_step task_id (lit "initializing") s)).
  assert (H1 : App.set_status task_id
                 [(lit "status", JStr (lit "processing"));
                  (lit "step", JStr (lit "initializing"))] s
               = Run (Ok tt) [wrote "initializing"]
                   (at_step task_id (lit "initializing") s))
    by reflexivity.
  assert (H2 : App.set_step task_id (lit "generating_code")
                 (at_step task_id (lit "initializing") s)
               = Run (Ok tt) [wrote "generating_code"] s2).
  { apply (set_step_run (lit "initializing")).
    apply get_set_same. }
  pose proof (quiet_generate_app World api decode generator (brief task_data)
                (checks task_data) (attachments task_data) s2)
    as (_ & _ & Qg & _).
  destruct (CodeGenerator.generate_app api decode generator (brief task_data)
              (checks task_data) (attachments task_data) s2)
    as [[code_files | e] eg sg] eqn:Hg; cbn [value events final] in *.
  2:{ unfold App.process_task_try.
      step H1. step H2. step Hg. reflexivity. }
  assert (H3 : App.set_step task_id (lit "creating_repo") sg
               = Run (Ok tt) [wrote "creating_repo"]
                   (at_step task_id (lit "creating_repo") sg)).
  { apply (set_step_run (lit "generating_code")).
    rewrite Qg. apply get_set_same. }
  pose proof (quiet_publish World api gh_manager task_id (round task_data)
                code_files (at_step task_id (lit "creating_repo") sg))
    as (_ & _ & Qp & _).
  destruct (App.publish api gh_manager task_id (round task_data) code_files
              (at_step task_id (lit "creating_repo") sg))
    as [[[[repo_url commit_sha] pages_url] | e] ep sp] eqn:Hp;
    cbn [value events final] in *.
  2:{ unfold App.process_task_try.
      step H1. step H2. step Hg. step H3. step Hp.
      cbn [app]. rewrite <- ?app_assoc. reflexivity. }
  assert (H4 : App.set_step task_id (lit "submitting_evaluation") sp
               = Run (Ok tt) [wrote "submitting_evaluation"]
                   (at_step task_id (lit "submitting_evaluation") sp)).
  { apply (set_step_run (lit "creating_repo")).
    rewrite Qp. apply get_set_same. }
  destruct (Evaluator.submit_to_evaluation_default api (evaluation_url task_data)
          (App.submission_data task_data repo_url commit_sha pages_url)
          (at_step task_id (lit "submitting_evaluation") sp))
    as [[success | e] es ss] eqn:Hs; cbn [value events final] in *.
  2:{ unfold App.process_task_try.
      step H1. step H2. step Hg. step H3. step Hp. step H4. step Hs.
      cbn [app]. rewrite <- ?app_assoc. reflexivity. }
  eassert (Hr : App.process_task_try api decode cfg task_data s = Run _ _ _).
  { unfold App.process_task_try.
    step H1. step H2. step Hg. step H3. step Hp. step H4. step Hs.
    unfold bind at 1. unfold App.utcnow. rewrite perform_run. cbn beta iota.
    unfold bind at 1. rewrite set_status_run. cbn beta iota.
    unfold bind at 1. unfold App.get_status at 1. cbn [processing_status].
    rewrite get_set_same. cbn [ret]. cbn beta iota.
    unfold App.store_task. reflexivity. }
  rewrite Hr. cbn [value events final].
  split; [reflexivity |].
  cbn [app]. rewrite <- ?app_assoc. reflexivity.
Qed.

(** The whole pipeline: it never raises, and its events are those of the
    stages that ran, followed by what the [except] clause writes when a
    stage raised. *)
Lemma process_task_async_run (s : state World) :
  let s2 := at_step task_id (lit "generating_code")
              (at_step task_id (lit "initializing") s) in
  let g := CodeGenerator.generate_app api decode generator (brief task_data)
             (checks task_data) (attachments task_data) s2 in
  let r := App.process_task_async api decode cfg task_data s in
  value r = Ok tt
  /\ events r =
     [wrote "initializing"; wrote "generating_code"] ++ events g ++
     match value g with
     | Raise e => failure api task_id e (final g)
     | Ok code_files =>
         let p := App.publish api gh_manager task_id (round task_data)
                    code_files
                    (at_step task_id (lit "creating_repo") (final g)) in
         wrote "creating_repo" :: events p ++
         match value p with
         | Raise e => failure api task_id e (final p)
         | Ok (repo_url, commit_sha, pages_url) =>
             let sub := Evaluator.submit_to_evaluation_default api
                          (evaluation_url task_data)
                          (App.submission_data task_data repo_url commit_sha
                             pages_url)
                          (at_step task_id (lit "submitting_evaluation")
                             (final p)) in
             let timestamp := fst (api datetime_utcnow (world (final sub))) in
             wrote "submitting_evaluation" :: events sub ++
             match value sub with
             | Ok success =>
                 [Called datetime_utcnow timestamp;
                  Tracker task_id
                    (done_record success repo_url commit_sha pages_url
                       timestamp)]
             | Raise e => failure api task_id e (final sub)
             end
         end
     end.
Proof.
  pose proof (process_task_try_run s) as Htry. cbn zeta in *.
  unfold App.process_task_async, try_except.
  destruct (value (CodeGenerator.generate_app api decode generator
                     (brief task_data) (checks task_data)
                     (attachments task_data) _)) as [code_files | e].
  2:{ rewrite Htry. unfold bind, App.utcnow. rewrite perform_run.
      cbn [App.set_status value events final]. split; [reflexivity |].
      unfold failure. rewrite <- ?app_assoc. reflexivity. }
  destruct (value (App.publish api gh_manager task_id (round task_data)
                     code_files _))
    as [[[repo_url commit_sha] pages_url] | e].
  2:{ rewrite Htry. unfold bind, App.utcnow. rewrite perform_run.
      cbn [App.set_status value events final]. split; [reflexivity |].
      unfold failure. cbn [app]. rewrite <- ?app_assoc. reflexivity. }
  destruct (value (Evaluator.submit_to_evaluation_default api
                     (evaluation_url task_data) _ _)) as [success | e].
  2:{ rewrite Htry. unfold bind, App.utcnow. rewrite perform_run.
      cbn [App.set_status value events final]. split; [reflexivity |].
      unfold failure. cbn [app]. rewrite <- ?app_assoc. cbn [app].
      rewrite <- ?app_assoc. reflexivity. }
  destruct Htry as (Hv & Hev).
  destruct (App.process_task_try api decode cfg task_data s)
    as [v evs sf]; cbn [value events final] in *. subst v.
  split; [reflexivity | exact Hev].
Qed.
End Pipeline.

(* ================================================================== *)
(** * Properties of all the events of a computation *)
(* ================================================================== *)

Section Emits.
Variable World : Type.
Variable api : forall c : call, World -> ret_ty c * World.
Variable P : event -> Prop.

Lemma emits_ret {A} (a : A) : emits P (ret (World := World) a).
Proof. intros s. constructor. Qed.

Lemma emits_raise {A} (e : exn) : emits P (raise (World := World) (A := A) e).
Proof. intros s. constructor. Qed.

Lemma emits_perform (c : call) :
  (forall r, P (Called c r)) -> emits P (perform api c).
Proof. intros H s. rewrite perform_run. constructor; [apply H | constructor]. Qed.

Lemma emits_raising {A} (m : state World -> run World (result A)) :
  emits P m -> emits P (raising m).
Proof.
  intros H s. specialize (H s). unfold raising.
  destruct (m s) as [[a | e] evs s1]; exact H.
Qed.

Lemma emits_bind {A B} (m : M World A) (f : A -> M World B) :
  emits P m -> (forall a, emits P (f a)) -> emits P (bind m f).
Proof.
  intros Hm Hf s. specialize (Hm s). unfold bind.
  destruct (m s) as [[a | e] evs s1]; cbn [events] in *; [| exact Hm].
  specialize (Hf a s1). destruct (f a s1) as [v evs' s2]; cbn [events] in *.
  apply Forall_app; auto.
Qed.

Lemma emits_try_except {A} (body : M World A) handler :
  emits P body ->
  (forall e h, handler e = Some h -> emits P h) ->
  emits P (try_except body handler).
Proof.
  intros Hb Hh s. specialize (Hb s). unfold try_except.
  destruct (body s) as [[a | e] evs s1]; cbn [events] in *; [exact Hb |].
  destruct (handler e) as [h |] eqn:He; [| exact Hb].
  specialize (Hh e h He s1). destruct (h s1) as [v evs' s2].
  cbn [events] in *. apply Forall_app; auto.
Qed.

Lemma emits_for_each {A} (l : list A) (body : A -> M World unit) :
  (forall x, In x l -> emits P (body x)) -> emits P (for_each l body).
Proof.
  induction l as [| x l IH]; intros H; cbn [for_each].
  - apply emits_ret.
  - apply emits_bind; [apply H; now left | intros _].
    apply IH. intros y Hy. apply H. now right.
Qed.

Lemma emits_if {A} (b : bool) (m1 m2 : M World A) :
  emits P m1 -> emits P m2 -> emits P (if b then m1 else m2).
Proof. destruct b; auto. Qed.

Lemma emits_print (text : str) : emits P (print (World := World) text).
Proof. unfold print. apply emits_if; [apply emits_ret | apply emits_raise]. Qed.
End Emits.

Ltac emits_step :=
  first
    [ apply emits_ret
    | apply emits_raise
    | apply emits_print
    | match goal with
      | |- emits ?P (perform ?api ?c) =>
          refine (emits_perform _ api P c _); intros ?
      end
    | apply emits_raising
    | apply emits_if
    | apply emits_bind; [| intros]
    | apply emits_try_except; [| intros ? ? ?] ].

Lemma paths_entered_app (a b : list event) :
  paths_entered (a ++ b) = paths_entered a ++ paths_entered b.
Proof.
  unfold paths_entered, calls. now rewrite !flat_map_app.
Qed.

Lemma paths_entered_none (evs : list event) :
  Forall enters_no_path evs -> paths_entered evs = [].
Proof.
  induction 1 as [| e evs He _ IH]; [reflexivity |].
  change (e :: evs) with ([e] ++ evs). rewrite paths_entered_app, IH.
  unfold enters_no_path in He. unfold paths_entered, calls.
  cbn [flat_map]. destruct (call_of e) as [c |]; [| reflexivity].
  cbn. now rewrite He.
Qed.

Ltac emits_no_path := repeat (emits_step; try reflexivity).

Section Paths.
Variable World : Type.
Variable api : forall c : call, World -> ret_ty c * World.

Local Abbreviation calm := (emits (World := World) enters_no_path).

Lemma calm_attempts url data max_retries pairs :
  calm (Evaluator.attempts api url data max_retries pairs).
Proof.
  induction pairs as [| [attempt_no delay] rest IH]; cbn [Evaluator.attempts].
  - apply emits_ret.
  - apply emits_bind.
    + unfold Evaluator.attempt, Evaluator.post.
      apply emits_try_except.
      * apply emits_bind; [apply emits_print | intros _].
        apply emits_bind; [apply emits_bind |].
        -- emits_no_path.
        -- intros [code | m | m | m]; emits_no_path.
        -- intros code. emits_no_path.
      * intros e h He. destruct e; inversion He; apply emits_ret.
    + intros [b |]; [apply emits_ret |].
      apply emits_bind; [| intros _; exact IH].
      unfold Evaluator.sleep. emits_no_path.
Qed.

Lemma calm_generate_app decode self brief checks attachments :
  calm (CodeGenerator.generate_app api decode self brief checks attachments).
Proof.
  unfold CodeGenerator.generate_app, CodeGenerator._call_llm,
    CodeGenerator._call_backend.
  apply emits_bind; [| intros; apply emits_ret].
  emits_no_path.
Qed.

Lemma calm_enable_pages self repo :
  calm (GitHubManager._enable_pages api self repo).
Proof.
  unfold GitHubManager._enable_pages, GitHubManager.gh.
  apply emits_bind; [| intros; apply emits_ret].
  apply emits_try_except; [emits_no_path |].
  intros e h He. destruct (is_GithubException e); inversion He.
  apply emits_ret.
Qed.

Lemma calm_create_blobs repo items :
  forall elements, calm (GitHubManager.create_blobs api repo items elements).
Proof.
  induction items as [| [filename content] rest IH]; intros elements;
    cbn [GitHubManager.create_blobs].
  - apply emits_ret.
  - destruct (Str.startswith (lit "data:") content);
      (apply emits_bind;
       [unfold GitHubManager.gh; emits_no_path | intros; apply IH]).
Qed.

Lemma calm_create_initial_commit self repo files :
  calm (GitHubManager._create_initial_commit api self repo files).
Proof.
  unfold GitHubManager._create_initial_commit, GitHubManager.gh.
  apply emits_bind; [apply calm_create_blobs | intros elements].
  apply emits_bind; [emits_no_path | intros tree].
  apply emits_bind; [emits_no_path | intros commit_sha].
  apply emits_bind; [| intros; apply emits_ret].
  apply emits_try_except; [emits_no_path |].
  intros e h He. inversion He. emits_no_path.
Qed.

Lemma calm_update_or_create_file self repo filename content :
  calm (GitHubManager._update_or_create_file api self repo filename content).
Proof.
  unfold GitHubManager._update_or_create_file, GitHubManager.gh.
  apply emits_try_except.
  - destruct (Str.startswith (lit "data:") content);
      (apply emits_try_except; [emits_no_path |];
       intros e h He; destruct e; inversion He; emits_no_path).
  - intros e h He. inversion He. apply emits_raise.
Qed.

(** The update path asks for the repository first and never creates one. *)
Lemma update_repo_paths self repo_name files (s : state World) :
  paths_entered (events (GitHubManager.update_repo api self repo_name files s))
  = [UpdatePath].
Proof.
  unfold GitHubManager.update_repo. unfold try_except at 1.
  unfold bind at 1. unfold raising at 1, GitHubManager.gh at 1.
  rewrite perform_run.
  destruct (fst (api (user_get_repo repo_name) (world s))) as [repo | e];
    cbn beta iota.
  - match goal with
    | |- context [bind ?m ?f ?s1] =>
        assert (Hrest : calm (bind m f)); [| specialize (Hrest s1);
                                             destruct (bind m f s1)
                                               as [[v | e] evs s2]]
    end.
    + apply emits_bind.
      { apply emits_for_each. intros [filename content] _.
        apply calm_update_or_create_file. }
      intros _. unfold GitHubManager.gh.
      apply emits_bind; [emits_no_path | intros latest].
      apply emits_bind; [| intros; apply emits_ret].
      apply emits_try_except.
      * apply emits_bind; [apply calm_enable_pages | intros; apply emits_ret].
      * intros e h He. inversion He. apply emits_ret.
    + cbn [events] in *.
      change (?a :: evs) with ([a] ++ evs).
      rewrite paths_entered_app, (paths_entered_none _ Hrest). reflexivity.
    + cbn [events] in *.
      destruct (is_GithubException e); cbn [raise events final app];
        rewrite ?app_nil_r;
        change (?a :: evs) with ([a] ++ evs);
        rewrite paths_entered_app, (paths_entered_none _ Hrest); reflexivity.
  - destruct (is_GithubException e); reflexivity.
Qed.

(** The [try] block of the create path creates the repository first and
    never asks for an existing one. *)
Lemma create_repo_try_paths self repo_name files description
  (s : state World) :
  paths_entered
    (events (GitHubManager.create_repo_try api self repo_name files
               description s))
  = [CreatePath].
Proof.
  unfold GitHubManager.create_repo_try.
  unfold bind at 1. unfold raising at 1, GitHubManager.gh at 1.
  rewrite perform_run.
  destruct (fst (api (user_create_repo repo_name description false false)
                   (world s))) as [repo | e]; cbn beta iota; [| reflexivity].
  match goal with
  | |- context [bind ?m ?f ?s1] =>
      assert (Hrest : calm (bind m f)); [| specialize (Hrest s1);
                                           destruct (bind m f s1)
                                             as [v evs s2]]
  end.
  - apply emits_bind; [emits_no_path | intros _].
    apply emits_bind; [apply calm_create_initial_commit | intros commit_sha].
    apply emits_bind; [apply calm_enable_pages | intros pages_url].
    emits_no_path.
  - cbn [events] in *.
    change (?a :: evs) with ([a] ++ evs).
    rewrite paths_entered_app, (paths_entered_none _ Hrest). reflexivity.
Qed.

(** [create_repo] is its [try] block, followed by [update_repo] exactly
    when the block raised a [GithubException] of status 422. *)
Lemma create_repo_run self repo_name files description (s : state World) :
  let c := GitHubManager.create_repo_try api self repo_name files
             description s in
  let r := GitHubManager.create_repo api self repo_name files description s in
  match value c with
  | Raise (GithubException status _) =>
      if status =? 422
      then let u := GitHubManager.update_repo api self repo_name files
                      (final c) in
           r = Run (value u) (events c ++ events u) (final u)
      else r = Run (value c) (events c ++ []) (final c)
  | _ => r = c
  end.
Proof.
  cbn zeta. unfold GitHubManager.create_repo, try_except.
  destruct (GitHubManager.create_repo_try api self repo_name files
              description s) as [[v | e] evs s1]; cbn [value events final].
  - reflexivity.
  - destruct e; try reflexivity.
    destruct (status =? 422).
    + destruct (GitHubManager.update_repo api self repo_name files s1);
        reflexivity.
    + reflexivity.
Qed.
End Paths.

Section PipelinePaths.
Variable World : Type.
Variable api : forall c : call, World -> ret_ty c * World.
Variable decode : str -> option str.
Variable cfg : config.
Variable task_data : task_request.

Local Abbreviation task_id := (task task_data).
Local Abbreviation gh_manager :=
  {| GitHubManager.username := GITHUB_USERNAME cfg |}.
Local Abbreviation generator :=
  (CodeGenerator.__init__ (LLM_API_KEY cfg) (LLM_PROVIDER cfg)).
Local Abbreviation wrote step := (Tracker task_id (step_record (lit step))).

Lemma failure_paths e (s : state World) :
  paths_entered (failure api task_id e s) = [].
Proof. reflexivity. Qed.

(** The events of the pipeline around its publication stage. *)
Lemma process_task_async_around_publish (s : state World) code_files :
  let s2 := at_step task_id (lit "generating_code")
              (at_step task_id (lit "initializing") s) in
  let g := CodeGenerator.generate_app api decode generator (brief task_data)
             (checks task_data) (attachments task_data) s2 in
  let p := App.publish api gh_manager task_id (round task_data) code_files
             (at_step task_id (lit "creating_repo") (final g)) in
  let r := App.process_task_async api decode cfg task_data s in
  value g = Ok code_files ->
  exists before after,
    events r = before ++ events p ++ after
    /\ paths_entered before = []
    /\ paths_entered after = []
    /\ tracker_writes before
       = [(task_id, step_record (lit "initializing"));
          (task_id, step_record (lit "generating_code"));
          (task_id, step_record (lit "creating_repo"))].
Proof.
  cbn zeta. intros Hg.
  destruct (process_task_async_run World api decode cfg task_data s)
    as [_ Hev].
  cbn zeta in Hev. rewrite Hg in Hev.
  pose proof (calm_generate_app World api decode generator (brief task_data)
                (checks task_data) (attachments task_data)
                (at_step task_id (lit "generating_code")
                   (at_step task_id (lit "initializing") s))) as Hcalm.
  pose proof (quiet_generate_app World api decode generator (brief task_data)
                (checks task_data) (attachments task_data)
                (at_step task_id (lit "generating_code")
                   (at_step task_id (lit "initializing") s)))
    as (Hquiet & _).
  set (g := CodeGenerator.generate_app api decode generator (brief task_data)
              (checks task_data) (attachments task_data) _) in *.
  set (p := App.publish api gh_manager task_id (round task_data) code_files _)
    in *.
  exists ([wrote "initializing"; wrote "generating_code"] ++ events g
          ++ [wrote "creating_repo"]).
  eexists. split; [| split; [| split]].
  - rewrite Hev. rewrite <- !app_assoc. cbn [app]. reflexivity.
  - rewrite !paths_entered_app, (paths_entered_none _ Hcalm). reflexivity.
  - destruct (value p) as [[[repo_url commit_sha] pages_url] | e].
    + apply paths_entered_none. constructor; [exact I |].
      apply Forall_app. split; [apply calm_attempts |].
      match goal with
      | |- context [value (Evaluator.submit_to_evaluation_default ?a ?b ?c ?d)] =>
          destruct (value (Evaluator.submit_to_evaluation_default a b c d))
      end;
        [constructor; [reflexivity | constructor; [exact I | constructor]]
        | constructor; [reflexivity | constructor; [exact I | constructor]]].
    + apply failure_paths.
  - rewrite !tracker_writes_app, Hquiet. reflexivity.
Qed.
End PipelinePaths.

(** C1.  When the generator has produced the file set [code_files], the
    publication stage of the pipeline is [create_repo] if the round number
    is 1 and [update_repo] if it is anything else, so for every round
    above 1: the events of the pipeline are those of that call, between
    events that enter no publication path.  (When the generator raises,
    the pipeline stops before publication and enters no path.)
    [create_repo] begins by asking the platform to create the repository
    and [update_repo] by asking for the existing one, and [update_repo]
    never asks for a creation.  When
    the [try] block of [create_repo] raises a platform error of status
    422, [create_repo] continues with [update_repo] on the same name and
    files and returns what [update_repo] returns, the triple of repository
    URL, commit identifier and pages URL of an update. *)
Theorem round_selects_publication_path :
  forall (World : Type) (api : forall c : call, World -> ret_ty c * World)
         (decode : str -> option str) (cfg : config) (task_data : task_request)
         (s : state World),
    let task_id := task task_data in
    let gh_manager := {| GitHubManager.username := GITHUB_USERNAME cfg |} in
    let generator :=
      CodeGenerator.__init__ (LLM_API_KEY cfg) (LLM_PROVIDER cfg) in
    let g := CodeGenerator.generate_app api decode generator (brief task_data)
               (checks task_data) (attachments task_data)
               (at_step task_id (lit "generating_code")
                  (at_step task_id (lit "initializing") s)) in
    let r := App.process_task_async api decode cfg task_data s in
    match value g with
    | Raise _ => paths_entered (events r) = []
    | Ok code_files =>
        let s3 := at_step task_id (lit "creating_repo") (final g) in
        let p := if round task_data =? 1
                 then GitHubManager.create_repo api gh_manager task_id
                        code_files (lit "Project: " ++ task_id) s3
                 else GitHubManager.update_repo api gh_manager task_id
                        code_files s3 in
        (exists before after,
            events r = before ++ events p ++ after
            /\ paths_entered before = []
            /\ paths_entered after = [])
        /\ (if round task_data =? 1
            then hd_error (paths_entered (events r)) = Some CreatePath
            else paths_entered (events r) = [UpdatePath])
    end
    /\
    (forall (self : GitHubManager.t) (repo_name : str) (files : Dict.t str)
            (description : str) (s' : state World),
        let c := GitHubManager.create_repo_try api self repo_name files
                   description s' in
        let r' := GitHubManager.create_repo api self repo_name files
                    description s' in
        paths_entered (events c) = [CreatePath]
        /\ paths_entered
             (events (GitHubManager.update_repo api self repo_name files s'))
           = [UpdatePath]
        /\ match value c with
           | Raise (GithubException status _) =>
               if status =? 422
               then let u := GitHubManager.update_repo api self repo_name
                               files (final c) in
                    r' = Run (value u) (events c ++ events u) (final u)
               else r' = Run (value c) (events c ++ []) (final c)
           | _ => r' = c
           end).
Proof.
  intros World api decode cfg task_data s. cbn zeta. split.
  - destruct (value (CodeGenerator.generate_app api decode _ _ _ _ _))
      as [code_files | e] eqn:Hg.
    2:{ destruct (process_task_async_run World api decode cfg task_data s)
          as [_ Hev].
        cbn zeta in Hev. rewrite Hg in Hev. rewrite Hev.
        rewrite !paths_entered_app.
        rewrite (paths_entered_none (events _)); [reflexivity |].
        apply calm_generate_app. }
    destruct (process_task_async_around_publish World api decode cfg task_data
                s code_files Hg) as (before & after & Hev & Hb & Ha & _).
    unfold App.publish in Hev. cbn zeta in Hev.
    destruct (round task_data =? 1).
    + split; [exists before, after; auto |].
      rewrite Hev, !paths_entered_app, Hb, Ha, app_nil_r. cbn [app].
      match goal with
      | |- context [GitHubManager.create_repo ?a ?b ?c ?d ?e ?f] =>
          pose proof (create_repo_run World a b c d e f) as Hrun;
          pose proof (create_repo_try_paths World a b c d e f) as Htry;
          cbn zeta in Hrun;
          destruct (value (GitHubManager.create_repo_try a b c d e f))
            as [v | [status m | m | m | m | m | m | m | m]]
      end; try (rewrite Hrun, Htry; reflexivity).
      destruct (status =? 422); rewrite Hrun; cbn [events];
        rewrite paths_entered_app, Htry; reflexivity.
    + split; [exists before, after; auto |].
      rewrite Hev, !paths_entered_app, Hb, Ha, app_nil_r. cbn [app].
      apply update_repo_paths.
  - intros self repo_name files description s'.
    split; [apply create_repo_try_paths |].
    split; [apply update_repo_paths |].
    apply create_repo_run.
Qed.



(* ================================================================== *)
(** * The create path: github_manager.py, _create_initial_commit *)
(* ================================================================== *)

Section InitialCommit.
Variable World : Type.
Variable api : forall c : call, World -> ret_ty c * World.
Variable self : GitHubManager.t.
Variable repo : Repository.

Lemma raising_perform_blob content (s : state World) :
  raising (GitHubManager.gh api (create_git_blob repo content (lit "utf-8"))) s
  = Run (fst (api (create_git_blob repo content (lit "utf-8")) (world s)))
      [Called (create_git_blob repo content (lit "utf-8"))
         (fst (api (create_git_blob repo content (lit "utf-8")) (world s)))]
      (final (perform api (create_git_blob repo content (lit "utf-8")) s)).
Proof.
  unfold raising, GitHubManager.gh. rewrite perform_run.
  cbn [final].
  destruct (fst (api (create_git_blob repo content (lit "utf-8")) (world s)));
    reflexivity.
Qed.

Lemma create_blobs_run (items : list (str * str)) :
  forall (elements : list tree_element) (s : state World),
    let r := GitHubManager.create_blobs api repo items elements s in
    let published := map published_as items in
    (exists shas,
        length shas = length items
        /\ value r = Ok (elements ++ tree_of published shas)
        /\ events r = blob_events repo published shas)
    \/ (exists k item shas e,
           nth_error published k = Some item
           /\ length shas = k
           /\ value r = Raise e
           /\ events r
              = blob_events repo published shas
                ++ [Called (create_git_blob repo (snd item) (lit "utf-8"))
                      (Raise e)]).
Proof.
  induction items as [| [filename content] rest IH]; intros elements s;
    cbn zeta.
  - left. exists []. cbn. rewrite app_nil_r. auto.
  - cbn [map].
    destruct (GitHubManager.create_blobs api repo ((filename, content) :: rest)
                elements s) as [v evs sf] eqn:Hr.
    cbn [value events]. cbn [GitHubManager.create_blobs] in Hr.
    set (item := published_as (filename, content)).
    assert (Hitem : (if Str.startswith (lit "data:") content
                     then (GitHubManager.reference_path filename,
                           GitHubManager.reference_text filename content)
                     else (filename, content)) = item) by reflexivity.
    rewrite Hitem in Hr. destruct item as [filename' content'].
    unfold bind at 1 in Hr. rewrite raising_perform_blob in Hr.
    destruct (fst (api (create_git_blob repo content' (lit "utf-8")) (world s)))
      as [blob_sha | e].
    + match type of Hr with
      | context [GitHubManager.create_blobs api repo rest ?els ?s1] =>
          specialize (IH els s1); cbn zeta in IH;
          destruct (GitHubManager.create_blobs api repo rest els s1)
            as [v' evs' s2]
      end.
      cbn [value events final] in *. inversion Hr; subst v evs sf; clear Hr.
      destruct IH as [(shas & Hlen & Hv & Hev)
                     | (k & item & shas & e & Hnth & Hlen & Hv & Hev)].
      * left. exists (blob_sha :: shas). cbn [length]. split; [lia |].
        split.
        -- rewrite Hv. rewrite <- app_assoc. reflexivity.
        -- rewrite Hev. reflexivity.
      * right. exists (S k), item, (blob_sha :: shas), e.
        cbn [nth_error length]. split; [exact Hnth |]. split; [lia |].
        split; [exact Hv |]. rewrite Hev. reflexivity.
    + inversion Hr; subst v evs sf; clear Hr.
      right. exists 0%nat, (filename', content'), [], e.
      cbn. auto.
Qed.

Lemma create_initial_commit_trace (files : Dict.t str) (s : state World) :
  let r := GitHubManager._create_initial_commit api self repo files s in
  commit_trace repo (map published_as files) (value r) (events r).
Proof.
  cbn zeta.
  destruct (GitHubManager._create_initial_commit api self repo files s)
    as [v evs sf] eqn:Hr.
  cbn [value events]. unfold GitHubManager._create_initial_commit in Hr.
  unfold bind at 1 in Hr.
  pose proof (create_blobs_run (Dict.items files) [] s) as Hblobs.
  cbn zeta in Hblobs. unfold Dict.items in *.
  destruct (GitHubManager.create_blobs api repo files [] s)
    as [vb eb sb]; cbn [value events] in Hblobs.
  destruct Hblobs as [(shas & Hlen & Hv & Hev)
                     | (k & item & shas & e & Hnth & Hlen & Hv & Hev)];
    subst vb eb.
  2:{ inversion Hr; subst. eapply blob_failed; eauto. }
  cbn [app] in Hr. rewrite <- (length_map published_as) in Hlen.
  set (items := map published_as files) in *.
  (* the tree *)
  unfold bind at 1 in Hr. unfold raising at 1, GitHubManager.gh at 1 in Hr.
  rewrite perform_run in Hr. cbn [value events final] in Hr.
  destruct (fst (api (create_git_tree repo (tree_of items shas)) (world sb)))
    as [tree | e].
  2:{ inversion Hr; subst. now apply tree_failed. }
  (* the commit *)
  unfold bind at 1 in Hr. unfold raising at 1, GitHubManager.gh at 1 in Hr.
  rewrite perform_run in Hr. cbn [value events final world] in Hr.
  match type of Hr with
  | context [fst (api (create_git_commit ?a ?b ?c ?d) ?w)] =>
      destruct (fst (api (create_git_commit a b c d) w)) as [commit_sha | e]
  end.
  2:{ inversion Hr; subst. now apply commit_failed. }
  (* the reference *)
  unfold bind at 1 in Hr. unfold try_except at 1 in Hr.
  unfold bind at 1 in Hr. unfold raising at 1, GitHubManager.gh at 1 in Hr.
  rewrite perform_run in Hr. cbn [value events final world] in Hr.
  match type of Hr with
  | context [fst (api (get_git_ref ?a ?b) ?w)] =>
      destruct (fst (api (get_git_ref a b) w)) as [ref | e]
  end.
  - unfold raising at 1, GitHubManager.gh at 1 in Hr.
    rewrite perform_run in Hr. cbn [value events final world] in Hr.
    match type of Hr with
    | context [fst (api (ref_edit ?a ?b) ?w)] =>
        destruct (fst (api (ref_edit a b) w)) as [[] | e]
    end.
    + cbn [ret] in Hr. inversion Hr; subst.
      apply (@committed repo items shas tree commit_sha (Ok tt));
        [assumption | apply ref_edited].
    + unfold raising at 1, GitHubManager.gh at 1 in Hr.
      rewrite perform_run in Hr. cbn [value events final world] in Hr.
      match type of Hr with
      | context [fst (api (create_git_ref ?a ?b ?c) ?w)] =>
          destruct (fst (api (create_git_ref a b c) w)) as [[] | e'] eqn:Hc
      end; cbn [ret] in Hr; inversion Hr; subst.
      * apply (@committed repo items shas tree commit_sha (Ok tt));
          [assumption | apply ref_created_after_edit].
      * apply (@committed repo items shas tree commit_sha (Raise e'));
          [assumption | apply ref_created_after_edit].
  - unfold raising at 1, GitHubManager.gh at 1 in Hr.
    rewrite perform_run in Hr. cbn [value events final world] in Hr.
    match type of Hr with
    | context [fst (api (create_git_ref ?a ?b ?c) ?w)] =>
        destruct (fst (api (create_git_ref a b c) w)) as [[] | e'] eqn:Hc
    end; cbn [ret] in Hr; inversion Hr; subst.
    + apply (@committed repo items shas tree commit_sha (Ok tt));
        [assumption | apply ref_created].
    + apply (@committed repo items shas tree commit_sha (Raise e'));
        [assumption | apply ref_created].
Qed.
End InitialCommit.


Lemma blob_events_quiet repo items shas :
  Forall (fun e => moves_ref e = false) (blob_events repo items shas).
Proof.
  unfold blob_events. apply Forall_forall. intros e He.
  apply in_map_iff in He. destruct He as [[item sha] [<- _]]. reflexivity.
Qed.

(** In an execution of the initial commit every call that creates an
    object comes before every call that moves the reference. *)
Lemma commit_trace_order repo items v evs :
  commit_trace repo items v evs ->
  exists content refs,
    evs = content ++ refs
    /\ Forall (fun e => moves_ref e = false) content
    /\ Forall (fun e => creates_object e = false) refs.
Proof.
  intros H. destruct H as [k item shas e Hn Hl | shas e Hl | shas tree e Hl
                          | shas tree commit_sha r refs Hl Href].
  - eexists _, []. rewrite app_nil_r. split; [reflexivity |].
    split; [| constructor].
    apply Forall_app. split; [apply blob_events_quiet | repeat constructor].
  - eexists _, []. rewrite app_nil_r. split; [reflexivity |].
    split; [| constructor].
    apply Forall_app. split; [apply blob_events_quiet | repeat constructor].
  - eexists _, []. rewrite app_nil_r. split; [reflexivity |].
    split; [| constructor].
    apply Forall_app. split; [apply blob_events_quiet | repeat constructor].
  - exists (blob_events repo items shas
            ++ [Called (create_git_tree repo (tree_of items shas)) (Ok tree);
                Called (create_git_commit repo initial_message tree [])
                  (Ok commit_sha)]), refs.
    split; [now rewrite <- app_assoc |]. split.
    + apply Forall_app. split; [apply blob_events_quiet | repeat constructor].
    + destruct Href; repeat constructor.
Qed.

(** C5.  Every execution of the initial commit follows [commit_trace]: it
    creates one blob per file of the file set, in order, then one tree
    made of all these blobs, then one commit of that tree with no parent,
    and only then touches the reference [heads/main], editing it when it
    exists and creating it otherwise (or when the edit raised); the first
    call that raises ends the execution, so a failure before the last
    step leaves the reference untouched.  In particular the events split
    into a part without any reference move followed by a part without any
    object creation: the reference move is the last step, and until it
    happens a reader of the branch sees nothing of the new content. *)
Theorem initial_commit_moves_reference_last :
  forall (World : Type) (api : forall c : call, World -> ret_ty c * World)
         (self : GitHubManager.t) (repo : Repository) (files : Dict.t str)
         (s : state World),
    let r := GitHubManager._create_initial_commit api self repo files s in
    commit_trace repo (map published_as files) (value r) (events r)
    /\ exists content refs,
         events r = content ++ refs
         /\ Forall (fun e => moves_ref e = false) content
         /\ Forall (fun e => creates_object e = false) refs.
Proof.
  intros World api self repo files s. cbn zeta.
  pose proof (create_initial_commit_trace World api self repo files s) as H.
  cbn zeta in H. split; [exact H |].
  eapply commit_trace_order. exact H.
Qed.

(* ================================================================== *)
(** * What both publication paths send: data URIs become references *)
(* ================================================================== *)

Lemma tree_of_paths items shas :
  length shas = length items ->
  map path (tree_of items shas) = map fst items.
Proof.
  revert shas. induction items as [| item items IH]; intros [| sha shas] H;
    try discriminate; [reflexivity |].
  cbn in *. f_equal. apply IH. lia.
Qed.

Lemma blob_events_prepared repo files items shas :
  incl items (map published_as files) ->
  Forall (prepared files) (blob_events repo items shas).
Proof.
  intros Hincl. unfold blob_events. apply Forall_forall. intros e He.
  apply in_map_iff in He. destruct He as [[item sha] [<- Hin]].
  apply in_combine_l in Hin. apply Hincl in Hin.
  apply in_map_iff in Hin. destruct Hin as [file [<- Hfile]].
  cbn. eauto.
Qed.

Section Prepared.
Variable World : Type.
Variable api : forall c : call, World -> ret_ty c * World.
Variable self : GitHubManager.t.
Variable files : Dict.t str.

Local Abbreviation safe := (emits (World := World) (prepared files)).

Lemma prepared_initial_commit repo :
  safe (GitHubManager._create_initial_commit api self repo files).
Proof.
  intros s.
  pose proof (create_initial_commit_trace World api self repo files s) as H.
  cbn zeta in H.
  assert (Hfst : map fst (map published_as files)
                 = map (fun file => fst (published_as file)) files)
    by apply map_map.
  destruct H as [k item shas e Hn Hl | shas e Hl | shas tree e Hl
                | shas tree commit_sha r refs Hl Href].
  - apply Forall_app. split.
    + apply blob_events_prepared. apply incl_refl.
    + constructor; [| constructor]. apply nth_error_In in Hn.
      apply in_map_iff in Hn. destruct Hn as [file [<- Hfile]]. cbn. eauto.
  - apply Forall_app. split.
    + apply blob_events_prepared. apply incl_refl.
    + constructor; [| constructor]. cbn.
      rewrite tree_of_paths by assumption. exact Hfst.
  - apply Forall_app. split.
    + apply blob_events_prepared. apply incl_refl.
    + constructor; [| repeat constructor]. cbn.
      rewrite tree_of_paths by assumption. exact Hfst.
  - apply Forall_app. split.
    + apply blob_events_prepared. apply incl_refl.
    + constructor; [| constructor; [exact I |]].
      * cbn. rewrite tree_of_paths by assumption. exact Hfst.
      * destruct Href; repeat constructor.
Qed.

Lemma prepared_enable_pages repo :
  safe (GitHubManager._enable_pages api self repo).
Proof.
  unfold GitHubManager._enable_pages, GitHubManager.gh.
  apply emits_bind; [| intros; apply emits_ret].
  apply emits_try_except; [repeat (emits_step; try exact I) |].
  intros e h He. destruct (is_GithubException e); inversion He.
  apply emits_ret.
Qed.

Lemma prepared_update_or_create_file repo filename content :
  In (filename, content) files ->
  safe (GitHubManager._update_or_create_file api self repo filename content).
Proof.
  intros Hin. unfold GitHubManager._update_or_create_file, GitHubManager.gh.
  assert (Hitem : (if Str.startswith (lit "data:") content
                   then (GitHubManager.reference_path filename,
                         GitHubManager.reference_text filename content)
                   else (filename, content))
                  = published_as (filename, content)) by reflexivity.
  rewrite Hitem. destruct (published_as (filename, content))
    as [filename' content'] eqn:Hp.
  apply emits_try_except.
  - apply emits_try_except.
    + apply emits_bind.
      * apply emits_raising.
        refine (emits_perform _ api _ _ _). intros r. cbn.
        exists (filename, content). now rewrite Hp.
      * intros file_sha. apply emits_raising.
        refine (emits_perform _ api _ _ _). intros r. cbn.
        exists (filename, content). now rewrite Hp.
    + intros e h He. destruct e; inversion He.
      apply emits_if; [| apply emits_raise].
      apply emits_raising.
      refine (emits_perform _ api _ _ _). intros r. cbn.
      exists (filename, content). now rewrite Hp.
  - intros e h He. inversion He. apply emits_raise.
Qed.

Lemma prepared_update_repo repo_name :
  safe (GitHubManager.update_repo api self repo_name files).
Proof.
  unfold GitHubManager.update_repo, GitHubManager.gh.
  apply emits_try_except.
  - apply emits_bind; [repeat (emits_step; try exact I) | intros repo].
    apply emits_bind.
    { apply emits_for_each. intros [filename content] Hin.
      now apply prepared_update_or_create_file. }
    intros _.
    apply emits_bind; [repeat (emits_step; try exact I) | intros latest].
    apply emits_bind; [| intros; apply emits_ret].
    apply emits_try_except.
    + apply emits_bind; [apply prepared_enable_pages | intros; apply emits_ret].
    + intros e h He. inversion He. apply emits_ret.
  - intros e h He. destruct (is_GithubException e); inversion He.
    apply emits_raise.
Qed.

Lemma prepared_create_repo repo_name description :
  safe (GitHubManager.create_repo api self repo_name files description).
Proof.
  unfold GitHubManager.create_repo, GitHubManager.create_repo_try,
    GitHubManager.gh.
  apply emits_try_except.
  - apply emits_bind; [repeat (emits_step; try exact I) | intros repo].
    apply emits_bind; [repeat (emits_step; try exact I) | intros _].
    apply emits_bind; [apply prepared_initial_commit | intros commit_sha].
    apply emits_bind; [apply prepared_enable_pages | intros pages_url].
    repeat (emits_step; try exact I).
  - intros e h He. destruct e; inversion He.
    apply emits_if; [apply prepared_update_repo | apply emits_raise].
Qed.
End Prepared.

Lemma published_as_spec (filename content : str) :
  if Str.startswith (lit "data:") content
  then published_as (filename, content)
       = (lit "attachments/" ++ filename ++ lit ".txt",
          lit "# " ++ filename ++ [NL; NL]
            ++ lit "This file was provided as an attachment." ++ [NL]
            ++ lit "Data URI: " ++ firstn 100 content ++ lit "...")
       /\ (length (firstn 100 content) <= 100)%nat
       /\ snd (published_as (filename, content)) <> content
  else published_as (filename, content) = (filename, content).
Proof.
  cbn [published_as].
  destruct (Str.startswith (lit "data:") content) eqn:Hd; [| reflexivity].
  split; [reflexivity |]. split; [apply firstn_le_length |].
  cbn [snd]. intros Heq. rewrite <- Heq in Hd. discriminate Hd.
Qed.

Lemma published_never_data (file : str * str) :
  Str.startswith (lit "data:") (snd (published_as file)) = false.
Proof.
  destruct file as [filename content]. cbn [published_as].
  destruct (Str.startswith (lit "data:") content) eqn:Hd.
  - reflexivity.
  - exact Hd.
Qed.

Lemma prepared_never_data files e :
  prepared files e ->
  match content_sent e with
  | Some content => Str.startswith (lit "data:") content = false
  | None => True
  end.
Proof.
  unfold prepared, content_sent. destruct (call_of e) as [c |]; [| auto].
  destruct c as [| | | | | | repo c0 enc | | | | | | | repo f m c0 fs br
                | repo f m c0 br | |]; auto.
  - intros (x & _ & ->). apply published_never_data.
  - intros (x & _ & H). replace c0 with (snd (published_as x))
      by (now rewrite <- H). apply published_never_data.
  - intros (x & _ & H). replace c0 with (snd (published_as x))
      by (now rewrite <- H). apply published_never_data.
Qed.

Section Stored.
Variable World : Type.
Variable api : forall c : call, World -> ret_ty c * World.
Variable self : GitHubManager.t.

Lemma bind_ok_inv {A B} (m : M World A) (f : A -> M World B) s b :
  value (bind m f s) = Ok b ->
  exists a,
    value (m s) = Ok a
    /\ value (f a (final (m s))) = Ok b
    /\ events (bind m f s) = events (m s) ++ events (f a (final (m s))).
Proof.
  unfold bind. destruct (m s) as [[a | e] evs s1]; cbn [value events final].
  - destruct (f a s1) as [v evs' s2] eqn:Hf. cbn [value events].
    intros ->. exists a. rewrite Hf. auto.
  - discriminate.
Qed.

Lemma for_each_ok {A} (l : list A) (body : A -> M World unit) :
  forall s,
    value (for_each l body s) = Ok tt ->
    forall x, In x l ->
      exists s',
        value (body x s') = Ok tt
        /\ incl (events (body x s')) (events (for_each l body s)).
Proof.
  induction l as [| y l IH]; intros s Hv x Hin; [destruct Hin |].
  cbn [for_each] in *.
  destruct (bind_ok_inv _ _ _ _ Hv) as ([] & Hy & Hrest & Hev).
  rewrite Hev. destruct Hin as [-> | Hin].
  - exists s. split; [exact Hy |]. apply incl_appl, incl_refl.
  - destruct (IH _ Hrest x Hin) as (s' & Hx & Hincl).
    exists s'. split; [exact Hx |]. now apply incl_appr.
Qed.

Lemma update_or_create_stores repo filename content (s : state World) :
  let r := GitHubManager._update_or_create_file api self repo filename
             content s in
  match value r with
  | Ok _ => Exists (stores (published_as (filename, content))) (events r)
  | Raise _ => True
  end.
Proof.
  cbn zeta. unfold GitHubManager._update_or_create_file.
  assert (Hitem : (if Str.startswith (lit "data:") content
                   then (GitHubManager.reference_path filename,
                         GitHubManager.reference_text filename content)
                   else (filename, content))
                  = published_as (filename, content)) by reflexivity.
  rewrite Hitem. destruct (published_as (filename, content))
    as [filename' content'].
  unfold try_except, bind, raising, GitHubManager.gh.
  rewrite perform_run. cbn [value events final world].
  destruct (fst (api (get_contents repo filename') (world s)))
    as [file_sha | e].
  - rewrite perform_run. cbn [value events final world].
    match goal with
    | |- context [fst (api (update_file ?a ?b ?c ?d ?e ?f) ?w)] =>
        destruct (fst (api (update_file a b c d e f) w)) as [[] | e']
    end; cbn [value events final world app].
    + apply Exists_cons_tl, Exists_cons_hd. cbn. auto.
    + destruct e'; cbn [raise value events]; auto.
      destruct (status =? 404); cbn [raise value events]; auto.
      rewrite perform_run. cbn [value events final world].
      match goal with
      | |- context [fst (api (create_file ?a ?b ?c ?d ?e) ?w)] =>
          destruct (fst (api (create_file a b c d e) w)) as [[] | e'']
      end; cbn [value events final world app raise]; auto.
      do 2 apply Exists_cons_tl. apply Exists_cons_hd. cbn. auto.
  - destruct e; cbn [raise value events]; auto.
    destruct (status =? 404); cbn [raise value events]; auto.
    rewrite perform_run. cbn [value events final world].
    match goal with
    | |- context [fst (api (create_file ?a ?b ?c ?d ?e) ?w)] =>
        destruct (fst (api (create_file a b c d e) w)) as [[] | e'']
    end; cbn [value events final world app raise]; auto.
    apply Exists_cons_tl, Exists_cons_hd. cbn. auto.
Qed.
End Stored.

Lemma Exists_incl {A} (P : A -> Prop) (l l' : list A) :
  Exists P l -> incl l l' -> Exists P l'.
Proof.
  intros H Hincl. apply Exists_exists in H. destruct H as (x & Hin & Hx).
  apply Exists_exists. exists x. auto.
Qed.

Lemma combine_covers {A B} (l : list A) (l' : list B) :
  length l' = length l ->
  forall x, In x l -> exists y, In (x, y) (combine l l').
Proof.
  revert l'. induction l as [| a l IH]; intros [| b l'] Hlen x Hin;
    try discriminate; [destruct Hin |].
  destruct Hin as [-> | Hin].
  - exists b. now left.
  - destruct (IH l' ltac:(cbn in Hlen; lia) x Hin) as [y Hy].
    exists y. now right.
Qed.

Lemma commit_trace_stores repo items commit_sha evs :
  commit_trace repo items (Ok commit_sha) evs ->
  Forall (fun item => Exists (stores item) evs) items.
Proof.
  intros H. remember (Ok commit_sha) as v eqn:Hv.
  destruct H as [k item shas e Hn Hl | shas e Hl | shas tree e Hl
                | shas tree commit_sha' r refs Hl Href]; try discriminate.
  apply Forall_forall. intros item Hin.
  destruct (combine_covers items shas Hl item Hin) as [blob_sha Hsha].
  apply Exists_app. left. apply Exists_exists.
  exists (Called (create_git_blob repo (snd item) (lit "utf-8")) (Ok blob_sha)).
  split.
  - unfold blob_events. apply in_map_iff. exists (item, blob_sha). auto.
  - cbn. eauto.
Qed.

Section StoredAll.
Variable World : Type.
Variable api : forall c : call, World -> ret_ty c * World.
Variable self : GitHubManager.t.
Variable files : Dict.t str.

Local Abbreviation all_stored evs :=
  (Forall (fun file => Exists (stores (published_as file)) evs) files).

Lemma update_repo_stores repo_name (s : state World) :
  let r := GitHubManager.update_repo api self repo_name files s in
  match value r with
  | Ok _ => all_stored (events r)
  | Raise _ => True
  end.
Proof.
  cbn zeta.
  destruct (GitHubManager.update_repo api self repo_name files s)
    as [[v | e] evs sf] eqn:Hr; [| exact I].
  cbn [value events].
  unfold GitHubManager.update_repo in Hr. unfold try_except at 1 in Hr.
  match type of Hr with
  | context [bind ?m ?f s] =>
      destruct (bind m f s) as [[v' | e] evs' s1] eqn:Hb
  end.
  2:{ destruct (is_GithubException e); cbn in Hr; discriminate Hr. }
  inversion Hr; subst v' evs' s1; clear Hr.
  assert (Hv : value (Run (Ok v) evs sf) = Ok v) by reflexivity.
  rewrite <- Hb in Hv.
  destruct (bind_ok_inv _ _ _ _ _ Hv) as (repo & _ & Hrest & Hev).
  destruct (bind_ok_inv _ _ _ _ _ Hrest) as ([] & Hloop & _ & Hev').
  rewrite Hb in Hev. cbn [events] in Hev. rewrite Hev, Hev'.
  apply Forall_forall. intros [filename content] Hin.
  destruct (for_each_ok World _ _ _ Hloop (filename, content) Hin)
    as (s' & Hok & Hincl).
  pose proof (update_or_create_stores World api self repo filename content s')
    as Hst.
  cbn zeta in Hst. cbn beta iota in Hok. rewrite Hok in Hst.
  apply Exists_app. right. apply Exists_app. left.
  eapply Exists_incl; eassumption.
Qed.

Lemma create_repo_stores repo_name description (s : state World) :
  let r := GitHubManager.create_repo api self repo_name files description s in
  match value r with
  | Ok _ => all_stored (events r)
  | Raise _ => True
  end.
Proof.
  pose proof (create_repo_run World api self repo_name files description s)
    as Hrun.
  cbn zeta in *.
  destruct (GitHubManager.create_repo_try api self repo_name files
              description s) as [[v | e] evs s1] eqn:Htry;
    cbn [value events final] in Hrun.
  - rewrite Hrun. cbn [value events].
    assert (Hv : value (Run (Ok v) evs s1) = Ok v) by reflexivity.
    rewrite <- Htry in Hv. unfold GitHubManager.create_repo_try in Hv.
    destruct (bind_ok_inv _ _ _ _ _ Hv) as (repo & _ & H1 & Hev1).
    destruct (bind_ok_inv _ _ _ _ _ H1) as (u & _ & H2 & Hev2).
    destruct (bind_ok_inv _ _ _ _ _ H2) as (commit_sha & Hc & _ & Hev3).
    fold (GitHubManager.create_repo_try api self repo_name files description)
      in Hev1.
    rewrite Htry in Hev1. cbn [events] in Hev1. rewrite Hev1, Hev2, Hev3.
    match type of Hc with
    | value (GitHubManager._create_initial_commit _ _ _ _ ?st) = _ =>
        pose proof (create_initial_commit_trace World api self repo files st)
          as Htrace
    end.
    cbn zeta in Htrace. rewrite Hc in Htrace.
    apply commit_trace_stores in Htrace.
    rewrite Forall_forall in Htrace. apply Forall_forall. intros file Hin.
    apply Exists_app. right. apply Exists_app. right. apply Exists_app. left.
    apply Htrace. now apply in_map.
  - destruct e; try (rewrite Hrun; exact I).
    destruct (status =? 422); rewrite Hrun; cbn [value events]; [| exact I].
    pose proof (update_repo_stores repo_name s1) as Hu. cbn zeta in Hu.
    destruct (value (GitHubManager.update_repo api self repo_name files s1));
      [| exact I].
    eapply Forall_impl; [| exact Hu]. cbn beta. intros file Hex.
    apply Exists_app. now right.
Qed.
End StoredAll.

(** C6.  On the create path and on the update path alike, everything the
    platform is sent comes from a file of the file set taken through
    [published_as]: the content of every blob, the paths of every tree,
    the path and content of every file written.  For a file whose content
    starts with [data:], [published_as] gives the path
    [attachments/<name>.txt] and a text made of the file name and the
    first 100 characters of the data URI, which differs from the data URI
    itself; other files are published unchanged.  So no content ever sent
    starts with [data:], and when either path returns normally every file
    of the set has been stored as [published_as] says. *)
Theorem data_uri_files_published_as_references :
  forall (World : Type) (api : forall c : call, World -> ret_ty c * World)
         (self : GitHubManager.t) (repo_name : str) (files : Dict.t str)
         (description : str),
    let create := GitHubManager.create_repo api self repo_name files
                    description in
    let update := GitHubManager.update_repo api self repo_name files in
    let never_raw := fun e : event =>
      match content_sent e with
      | Some content => Str.startswith (lit "data:") content = false
      | None => True
      end in
    (forall s : state World,
        Forall (prepared files) (events (create s))
        /\ Forall (prepared files) (events (update s))
        /\ Forall never_raw (events (create s))
        /\ Forall never_raw (events (update s)))
    /\
    (forall filename content : str,
        if Str.startswith (lit "data:") content
        then published_as (filename, content)
             = (lit "attachments/" ++ filename ++ lit ".txt",
                lit "# " ++ filename ++ [NL; NL]
                  ++ lit "This file was provided as an attachment." ++ [NL]
                  ++ lit "Data URI: " ++ firstn 100 content ++ lit "...")
             /\ (length (firstn 100 content) <= 100)%nat
             /\ snd (published_as (filename, content)) <> content
        else published_as (filename, content) = (filename, content))
    /\
    (forall s : state World,
        match value (create s) with
        | Ok _ =>
            Forall (fun file =>
                      Exists (stores (published_as file)) (events (create s)))
              files
        | Raise _ => True
        end
        /\
        match value (update s) with
        | Ok _ =>
            Forall (fun file =>
                      Exists (stores (published_as file)) (events (update s)))
              files
        | Raise _ => True
        end).
Proof.
  intros World api self repo_name files description. cbn zeta.
  split; [| split].
  - intros s.
    pose proof (prepared_create_repo World api self files repo_name
                  description s) as Hc.
    pose proof (prepared_update_repo World api self files repo_name s) as Hu.
    repeat split; try assumption.
    + eapply Forall_impl; [| exact Hc]. apply prepared_never_data.
    + eapply Forall_impl; [| exact Hu]. apply prepared_never_data.
  - apply published_as_spec.
  - intros s. split.
    + apply (create_repo_stores World api self files repo_name description s).
    + apply (update_repo_stores World api self files repo_name s).
Qed.

(* ================================================================== *)
(** * The generator: attachments in the prompt and in the file set *)
(* ================================================================== *)

Lemma startswith_app (p s t : str) :
  Str.startswith p s = true -> Str.startswith p (s ++ t) = true.
Proof.
  revert s. induction p as [| a p IH]; intros [| b s] H; cbn in *;
    try reflexivity; try discriminate.
  apply andb_true_iff in H. destruct H as [H1 H2].
  rewrite H1. cbn. now apply IH.
Qed.

Lemma split1_at_first (sep : char) (head tail : str) :
  ~ In sep head ->
  Str.split1 sep (head ++ sep :: tail) = [head; tail].
Proof.
  induction head as [| c head IH]; intros Hnot; cbn [app Str.split1].
  - now rewrite N.eqb_refl.
  - destruct (N.eqb_spec c sep) as [-> | Hne].
    + exfalso. apply Hnot. now left.
    + rewrite IH; [reflexivity |]. intros Hin. apply Hnot. now right.
Qed.

Lemma fold_left_append {A} (f : A -> str) (l : list A) :
  forall init,
    fold_left (fun info a => info ++ f a) l init = init ++ concat (map f l).
Proof.
  induction l as [| a l IH]; intros init; cbn [fold_left map concat].
  - now rewrite app_nil_r.
  - rewrite IH. now rewrite <- app_assoc.
Qed.

Section Attachments.
Variable decode : str -> option str.

(** The text a base64 data URI adds to the prompt. *)
Lemma attachment_info_base64 (att : attachment) (mime data : str) :
  att_url att = Some (mime ++ COMMA :: data) ->
  ~ In COMMA mime ->
  Str.startswith (lit "data:") mime = true ->
  Str.contains (lit "base64") mime = true ->
  CodeGenerator.attachment_info decode att
  = preview_line decode (CodeGenerator.name_or (lit "unknown") att) data.
Proof.
  intros Hurl Hcomma Hdata Hb64.
  unfold CodeGenerator.attachment_info, CodeGenerator.url_of. rewrite Hurl.
  rewrite (startswith_app _ _ _ Hdata), split1_at_first by assumption.
  rewrite Hb64. unfold preview_line.
  destruct (decode data) as [decoded |]; [| reflexivity].
  now rewrite <- !app_assoc.
Qed.

Lemma process_attachments_occurs (before after : list attachment)
  (att : attachment) :
  occurs_in (CodeGenerator.attachment_info decode att)
    (CodeGenerator._process_attachments decode (before ++ att :: after)).
Proof.
  unfold CodeGenerator._process_attachments.
  assert (H : forall l, fold_left
            (fun info a => info ++ CodeGenerator.attachment_info decode a)
            l (lit "Attachments:" ++ [NL])
            = lit "Attachments:" ++ [NL]
              ++ concat (map (CodeGenerator.attachment_info decode) l)).
  { intros l. rewrite fold_left_append. now rewrite <- app_assoc. }
  destruct (before ++ att :: after) as [| a l] eqn:E.
  { destruct before; discriminate. }
  rewrite H, <- E, map_app, concat_app. cbn [map concat].
  exists (lit "Attachments:" ++ [NL]
          ++ concat (map (CodeGenerator.attachment_info decode) before)).
  exists (concat (map (CodeGenerator.attachment_info decode) after)).
  now rewrite <- !app_assoc.
Qed.

Lemma occurs_in_prompt (piece info brief : str) (checks : list str) :
  occurs_in piece info ->
  occurs_in piece (CodeGenerator._create_prompt brief checks info).
Proof.
  intros (before & after & ->). unfold CodeGenerator._create_prompt.
  exists (CodeGenerator.prompt_head ++ brief
          ++ text [lit ""; lit ""; lit "CHECKS (These will be tested):";
                   lit ""]
          ++ CodeGenerator.checks_str checks
          ++ text [lit ""; lit ""; lit ""]
          ++ before),
    (after ++ CodeGenerator.prompt_requirements).
  repeat rewrite <- app_assoc. reflexivity.
Qed.
End Attachments.

(** ** The file set keeps the data URI of the last attachment of a name *)

Lemma save_attachment_other (name : str) (url : str) (att : attachment)
  (files : Dict.t str) :
  stores_under name att = false ->
  Dict.get name files = Some url ->
  Dict.get name (CodeGenerator.save_attachment files att) = Some url.
Proof.
  unfold stores_under, CodeGenerator.save_attachment. intros Hno Hget.
  destruct (CodeGenerator.name_or [] att) as [| c n] eqn:Hn; [exact Hget |].
  destruct (Str.startswith (lit "data:") (CodeGenerator.url_of att));
    [| exact Hget].
  rewrite andb_true_r in Hno. apply eqb_neq in Hno.
  now rewrite get_set_other.
Qed.

Lemma save_attachments_keep (name url : str) (after : list attachment) :
  forall files,
    forallb (fun att => negb (stores_under name att)) after = true ->
    Dict.get name files = Some url ->
    Dict.get name (fold_left CodeGenerator.save_attachment after files)
    = Some url.
Proof.
  induction after as [| att after IH]; intros files Hall Hget;
    cbn [fold_left forallb] in *; [exact Hget |].
  apply andb_true_iff in Hall. destruct Hall as [Hatt Hall].
  apply IH; [exact Hall |]. apply save_attachment_other; [| exact Hget].
  now apply negb_true_iff.
Qed.

Lemma add_required_files_keeps (name url : str) (files : Dict.t str)
  (brief : str) (checks : list str) :
  Dict.get name files = Some url ->
  Dict.get name (CodeGenerator._add_required_files files brief checks)
  = Some url.
Proof.
  intros Hget. unfold CodeGenerator._add_required_files.
  assert (Hkeep : forall key value (d : Dict.t str),
             Dict.get name d = Some url ->
             Dict.mem key d = false ->
             Dict.get name (Dict.set key value d) = Some url).
  { intros key value d Hd Hmem.
    destruct (list_eq_dec N.eq_dec key name) as [-> | Hne].
    - unfold Dict.mem in Hmem. rewrite Hd in Hmem. discriminate.
    - now rewrite get_set_other. }
  set (files1 := if negb (Dict.mem (lit "LICENSE") files)
                    && negb (Dict.mem (lit "LICENSE.md") files)
                 then Dict.set (lit "LICENSE") CodeGenerator.MIT_LICENSE files
                 else files).
  assert (H1 : Dict.get name files1 = Some url).
  { subst files1.
    destruct (Dict.mem (lit "LICENSE") files) eqn:Hm; cbn [negb andb];
      [exact Hget |].
    destruct (Dict.mem (lit "LICENSE.md") files); cbn [negb];
      [exact Hget |].
    now apply Hkeep. }
  destruct (Dict.mem (lit "README.md") files1) eqn:Hm; cbn [negb];
    [exact H1 |].
  now apply Hkeep.
Qed.

Section Generate.
Variable World : Type.
Variable api : forall c : call, World -> ret_ty c * World.
Variable decode : str -> option str.

(** The requests of [_call_llm] carry the prompt it is given. *)
Lemma call_llm_events self prompt (s : state World) :
  Forall (fun e => match call_of e with
                   | Some (llm_post _ _ sent) => sent = prompt
                   | _ => True
                   end)
    (events (CodeGenerator._call_llm api self prompt s)).
Proof.
  unfold CodeGenerator._call_llm, CodeGenerator._call_backend.
  destruct (CodeGenerator.provider self =s? lit "gemini");
    [| destruct (CodeGenerator.provider self =s? lit "openai");
       [| destruct (CodeGenerator.provider self =s? lit "anthropic")]];
    try (unfold raising; rewrite perform_run;
         match goal with
         | |- context [fst (api ?c ?w)] =>
             destruct (fst (api c w)) as [response | e]
         end; cbn [events];
         (apply Forall_cons; [cbn; reflexivity | apply Forall_nil])).
  apply Forall_nil.
Qed.

(** The generator asks the back end once at most, with the prompt built
    from the brief, the checks and the attachments; its result is the file
    set parsed from the completion, with the required files added. *)
Lemma generate_app_run self brief checks attachments (s : state World) :
  let prompt := CodeGenerator._create_prompt brief checks
                  (CodeGenerator._process_attachments decode attachments) in
  let r := CodeGenerator.generate_app api decode self brief checks
             attachments s in
  Forall (fun e => match call_of e with
                   | Some (llm_post _ _ sent) => sent = prompt
                   | _ => True
                   end) (events r)
  /\ match value r with
     | Ok files =>
         exists response,
           files = CodeGenerator._add_required_files
                     (CodeGenerator._parse_response response attachments)
                     brief checks
     | Raise _ => True
     end.
Proof.
  intros prompt r. subst r. unfold CodeGenerator.generate_app.
  fold prompt. pose proof (call_llm_events self prompt s) as Hsent.
  unfold bind.
  destruct (CodeGenerator._call_llm api self prompt s)
    as [[response | e] evs s1]; cbn [value events ret] in *.
  - split; [now rewrite app_nil_r | eauto].
  - split; [exact Hsent | exact I].
Qed.
End Generate.

Lemma contains_char (c : char) (s : str) :
  Str.contains [c] s = false -> ~ In c s.
Proof.
  induction s as [| b s IH]; intros H Hin; [destruct Hin |].
  cbn in H. apply orb_false_iff in H. destruct H as [H1 H2].
  rewrite andb_true_r in H1. destruct Hin as [-> | Hin].
  - now rewrite N.eqb_refl in H1.
  - now apply IH.
Qed.

(** C9 fails as stated.  An attachment whose name is empty is not stored:
    the file set has no entry under its name and its data URI is the
    content of no file.  And of two attachments with the same name only
    the second is stored: the data URI of the first is the content of no
    file. *)
Lemma attachment_entry_can_be_missing :
  let first_uri := lit "data:text/csv;base64,QQ==" in
  let second_uri := lit "data:text/csv;base64,Qg==" in
  let named := fun (name : string) (uri : str) =>
    {| att_name := Some (lit name); att_url := Some uri |} in
  let run := fun attachments =>
    CodeGenerator.generate_app Sim.api Sim.decode_ascii
      (CodeGenerator.__init__ (lit "key") (lit "openai"))
      (lit "A page") [lit "h1 exists"] attachments (Sim.boot Sim.fresh) in
  (exists files,
      value (run [named ""%string first_uri]) = Ok files
      /\ Dict.get (lit "") files = None
      /\ ~ In first_uri (map snd files))
  /\ (exists files,
         value (run [named "a.csv"%string first_uri;
                     named "a.csv"%string second_uri]) = Ok files
         /\ Dict.get (lit "a.csv") files = Some second_uri
         /\ ~ In first_uri (map snd files)).
Proof.
  cbn zeta. split.
  - eexists. split; [vm_compute; reflexivity |].
    split; [vm_compute; reflexivity |].
    intros H. vm_compute in H.
    repeat (destruct H as [H | H]; [discriminate H |]). exact H.
  - eexists. split; [vm_compute; reflexivity |].
    split; [vm_compute; reflexivity |].
    intros H. vm_compute in H.
    repeat (destruct H as [H | H]; [discriminate H |]). exact H.
Qed.

(** C9, amended.  For every attachment given as an inline base64 data
    URI (its URL is [mime,data] where [mime] starts with [data:], contains
    [base64] and has no comma), the prompt of the generation, which is the
    prompt of every request to the back end, contains the line that
    previews it: its name, then the decoded text cut at 200 characters, or
    [[binary data]] when the decoding raises.  If moreover its name is not
    empty and no later attachment stores a data URI under the same name,
    the file set the generator returns has the data URI itself under that
    name. *)
Theorem attachment_preview_and_entry :
  forall (World : Type) (api : forall c : call, World -> ret_ty c * World)
         (decode : str -> option str) (self : CodeGenerator.t)
         (brief : str) (checks : list str)
         (before after : list attachment) (att : attachment)
         (mime data : str) (s : state World),
    att_url att = Some (mime ++ COMMA :: data) ->
    Str.contains [COMMA] mime = false ->
    Str.startswith (lit "data:") mime = true ->
    Str.contains (lit "base64") mime = true ->
    let attachments := before ++ att :: after in
    let prompt := CodeGenerator._create_prompt brief checks
                    (CodeGenerator._process_attachments decode attachments) in
    let r := CodeGenerator.generate_app api decode self brief checks
               attachments s in
    occurs_in
      (preview_line decode (CodeGenerator.name_or (lit "unknown") att) data)
      prompt
    /\ Forall (fun e => match call_of e with
                        | Some (llm_post _ _ sent) => sent = prompt
                        | _ => True
                        end) (events r)
    /\ (forall name,
           att_name att = Some name ->
           name <> [] ->
           forallb (fun later => negb (stores_under name later)) after = true ->
           match value r with
           | Ok files => Dict.get name files = Some (mime ++ COMMA :: data)
           | Raise _ => True
           end).
Proof.
  intros World api decode self brief checks before after att mime data s
    Hurl Hcomma Hdata Hb64. cbn zeta.
  pose proof (generate_app_run World api decode self brief checks
                (before ++ att :: after) s) as [Hsent Hfiles].
  cbn zeta in *. split; [| split].
  - apply occurs_in_prompt.
    rewrite <- (attachment_info_base64 decode att mime data Hurl
                  (contains_char _ _ Hcomma) Hdata Hb64).
    apply process_attachments_occurs.
  - exact Hsent.
  - intros name Hname Hne Hlater.
    destruct (value (CodeGenerator.generate_app api decode self brief checks
                       (before ++ att :: after) s)) as [files | e];
      [| exact I].
    destruct Hfiles as [response ->].
    apply add_required_files_keeps.
    unfold CodeGenerator._parse_response.
    rewrite fold_left_app. cbn [fold_left].
    apply save_attachments_keep; [exact Hlater |].
    unfold CodeGenerator.save_attachment, CodeGenerator.name_or,
      CodeGenerator.url_of.
    rewrite Hname, Hurl. destruct name as [| c n]; [contradiction |].
    rewrite (startswith_app _ _ _ Hdata). apply get_set_same.
Qed.

(** A CSV attachment and a run of the generator on it. *)
Lemma attachment_preview_and_entry_witness :
  let att := {| att_name := Some (lit "data.csv");
                att_url := Some (lit "data:text/csv;base64,YSxiCjEsMg==") |} in
  let self := CodeGenerator.__init__ (lit "key") (lit "openai") in
  let prompt := CodeGenerator._create_prompt (lit "A page") [lit "h1 exists"]
                  (CodeGenerator._process_attachments Sim.decode_ascii [att]) in
  let r := CodeGenerator.generate_app Sim.api Sim.decode_ascii self
             (lit "A page") [lit "h1 exists"] [att] (Sim.boot Sim.fresh) in
  occurs_in (lit "- data.csv: a,b" ++ [NL] ++ lit "1,2..." ++ [NL]) prompt
  /\ Forall (fun e => match call_of e with
                      | Some (llm_post _ _ sent) => sent = prompt
                      | _ => True
                      end) (events r)
  /\ match value r with
     | Ok files =>
         Dict.get (lit "data.csv") files
         = Some (lit "data:text/csv;base64,YSxiCjEsMg==")
     | Raise _ => True
     end.
Proof.
  cbn zeta.
  pose proof (attachment_preview_and_entry Sim.t Sim.api Sim.decode_ascii
                (CodeGenerator.__init__ (lit "key") (lit "openai"))
                (lit "A page") [lit "h1 exists"] []
                []
                {| att_name := Some (lit "data.csv");
                   att_url := Some (lit "data:text/csv;base64,YSxiCjEsMg==") |}
                (lit "data:text/csv;base64") (lit "YSxiCjEsMg==")
                (Sim.boot Sim.fresh)
                eq_refl eq_refl eq_refl eq_refl) as H.
  cbn zeta in H. destruct H as (H1 & H2 & H3).
  split; [exact H1 |]. split; [exact H2 |].
  apply (H3 (lit "data.csv") eq_refl); [discriminate | reflexivity].
Defined.

(* ================================================================== *)
(** * The generator: parsing a serialised file set again *)
(* ================================================================== *)

(** ** Stripping *)

Lemma lstrip_app (a b : str) :
  Str.lstrip (a ++ b)
  = match Str.lstrip a with
    | [] => Str.lstrip b
    | _ :: _ => Str.lstrip a ++ b
    end.
Proof.
  induction a as [| c a IH]; cbn [app Str.lstrip].
  - reflexivity.
  - destruct (Str.isspace c); [exact IH | reflexivity].
Qed.

Lemma lstrip_head (s : str) :
  match Str.lstrip s with
  | [] => True
  | c :: _ => Str.isspace c = false
  end.
Proof.
  induction s as [| c s IH]; cbn [Str.lstrip]; [exact I |].
  destruct (Str.isspace c) eqn:E; [exact IH | exact E].
Qed.

Lemma lstrip_fixed (s : str) :
  match s with
  | [] => True
  | c :: _ => Str.isspace c = false
  end ->
  Str.lstrip s = s.
Proof.
  destruct s as [| c s]; [reflexivity |]. cbn [Str.lstrip]. now intros ->.
Qed.

Lemma lstrip_idem (s : str) : Str.lstrip (Str.lstrip s) = Str.lstrip s.
Proof. apply lstrip_fixed, lstrip_head. Qed.

Lemma rstrip_snoc (s : str) (c : char) :
  Str.rstrip (s ++ [c])
  = if Str.isspace c then Str.rstrip s else s ++ [c].
Proof.
  unfold Str.rstrip. rewrite rev_app_distr. cbn [rev app Str.lstrip].
  destruct (Str.isspace c); [reflexivity |].
  cbn [rev]. now rewrite rev_involutive.
Qed.

Lemma rstrip_cons_nonspace (c : char) (s : str) :
  Str.isspace c = false -> Str.rstrip (c :: s) = c :: Str.rstrip s.
Proof.
  intros Hc. unfold Str.rstrip. cbn [rev]. rewrite lstrip_app.
  destruct (Str.lstrip (rev s)) as [| d t] eqn:E.
  - cbn [Str.lstrip]. now rewrite Hc.
  - rewrite rev_app_distr. reflexivity.
Qed.

Lemma rstrip_idem (s : str) : Str.rstrip (Str.rstrip s) = Str.rstrip s.
Proof.
  unfold Str.rstrip. now rewrite rev_involutive, lstrip_idem.
Qed.

Lemma rstrip_keeps_head (s : str) :
  match s with
  | [] => True
  | c :: _ => Str.isspace c = false
  end ->
  match Str.rstrip s with
  | [] => True
  | c :: _ => Str.isspace c = false
  end.
Proof.
  destruct s as [| c s]; [intros _; exact I |]. intros Hc.
  now rewrite rstrip_cons_nonspace.
Qed.

Lemma strip_idem (s : str) : Str.strip (Str.strip s) = Str.strip s.
Proof.
  unfold Str.strip.
  rewrite (lstrip_fixed (Str.rstrip (Str.lstrip s))).
  - apply rstrip_idem.
  - apply rstrip_keeps_head, lstrip_head.
Qed.

Lemma strip_cons_space (c : char) (s : str) :
  Str.isspace c = true -> Str.strip (c :: s) = Str.strip s.
Proof. intros Hc. unfold Str.strip. cbn [Str.lstrip]. now rewrite Hc. Qed.

Lemma strip_snoc_space (s : str) (c : char) :
  Str.isspace c = true -> Str.strip (s ++ [c]) = Str.strip s.
Proof.
  intros Hc. unfold Str.strip. rewrite lstrip_app.
  destruct (Str.lstrip s) as [| d t] eqn:E.
  - cbn [Str.lstrip]. now rewrite Hc.
  - rewrite rstrip_snoc. now rewrite Hc.
Qed.

Lemma strip_fixed (s : str) (c d : char) :
  Str.isspace c = false -> Str.isspace d = false ->
  Str.strip (c :: s ++ [d]) = c :: s ++ [d].
Proof.
  intros Hc Hd. unfold Str.strip. cbn [Str.lstrip]. rewrite Hc.
  change (c :: s ++ [d]) with ((c :: s) ++ [d]).
  rewrite rstrip_snoc. now rewrite Hd.
Qed.

(** Stripping adds no character. *)
Lemma lstrip_In (c : char) (s : str) : In c (Str.lstrip s) -> In c s.
Proof.
  induction s as [| d s IH]; cbn [Str.lstrip]; [auto |].
  destruct (Str.isspace d); [right; auto | auto].
Qed.

Lemma strip_In (c : char) (s : str) : In c (Str.strip s) -> In c s.
Proof.
  unfold Str.strip, Str.rstrip. intros H.
  apply in_rev, lstrip_In, in_rev, lstrip_In in H. exact H.
Qed.

Lemma replace_from_In (old : str) (c : char) (s : str) :
  forall skip, In c (Str.replace_from old [] skip s) -> In c s.
Proof.
  induction s as [| d s IH]; intros skip H; cbn [Str.replace_from] in H;
    [exact H |].
  destruct skip as [| k].
  - destruct (Str.startswith old (d :: s)).
    + right. eapply IH. exact H.
    + destruct H as [-> | H]; [now left | right; eapply IH; exact H].
  - right. eapply IH. exact H.
Qed.

(** ** Lines *)

Lemma split_nonempty (sep : char) (s : str) : Str.split sep s <> [].
Proof.
  destruct s as [| c s]; cbn [Str.split]; [discriminate |].
  destruct (c =? sep)%N; [discriminate |].
  destruct (Str.split sep s); discriminate.
Qed.

Lemma split_cons (sep c : char) (s : str) :
  Str.split sep (c :: s)
  = if (c =? sep)%N then [] :: Str.split sep s
    else (c :: hd [] (Str.split sep s)) :: tl (Str.split sep s).
Proof.
  cbn [Str.split]. destruct (c =? sep)%N; [reflexivity |].
  pose proof (split_nonempty sep s).
  destruct (Str.split sep s); [contradiction | reflexivity].
Qed.

Lemma split_no_sep (sep : char) (s : str) :
  Forall (fun line => ~ In sep line) (Str.split sep s).
Proof.
  induction s as [| c s IH]; [repeat constructor; auto |].
  rewrite split_cons. destruct (N.eqb_spec c sep) as [-> | Hne].
  - constructor; [auto | exact IH].
  - pose proof (split_nonempty sep s).
    destruct (Str.split sep s) as [| h t]; [contradiction |].
    inversion IH; subst. cbn [hd tl]. constructor; [| assumption].
    intros [-> | Hin]; [now apply Hne | contradiction].
Qed.

Lemma join_split (sep : char) (s : str) :
  Str.join [sep] (Str.split sep s) = s.
Proof.
  induction s as [| c s IH]; [reflexivity |].
  rewrite split_cons. pose proof (split_nonempty sep s) as Hne.
  destruct (N.eqb_spec c sep) as [-> | Hc].
  - cbn [Str.join]. destruct (Str.split sep s) as [| h t]; [contradiction |].
    cbn [app]. now rewrite IH.
  - destruct (Str.split sep s) as [| h t]; [contradiction |].
    cbn [hd tl]. destruct t as [| h' t'].
    + cbn [Str.join] in *. now rewrite IH.
    + change (Str.join [sep] ((c :: h) :: h' :: t'))
        with (c :: Str.join [sep] (h :: h' :: t')).
      now rewrite IH.
Qed.

Lemma split_line (sep : char) (line rest : str) :
  ~ In sep line ->
  Str.split sep (line ++ sep :: rest) = line :: Str.split sep rest.
Proof.
  induction line as [| c line IH]; intros Hnot; cbn [app].
  - rewrite split_cons. now rewrite N.eqb_refl.
  - rewrite split_cons. destruct (N.eqb_spec c sep) as [-> | Hne].
    + exfalso. apply Hnot. now left.
    + rewrite IH; [reflexivity |]. intros Hin. apply Hnot. now right.
Qed.

Lemma split_single (sep : char) (line : str) :
  ~ In sep line -> Str.split sep line = [line].
Proof.
  induction line as [| c line IH]; intros Hnot; [reflexivity |].
  rewrite split_cons. destruct (N.eqb_spec c sep) as [-> | Hne].
  - exfalso. apply Hnot. now left.
  - rewrite IH; [reflexivity |]. intros Hin. apply Hnot. now right.
Qed.

Lemma split_app_sep (sep : char) (a b : str) :
  Str.split sep (a ++ sep :: b) = Str.split sep a ++ Str.split sep b.
Proof.
  induction a as [| c a IH]; cbn [app].
  - rewrite split_cons. now rewrite N.eqb_refl.
  - rewrite !split_cons. destruct (c =? sep)%N.
    + cbn [app]. now rewrite IH.
    + rewrite IH. pose proof (split_nonempty sep a).
      destruct (Str.split sep a); [contradiction | reflexivity].
Qed.

Lemma split_snoc (sep c : char) (s : str) :
  Str.split sep (s ++ [c])
  = if (c =? sep)%N then Str.split sep s ++ [[]]
    else removelast (Str.split sep s) ++ [last (Str.split sep s) [] ++ [c]].
Proof.
  induction s as [| d s IH]; cbn [app].
  - rewrite split_cons. cbn [Str.split hd tl]. now destruct (c =? sep)%N.
  - rewrite !split_cons, IH. pose proof (split_nonempty sep s) as Hne.
    destruct (d =? sep)%N; destruct (c =? sep)%N.
    + reflexivity.
    + destruct (Str.split sep s) as [| h t]; [contradiction | reflexivity].
    + destruct (Str.split sep s) as [| h t]; [contradiction | reflexivity].
    + destruct (Str.split sep s) as [| h t]; [contradiction |].
      cbn [hd tl]. destruct t as [| h' t']; reflexivity.
Qed.

(** ** Delimiter lines *)

Lemma isspace_NL : Str.isspace NL = true.
Proof. reflexivity. Qed.

Lemma is_marker_cons_space (c : char) (line : str) :
  Str.isspace c = true ->
  CodeGenerator.is_marker (c :: line) = CodeGenerator.is_marker line.
Proof.
  intros Hc. unfold CodeGenerator.is_marker. now rewrite strip_cons_space.
Qed.

Lemma is_marker_snoc_space (line : str) (c : char) :
  Str.isspace c = true ->
  CodeGenerator.is_marker (line ++ [c]) = CodeGenerator.is_marker line.
Proof.
  intros Hc. unfold CodeGenerator.is_marker. now rewrite strip_snoc_space.
Qed.

Lemma plain_empty : plain [].
Proof. reflexivity. Qed.

(** Stripping a text keeps its lines plain. *)
Lemma plain_lines_lstrip (s : str) :
  Forall plain (Str.split NL s) -> Forall plain (Str.split NL (Str.lstrip s)).
Proof.
  induction s as [| c s IH]; intros H; [exact H |].
  cbn [Str.lstrip]. destruct (Str.isspace c) eqn:Hc; [| exact H].
  apply IH. rewrite split_cons in H.
  destruct (c =? NL)%N.
  - now inversion H.
  - pose proof (split_nonempty NL s) as Hne.
    destruct (Str.split NL s) as [| h t]; [contradiction |].
    cbn [hd tl] in H. inversion H as [| ? ? Hh Ht]; subst.
    constructor; [| exact Ht].
    unfold plain in *. now rewrite is_marker_cons_space in Hh.
Qed.

Lemma plain_lines_rstrip (s : str) :
  Forall plain (Str.split NL s) -> Forall plain (Str.split NL (Str.rstrip s)).
Proof.
  induction s as [| c s IH] using rev_ind; intros H; [exact H |].
  rewrite rstrip_snoc. destruct (Str.isspace c) eqn:Hc; [| exact H].
  apply IH. rewrite split_snoc in H.
  pose proof (split_nonempty NL s) as Hne.
  destruct (c =? NL)%N.
  - apply Forall_app in H. tauto.
  - rewrite (app_removelast_last [] Hne).
    apply Forall_app in H. destruct H as [Hinit Hlast].
    apply Forall_app. split; [exact Hinit |].
    inversion Hlast as [| ? ? Hl _]; subst. constructor; [| constructor].
    unfold plain in *. now rewrite is_marker_snoc_space in Hl.
Qed.

Lemma plain_lines_strip (s : str) :
  Forall plain (Str.split NL s) -> Forall plain (Str.split NL (Str.strip s)).
Proof.
  intros H. unfold Str.strip. now apply plain_lines_rstrip, plain_lines_lstrip.
Qed.

(** Joining lines without newline and splitting again. *)
Lemma split_text (lines : list str) :
  lines <> [] ->
  Forall (fun line => ~ In NL line) lines ->
  Str.split NL (text lines) = lines.
Proof.
  unfold text. induction lines as [| line rest IH]; intros Hne Hall;
    [contradiction |].
  inversion Hall as [| ? ? Hline Hrest]; subst.
  destruct rest as [| line' rest'].
  - cbn [Str.join]. now apply split_single.
  - change (Str.join [NL] (line :: line' :: rest'))
      with (line ++ NL :: Str.join [NL] (line' :: rest')).
    rewrite split_line by assumption. f_equal. apply IH; [discriminate |].
    exact Hrest.
Qed.

Lemma plain_lines_of_content (lines : list str) :
  Forall plain lines ->
  Forall (fun line => ~ In NL line) lines ->
  Forall plain (Str.split NL (Str.strip (text lines))).
Proof.
  intros Hplain Hnl. apply plain_lines_strip.
  destruct lines as [| line rest].
  - repeat constructor.
  - rewrite split_text; [exact Hplain | discriminate | exact Hnl].
Qed.

(** The delimiter line of a name. *)
Lemma startswith_prefix (p s : str) : Str.startswith p (p ++ s) = true.
Proof.
  induction p as [| c p IH]; [reflexivity |].
  cbn [app Str.startswith]. now rewrite N.eqb_refl, IH.
Qed.

Lemma endswith_suffix (p s : str) : Str.endswith p (s ++ p) = true.
Proof.
  unfold Str.endswith. rewrite rev_app_distr. apply startswith_prefix.
Qed.

Lemma header_shape (name : str) :
  header name = 61%N :: (lit "== " ++ name ++ lit " ==") ++ [61%N].
Proof. unfold header. cbn. now rewrite <- app_assoc. Qed.

Lemma strip_header (name : str) : Str.strip (header name) = header name.
Proof. rewrite header_shape. now apply strip_fixed. Qed.

Lemma is_marker_header (name : str) :
  CodeGenerator.is_marker (header name) = true.
Proof.
  unfold CodeGenerator.is_marker. rewrite strip_header. unfold header.
  rewrite startswith_prefix, app_assoc, endswith_suffix. reflexivity.
Qed.

Lemma header_no_NL (name : str) : ~ In NL name -> ~ In NL (header name).
Proof.
  intros Hname Hin. unfold header in Hin.
  apply in_app_or in Hin. destruct Hin as [Hin | Hin].
  - cbn in Hin. unfold NL in Hin. intuition discriminate.
  - apply in_app_or in Hin. destruct Hin as [Hin | Hin]; [auto |].
    cbn in Hin. unfold NL in Hin. intuition discriminate.
Qed.

Lemma marker_name_no_NL (line : str) :
  ~ In NL line -> ~ In NL (CodeGenerator.marker_name line).
Proof.
  intros Hline Hin. unfold CodeGenerator.marker_name, Str.replace in Hin.
  apply strip_In, replace_from_In, replace_from_In, strip_In in Hin. auto.
Qed.

Lemma plain_forallb (lines : list str) :
  forallb (fun line => negb (CodeGenerator.is_marker line)) lines = true ->
  Forall plain lines.
Proof.
  intros H. apply Forall_forall. intros line Hin.
  rewrite forallb_forall in H. apply H in Hin.
  unfold plain. now destruct (CodeGenerator.is_marker line).
Qed.

(** ** Dictionaries: assignment to a fresh key *)

Lemma set_fresh {V} (k : str) (v : V) (d : Dict.t V) :
  ~ In k (Dict.keys d) -> Dict.set k v d = d ++ [(k, v)].
Proof.
  induction d as [| [k' v'] d IH]; cbn [Dict.set Dict.keys map fst app];
    intros Hfresh; [reflexivity |].
  destruct (k' =s? k) eqn:E.
  - apply eqb_eq in E. exfalso. apply Hfresh. now left.
  - f_equal. apply IH. intros Hin. apply Hfresh. now right.
Qed.

Lemma keys_set_present {V} (k : str) (v : V) (d : Dict.t V) :
  In k (Dict.keys d) -> Dict.keys (Dict.set k v d) = Dict.keys d.
Proof.
  induction d as [| [k' v'] d IH]; cbn [Dict.set Dict.keys map fst];
    intros Hin; [destruct Hin |].
  destruct (k' =s? k) eqn:E; cbn [map fst]; [reflexivity |].
  f_equal. apply IH. destruct Hin as [-> | Hin]; [| exact Hin].
  now rewrite eqb_refl in E.
Qed.

Lemma NoDup_keys_set {V} (k : str) (v : V) (d : Dict.t V) :
  NoDup (Dict.keys d) -> NoDup (Dict.keys (Dict.set k v d)).
Proof.
  intros Hd. destruct (in_dec (list_eq_dec N.eq_dec) k (Dict.keys d)) as [Hin | Hout].
  - now rewrite keys_set_present.
  - rewrite set_fresh by exact Hout. unfold Dict.keys. rewrite map_app.
    cbn [map fst]. apply NoDup_app; [exact Hd | repeat constructor; auto |].
    intros a Ha [<- | []]. contradiction.
Qed.

Lemma Forall_set {V} (P : str * V -> Prop) (k : str) (v : V) (d : Dict.t V) :
  (forall k', k' = k -> P (k', v)) -> Forall P d -> Forall P (Dict.set k v d).
Proof.
  intros Hnew. induction d as [| [k' v'] d IH]; cbn [Dict.set]; intros Hd.
  - constructor; [now apply Hnew | constructor].
  - inversion Hd; subst. destruct (k' =s? k) eqn:E.
    + apply eqb_eq in E. constructor; [now apply Hnew | assumption].
    + constructor; [assumption | now apply IH].
Qed.

(** ** The scanning loop keeps its invariant *)

Lemma save_ok (sc : CodeGenerator.scan) :
  scan_ok sc ->
  NoDup (Dict.keys (CodeGenerator.save sc))
  /\ Forall well_formed (CodeGenerator.save sc).
Proof.
  intros (Hnd & Hwf & Hname & Hplain & Hnl). unfold CodeGenerator.save.
  destruct (CodeGenerator.current_file sc) as [[| c f] |] eqn:E;
    try (split; assumption).
  split; [now apply NoDup_keys_set |].
  apply Forall_set; [| exact Hwf]. intros k' ->.
  destruct (Hname _ eq_refl) as [Hnl' Hstrip].
  unfold well_formed. cbn [fst snd]. repeat split.
  - discriminate.
  - exact Hnl'.
  - exact Hstrip.
  - apply strip_idem.
  - now apply plain_lines_of_content.
Qed.

Lemma scan_line_ok (sc : CodeGenerator.scan) (line : str) :
  ~ In NL line -> scan_ok sc -> scan_ok (CodeGenerator.scan_line sc line).
Proof.
  intros Hline Hsc. unfold CodeGenerator.scan_line.
  destruct (CodeGenerator.is_marker line) eqn:Hm.
  - destruct (save_ok sc Hsc) as [Hnd Hwf].
    unfold scan_ok.
    cbn [CodeGenerator.files CodeGenerator.current_file
         CodeGenerator.current_content].
    repeat split; try assumption; try constructor.
    + injection H as <-. now apply marker_name_no_NL.
    + injection H as <-. apply strip_idem.
  - destruct (CodeGenerator.truthy (CodeGenerator.current_file sc));
      [| exact Hsc].
    destruct Hsc as (Hnd & Hwf & Hname & Hplain & Hnl). unfold scan_ok.
    cbn [CodeGenerator.files CodeGenerator.current_file
         CodeGenerator.current_content].
    split; [exact Hnd | split; [exact Hwf | split; [exact Hname | split]]].
    + apply Forall_app. split; [exact Hplain | now repeat constructor].
    + apply Forall_app. split; [exact Hnl | now repeat constructor].
Qed.

Lemma scan_ok_fold (lines : list str) :
  Forall (fun line => ~ In NL line) lines ->
  forall sc, scan_ok sc -> scan_ok (fold_left CodeGenerator.scan_line lines sc).
Proof.
  induction 1 as [| line lines Hline _ IH]; intros sc Hsc; [exact Hsc |].
  cbn [fold_left]. apply IH. now apply scan_line_ok.
Qed.

Lemma parse_sections_ok (response : str) :
  NoDup (Dict.keys (CodeGenerator.parse_sections response))
  /\ Forall well_formed (CodeGenerator.parse_sections response).
Proof.
  unfold CodeGenerator.parse_sections. apply save_ok, scan_ok_fold.
  - apply split_no_sep.
  - unfold scan_ok. cbn. repeat split; try constructor; discriminate.
Qed.

(** ** Parsing a serialised file set *)

Lemma split_join (blocks : list str) :
  blocks <> [] ->
  Str.split NL (text blocks) = concat (map (Str.split NL) blocks).
Proof.
  unfold text. induction blocks as [| b rest IH]; intros Hne;
    [contradiction |].
  destruct rest as [| b' rest'].
  - cbn [Str.join map concat]. now rewrite app_nil_r.
  - change (Str.join [NL] (b :: b' :: rest'))
      with (b ++ NL :: Str.join [NL] (b' :: rest')).
    rewrite split_app_sep, IH by discriminate. reflexivity.
Qed.

Lemma split_serialize (files : Dict.t str) :
  files <> [] ->
  Forall well_formed files ->
  Str.split NL (serialize files) = concat (map block files).
Proof.
  intros Hne Hwf. unfold serialize.
  rewrite split_join by (destruct files; [contradiction | discriminate]).
  rewrite map_map. f_equal. apply map_ext_in. intros [name content] Hin.
  rewrite Forall_forall in Hwf. destruct (Hwf _ Hin) as (_ & Hnl & _).
  cbn [fst snd] in *. unfold block. cbn [fst snd app].
  apply split_line. now apply header_no_NL.
Qed.

Lemma scan_line_plain files current_file content (line : str) :
  CodeGenerator.truthy current_file = true ->
  plain line ->
  CodeGenerator.scan_line
    {| CodeGenerator.files := files;
       CodeGenerator.current_file := current_file;
       CodeGenerator.current_content := content |} line
  = {| CodeGenerator.files := files;
       CodeGenerator.current_file := current_file;
       CodeGenerator.current_content := content ++ [line] |}.
Proof.
  intros Ht Hp. unfold CodeGenerator.scan_line. unfold plain in Hp.
  rewrite Hp. cbn [CodeGenerator.current_file]. now rewrite Ht.
Qed.

Lemma scan_plain_lines files current_file (lines : list str) :
  CodeGenerator.truthy current_file = true ->
  Forall plain lines ->
  forall content,
    fold_left CodeGenerator.scan_line lines
      {| CodeGenerator.files := files;
         CodeGenerator.current_file := current_file;
         CodeGenerator.current_content := content |}
    = {| CodeGenerator.files := files;
         CodeGenerator.current_file := current_file;
         CodeGenerator.current_content := content ++ lines |}.
Proof.
  intros Ht. induction 1 as [| line lines Hline _ IH]; intros content.
  - cbn [fold_left]. now rewrite app_nil_r.
  - cbn [fold_left]. rewrite scan_line_plain by assumption.
    rewrite IH, <- app_assoc. reflexivity.
Qed.

Lemma scan_line_header (sc : CodeGenerator.scan) (name : str) :
  CodeGenerator.marker_name (header name) = name ->
  CodeGenerator.scan_line sc (header name)
  = {| CodeGenerator.files := CodeGenerator.save sc;
       CodeGenerator.current_file := Some name;
       CodeGenerator.current_content := [] |}.
Proof.
  intros Hname. unfold CodeGenerator.scan_line.
  now rewrite is_marker_header, Hname.
Qed.

Lemma reparse_from (files : Dict.t str) :
  Forall well_formed files ->
  Forall (fun file => CodeGenerator.marker_name (header (fst file)) = fst file)
    files ->
  forall sc,
    NoDup (Dict.keys (CodeGenerator.save sc) ++ Dict.keys files) ->
    CodeGenerator.save
      (fold_left CodeGenerator.scan_line (concat (map block files)) sc)
    = CodeGenerator.save sc ++ files.
Proof.
  induction files as [| [name content] files IH]; intros Hwf Hst sc Hnd.
  - cbn [map concat fold_left]. now rewrite app_nil_r.
  - inversion Hwf as [| ? ? (Hne & Hnl & _ & Hstrip & Hplain) Hwf']; subst.
    inversion Hst as [| ? ? Hname Hst']; subst. cbn [fst snd] in *.
    cbn [map concat]. unfold block at 1. cbn [fst snd].
    rewrite <- app_comm_cons. cbn [fold_left].
    rewrite fold_left_app, scan_line_header by exact Hname.
    rewrite scan_plain_lines;
      [| destruct name; [contradiction | reflexivity] | exact Hplain].
    cbn [app].
    set (sc2 := {| CodeGenerator.files := CodeGenerator.save sc;
                   CodeGenerator.current_file := Some name;
                   CodeGenerator.current_content := Str.split NL content |}).
    assert (Hsave : CodeGenerator.save sc2
                    = CodeGenerator.save sc ++ [(name, content)]).
    { unfold CodeGenerator.save at 1. subst sc2.
      cbn [CodeGenerator.files CodeGenerator.current_file
           CodeGenerator.current_content].
      destruct name as [| c f]; [contradiction |].
      unfold text. rewrite join_split, Hstrip. apply set_fresh.
      apply NoDup_remove_2 in Hnd. intros Hin. apply Hnd.
      apply in_or_app. now left. }
    rewrite IH; [| exact Hwf' | exact Hst' |].
    + rewrite Hsave, <- app_assoc. reflexivity.
    + rewrite Hsave. unfold Dict.keys in *. rewrite map_app, <- app_assoc.
      exact Hnd.
Qed.

Lemma stable_names (files : Dict.t str) :
  forallb stable_name (Dict.keys files) = true ->
  Forall (fun file => CodeGenerator.marker_name (header (fst file)) = fst file)
    files.
Proof.
  intros H. apply Forall_forall. intros file Hin.
  rewrite forallb_forall in H. apply eqb_eq. apply H.
  unfold Dict.keys. now apply in_map.
Qed.

Lemma reparse (files : Dict.t str) :
  NoDup (Dict.keys files) ->
  Forall well_formed files ->
  forallb stable_name (Dict.keys files) = true ->
  CodeGenerator.parse_sections (serialize files) = files.
Proof.
  intros Hnd Hwf Hst. destruct files as [| file files]; [reflexivity |].
  unfold CodeGenerator.parse_sections.
  rewrite split_serialize; [| discriminate | exact Hwf].
  rewrite reparse_from; [reflexivity | exact Hwf | now apply stable_names |].
  exact Hnd.
Qed.

(** ** The fall-back file *)

Lemma strip_around (a b r : str) (c d : char) (a' b' : str) :
  a = c :: a' -> b = b' ++ [d] ->
  Str.isspace c = false -> Str.isspace d = false ->
  Str.strip (a ++ r ++ b) = a ++ r ++ b.
Proof.
  intros -> -> Hc Hd. cbn [app].
  replace (a' ++ r ++ b' ++ [d]) with ((a' ++ r ++ b') ++ [d])
    by now rewrite <- !app_assoc.
  now apply strip_fixed.
Qed.

Lemma plain_lines_indent (c : char) (s : str) :
  Str.isspace c = true -> (c =? NL)%N = false ->
  Forall plain (Str.split NL s) -> Forall plain (Str.split NL (c :: s)).
Proof.
  intros Hc Hnl H. rewrite split_cons, Hnl.
  pose proof (split_nonempty NL s) as Hne.
  destruct (Str.split NL s) as [| h t]; [contradiction |].
  cbn [hd tl]. inversion H; subst. constructor; [| assumption].
  unfold plain in *. now rewrite is_marker_cons_space.
Qed.

Lemma Forall_concat {A} (P : A -> Prop) (ls : list (list A)) :
  Forall (Forall P) ls -> Forall P (concat ls).
Proof.
  induction 1 as [| l ls Hl _ IH]; cbn [concat]; [constructor |].
  apply Forall_app. now split.
Qed.

(** The skeleton is a fixed text around the completion, which comes
    after its first 194 characters; it begins with [<] and ends with
    [>]. *)
Lemma wrap_html_strip (response : str) :
  Str.strip (CodeGenerator.wrap_html response)
  = CodeGenerator.wrap_html response.
Proof.
  set (before := firstn 194 (CodeGenerator.wrap_html [])).
  set (after := skipn 194 (CodeGenerator.wrap_html [])).
  change (CodeGenerator.wrap_html response)
    with (before ++ response ++ after).
  apply strip_around with (c := 60%N) (d := 62%N) (a' := tl before)
                          (b' := removelast after); reflexivity.
Qed.

Lemma wrap_html_plain (response : str) :
  Forall plain (Str.split NL response) ->
  Forall plain (Str.split NL (CodeGenerator.wrap_html response)).
Proof.
  intros H. unfold CodeGenerator.wrap_html.
  rewrite split_join by discriminate. apply Forall_concat. cbn [map].
  repeat (apply Forall_cons; [try (apply plain_forallb; reflexivity) |]);
    [| apply Forall_nil].
  cbn [lit list_ascii_of_string map app]. 
  repeat (apply plain_lines_indent; [reflexivity | reflexivity |]).
  exact H.
Qed.

(** ** Names without the character [=] *)

Lemma replace_skip (old new a s : str) :
  Str.replace_from old new (length a) (a ++ s)
  = Str.replace_from old new 0 s.
Proof.
  induction a as [| c a IH]; [reflexivity |].
  cbn [length app Str.replace_from]. exact IH.
Qed.

Lemma replace_open_free (name tail : str) :
  ~ In EQUALS name ->
  Str.replace (lit "=== ") [] (name ++ tail)
  = name ++ Str.replace (lit "=== ") [] tail.
Proof.
  unfold Str.replace. induction name as [| c name IH]; intros Hfree;
    [reflexivity |].
  cbn [app Str.replace_from].
  replace (Str.startswith (lit "=== ") (c :: name ++ tail)) with false.
  - f_equal. apply IH. intros Hin. apply Hfree. now right.
  - cbn [lit list_ascii_of_string map Str.startswith].
    destruct (N.eqb_spec (N_of_ascii "=") c) as [<- | Hne]; [| reflexivity].
    exfalso. apply Hfree. now left.
Qed.

Lemma replace_close_free (name : str) :
  ~ In EQUALS name ->
  Str.replace (lit " ===") [] (name ++ lit " ===") = name.
Proof.
  unfold Str.replace. induction name as [| c name IH]; intros Hfree;
    [reflexivity |].
  cbn [app Str.replace_from].
  replace (Str.startswith (lit " ===") (c :: name ++ lit " ===")) with false.
  - f_equal. apply IH. intros Hin. apply Hfree. now right.
  - cbn [lit list_ascii_of_string map Str.startswith].
    destruct name as [| d name]; [now rewrite andb_false_r |].
    cbn [app Str.startswith].
    destruct (N.eqb_spec (N_of_ascii "=") d) as [<- | Hne].
    + exfalso. apply Hfree. right. now left.
    + now rewrite andb_false_r.
Qed.

Lemma name_without_equals_stable (name : str) :
  ~ In EQUALS name -> Str.strip name = name -> stable_name name = true.
Proof.
  intros Hfree Hstrip. unfold stable_name. apply eqb_eq.
  unfold CodeGenerator.marker_name. rewrite strip_header.
  unfold header at 1.
  change (Str.replace (lit "=== ") [] (lit "=== " ++ name ++ lit " ==="))
    with (Str.replace_from (lit "=== ") [] (length (lit "== "))
            (lit "== " ++ name ++ lit " ===")).
  rewrite replace_skip.
  change (Str.replace_from (lit "=== ") [] 0 (name ++ lit " ==="))
    with (Str.replace (lit "=== ") [] (name ++ lit " ===")).
  rewrite replace_open_free by exact Hfree.
  change (Str.replace (lit "=== ") [] (lit " ===")) with (lit " ===").
  now rewrite replace_close_free.
Qed.

Lemma sections_without_equals_stable (response : str) :
  Forall (fun name => ~ In EQUALS name)
    (Dict.keys (CodeGenerator.parse_sections response)) ->
  forallb stable_name (Dict.keys (CodeGenerator.parse_sections response))
  = true.
Proof.
  intros Hfree. destruct (parse_sections_ok response) as [_ Hwf].
  apply forallb_forall. intros name Hin.
  rewrite Forall_forall in Hfree, Hwf.
  pose proof (Hfree _ Hin) as Hname.
  unfold Dict.keys in Hin. apply in_map_iff in Hin.
  destruct Hin as ([name' content] & <- & Hin).
  destruct (Hwf _ Hin) as (_ & _ & Hstrip & _).
  now apply name_without_equals_stable.
Qed.

(** C7 fails as stated.  A delimiter line can give a name that its own
    delimiter line does not give back: the completion
    [=== ==== == x ===], [hello] parses to the file [=== x], whose
    serialisation parses to the file [x].  And when the scan finds no
    named section the whole completion becomes [index.html]; a delimiter
    line with an empty name inside it cuts the content at the second
    parse. *)
Lemma round_trip_can_change_file_set :
  let parse := fun completion => CodeGenerator._parse_response completion [] in
  let renamed := text [lit "=== ==== == x ==="; lit "hello"] in
  let cut := text [lit "<html>"; lit "===  ==="; lit "x"] in
  (parse renamed = [(lit "=== x", lit "hello")]
   /\ parse (serialize (parse renamed)) = [(lit "x", lit "hello")])
  /\ (parse cut = [(lit "index.html", cut)]
      /\ parse (serialize (parse cut)) = [(lit "index.html", lit "<html>")]).
Proof. cbn zeta. repeat split; vm_compute; reflexivity. Qed.

(** C7, amended.  Let the names of the sections of a completion be
    stable, that is read back unchanged from their own delimiter line
    [=== <name> ===], and let the completion open a named section or have
    no delimiter line at all.  Then the file set parsed from it,
    serialised with the delimiter convention and parsed again, is the same
    mapping with the same order; so is the result of the delimiter scan
    alone, whose second hypothesis is not needed. *)
Theorem parse_round_trip (response : str) :
  forallb stable_name (Dict.keys (CodeGenerator.parse_sections response))
  = true ->
  sections_or_plain response = true ->
  let files := CodeGenerator._parse_response response [] in
  CodeGenerator._parse_response (serialize files) [] = files
  /\ CodeGenerator.parse_sections
       (serialize (CodeGenerator.parse_sections response))
     = CodeGenerator.parse_sections response.
Proof.
  intros Hst Hsp. cbn zeta.
  destruct (parse_sections_ok response) as [Hnd Hwf].
  assert (Hsec : CodeGenerator.parse_sections
                   (serialize (CodeGenerator.parse_sections response))
                 = CodeGenerator.parse_sections response)
    by now apply reparse.
  split; [| exact Hsec].
  unfold CodeGenerator._parse_response. cbn [fold_left].
  unfold sections_or_plain in Hsp.
  destruct (CodeGenerator.parse_sections response) as [| file files].
  - apply plain_forallb in Hsp.
    assert (Hfile : exists content,
               CodeGenerator.or_index_html response []
               = [(lit "index.html", content)]
               /\ Str.strip content = content
               /\ Forall plain (Str.split NL content)).
    { unfold CodeGenerator.or_index_html.
      destruct (Str.contains (lit "<!DOCTYPE html>") response
                || Str.contains (lit "<html") response);
        cbn [Dict.set]; eexists; (split; [reflexivity | split]).
      - apply strip_idem.
      - now apply plain_lines_strip.
      - apply wrap_html_strip.
      - now apply wrap_html_plain. }
    destruct Hfile as (content & -> & Hstrip & Hplain).
    rewrite reparse; [reflexivity | | | reflexivity].
    + cbn. repeat constructor. auto.
    + constructor; [| constructor]. unfold well_formed. cbn [fst snd].
      repeat split; try assumption; try discriminate; try reflexivity.
      cbn. unfold NL. intuition discriminate.
  - cbn [CodeGenerator.or_index_html]. now rewrite Hsec.
Qed.

(** A completion with two sections, parsed, serialised and parsed
    again. *)
Lemma parse_round_trip_witness :
  let completion := text [lit "=== index.html ==="; lit "<h1>Hi</h1>"; lit "";
                          lit "=== README.md ==="; lit "# App"; lit ""] in
  let files := CodeGenerator._parse_response completion [] in
  files = [(lit "index.html", lit "<h1>Hi</h1>"); (lit "README.md", lit "# App")]
  /\ CodeGenerator._parse_response (serialize files) [] = files.
Proof.
  cbn zeta. split; [vm_compute; reflexivity |].
  exact (proj1 (parse_round_trip
                  (text [lit "=== index.html ==="; lit "<h1>Hi</h1>"; lit "";
                         lit "=== README.md ==="; lit "# App"; lit ""])
                  eq_refl eq_refl)).
Defined.

(* ================================================================== *)
(** * The reporter: running out of attempts *)
(* ================================================================== *)

Section Exhaustion.
Variable World : Type.
Variable api : forall c : call, World -> ret_ty c * World.
Variables (url : str) (data : Dict.t json) (max_retries : Z).

Local Abbreviation req := (requests_post url data 30).
Local Abbreviation loop := (Evaluator.attempts api url data max_retries).

End Exhaustion.



(* ================================================================== *)
(** * The reporter: what it calls *)
(* ================================================================== *)

Lemma enumerate_snd {A} (l : list A) :
  forall k, map snd (enumerate k l) = l.
Proof.
  induction l as [| x l IH]; intros k; cbn [enumerate map snd];
    [reflexivity | now rewrite IH].
Qed.

Lemma slice_upto_In {A} (n : Z) (l : list A) (x : A) :
  In x (slice_upto n l) -> In x l.
Proof.
  unfold slice_upto. intros H.
  destruct (n <? 0);
    match type of H with
    | In _ (firstn ?k _) =>
        rewrite <- (firstn_skipn k l); apply in_or_app; now left
    end.
Qed.

Section ReporterCalls.
Variable World : Type.
Variable api : forall c : call, World -> ret_ty c * World.
Variables (url : str) (data : Dict.t json) (max_retries : Z).

Local Abbreviation req := (requests_post url data 30).
Local Abbreviation loop := (Evaluator.attempts api url data max_retries).

Lemma attempts_calls pairs :
  forall s,
    Forall (fun e => match call_of e with
                     | Some (requests_post u d t) =>
                         u = url /\ d = data /\ t = 30
                     | Some (time_sleep d) => In d (map snd pairs)
                     | _ => False
                     end)
      (events (loop pairs s)).
Proof.
  induction pairs as [| [attempt_no delay] rest IH]; intros s.
  - constructor.
  - rewrite attempts_cons. cbn zeta.
    destruct (printable url); [| constructor].
    destruct (Evaluator.verdict (fst (api req (world s)))) as [[b |] | e0];
      cbn [events].
    + constructor; [cbn; auto | constructor].
    + constructor; [cbn; auto |].
      apply Forall_app. split.
      * rewrite pause_events. destruct (attempt_no <? max_retries);
          constructor; [cbn; auto | constructor].
      * eapply Forall_impl; [| apply IH].
        intros e He. cbn beta in He |- *.
        destruct (call_of e) as [[] |]; try exact He.
        cbn [map snd]. now right.
    + constructor; [cbn; auto | constructor].
Qed.
End ReporterCalls.

(** X2.  Whatever the answers, [submit_to_evaluation] calls nothing but
    [requests.post] and [time.sleep]: every request goes to the given URL
    with the given payload and a timeout of 30 seconds, and every pause is
    one of the delays of the schedule. *)
Theorem reporter_only_posts_the_payload :
  forall (World : Type) (api : forall c : call, World -> ret_ty c * World)
         (url : str) (data : Dict.t json) (max_retries : Z) (s : state World),
    Forall (fun e => match call_of e with
                     | Some (requests_post u d t) =>
                         u = url /\ d = data /\ t = 30
                     | Some (time_sleep d) => In d Evaluator.retry_delays
                     | _ => False
                     end)
      (events (Evaluator.submit_to_evaluation api url data max_retries s)).
Proof.
  intros World api url data max_retries s.
  unfold Evaluator.submit_to_evaluation.
  eapply Forall_impl; [| apply attempts_calls].
  intros e He. cbn beta in He |- *.
  destruct (call_of e) as [[] |]; try exact He.
  rewrite enumerate_snd in He. eapply slice_upto_In. exact He.
Qed.

(* ================================================================== *)
(** * The generator: the files it adds *)
(* ================================================================== *)

Lemma mem_set_same {V} (k : str) (v : V) (d : Dict.t V) :
  Dict.mem k (Dict.set k v d) = true.
Proof. unfold Dict.mem. now rewrite get_set_same. Qed.

Lemma mem_set_other {V} (k k0 : str) (v : V) (d : Dict.t V) :
  k <> k0 -> Dict.mem k0 (Dict.set k v d) = Dict.mem k0 d.
Proof. intros H. unfold Dict.mem. now rewrite get_set_other. Qed.

Lemma mem_false_fresh {V} (k : str) (d : Dict.t V) :
  Dict.mem k d = false -> ~ In k (Dict.keys d).
Proof.
  unfold Dict.mem. induction d as [| [k' v'] d IH];
    cbn [Dict.get Dict.keys map fst]; intros H Hin; [exact Hin |].
  destruct (k' =s? k) eqn:E; [discriminate |].
  destruct Hin as [-> | Hin]; [now rewrite eqb_refl in E | now apply IH].
Qed.

Lemma add_required_files_complete (files : Dict.t str) (brief : str)
  (checks : list str) :
  let out := CodeGenerator._add_required_files files brief checks in
  Dict.mem (lit "README.md") out = true
  /\ (Dict.mem (lit "LICENSE") out || Dict.mem (lit "LICENSE.md") out) = true.
Proof.
  cbn zeta. unfold CodeGenerator._add_required_files.
  destruct (Dict.mem (lit "LICENSE") files) eqn:EL;
    destruct (Dict.mem (lit "LICENSE.md") files) eqn:EM; cbn [negb andb];
    match goal with
    | |- context [if negb (Dict.mem (lit "README.md") ?d) then _ else _] =>
        destruct (Dict.mem (lit "README.md") d) eqn:ER; cbn [negb]
    end;
    rewrite ?mem_set_same, ?ER, ?EL, ?EM; 
    rewrite ?mem_set_other by discriminate;
    rewrite ?mem_set_same, ?ER, ?EL, ?EM; auto using orb_true_r.
Qed.

Lemma add_required_files_fixed (files : Dict.t str) (brief : str)
  (checks : list str) :
  Dict.mem (lit "README.md") files = true ->
  (Dict.mem (lit "LICENSE") files || Dict.mem (lit "LICENSE.md") files) = true ->
  CodeGenerator._add_required_files files brief checks = files.
Proof.
  intros HR HL. unfold CodeGenerator._add_required_files.
  destruct (Dict.mem (lit "LICENSE") files);
    destruct (Dict.mem (lit "LICENSE.md") files); try discriminate;
    cbn [negb andb]; now rewrite HR.
Qed.

(** X3.  [_add_required_files] only appends: the file set it returns is
    the given one, in its order and with its contents, followed by
    [LICENSE] when neither [LICENSE] nor [LICENSE.md] was there and by
    [README.md] when it was not there (the text of the README does not
    depend on the file set).  The result always has [README.md] and one of
    the two license names, and applying the function again, with any brief
    and checks, changes nothing. *)
Theorem required_files_are_appended :
  forall (files : Dict.t str) (brief : str) (checks : list str),
    let out := CodeGenerator._add_required_files files brief checks in
    let license :=
      if Dict.mem (lit "LICENSE") files || Dict.mem (lit "LICENSE.md") files
      then [] else [(lit "LICENSE", CodeGenerator.MIT_LICENSE)] in
    let readme :=
      if Dict.mem (lit "README.md") files then []
      else [(lit "README.md",
             CodeGenerator._generate_readme brief checks files)] in
    out = files ++ license ++ readme
    /\ Dict.mem (lit "README.md") out = true
    /\ (Dict.mem (lit "LICENSE") out || Dict.mem (lit "LICENSE.md") out) = true
    /\ (forall (brief' : str) (checks' : list str),
           CodeGenerator._add_required_files out brief' checks' = out).
Proof.
  intros files brief checks. cbn zeta.
  destruct (add_required_files_complete files brief checks) as [HR HL].
  cbn zeta in HR, HL.
  split; [| split; [exact HR | split; [exact HL |]]].
  - unfold CodeGenerator._add_required_files.
    destruct (Dict.mem (lit "LICENSE") files) eqn:EL;
      destruct (Dict.mem (lit "LICENSE.md") files) eqn:EM;
      cbn [negb andb orb].
    4:{ assert (Hset : Dict.set (lit "LICENSE") CodeGenerator.MIT_LICENSE files
                       = files ++ [(lit "LICENSE", CodeGenerator.MIT_LICENSE)])
          by exact (set_fresh _ _ _ (mem_false_fresh _ _ EL)).
        assert (Hmem : Dict.mem (lit "README.md")
                         (files ++ [(lit "LICENSE", CodeGenerator.MIT_LICENSE)])
                       = Dict.mem (lit "README.md") files)
          by (rewrite <- Hset; apply mem_set_other; discriminate).
        rewrite Hset, Hmem.
        destruct (Dict.mem (lit "README.md") files) eqn:ER; cbn [negb app];
          [reflexivity |].
        rewrite set_fresh
          by exact (mem_false_fresh _ _ Hmem).
        now rewrite <- app_assoc. }
    all: destruct (Dict.mem (lit "README.md") files) eqn:ER; cbn [negb app];
      [now rewrite app_nil_r
      | rewrite set_fresh by exact (mem_false_fresh _ _ ER); reflexivity].
  - intros brief' checks'. now apply add_required_files_fixed.
Qed.

(* ================================================================== *)
(** * The generator: the names of the files it returns *)
(* ================================================================== *)

Lemma set_not_empty {V} (k : str) (v : V) (d : Dict.t V) :
  Dict.set k v d <> [].
Proof.
  destruct d as [| [k' v'] d]; cbn [Dict.set]; [discriminate |].
  destruct (k' =s? k); discriminate.
Qed.

(** File sets with distinct, non-empty names. *)
Lemma named_set (k v : str) (d : Dict.t str) :
  k <> [] ->
  NoDup (Dict.keys d) /\ Forall (fun file => fst file <> []) d ->
  NoDup (Dict.keys (Dict.set k v d))
  /\ Forall (fun file : str * str => fst file <> []) (Dict.set k v d).
Proof.
  intros Hk [Hnd Hne]. split; [now apply NoDup_keys_set |].
  apply Forall_set; [| exact Hne]. now intros k' ->.
Qed.

Lemma named_save_attachment (files : Dict.t str) (att : attachment) :
  NoDup (Dict.keys files) /\ Forall (fun file => fst file <> []) files ->
  NoDup (Dict.keys (CodeGenerator.save_attachment files att))
  /\ Forall (fun file : str * str => fst file <> [])
       (CodeGenerator.save_attachment files att).
Proof.
  intros H. unfold CodeGenerator.save_attachment.
  destruct (CodeGenerator.name_or [] att) as [| c n]; [exact H |].
  destruct (Str.startswith (lit "data:") (CodeGenerator.url_of att));
    [| exact H].
  apply named_set; [discriminate | exact H].
Qed.

Lemma save_attachment_not_empty (files : Dict.t str) (att : attachment) :
  files <> [] -> CodeGenerator.save_attachment files att <> [].
Proof.
  intros H. unfold CodeGenerator.save_attachment.
  destruct (CodeGenerator.name_or [] att) as [| c n]; [exact H |].
  destruct (Str.startswith (lit "data:") (CodeGenerator.url_of att));
    [apply set_not_empty | exact H].
Qed.

Lemma named_parse_response (response : str) (attachments : list attachment) :
  let files := CodeGenerator._parse_response response attachments in
  files <> []
  /\ NoDup (Dict.keys files)
  /\ Forall (fun file : str * str => fst file <> []) files.
Proof.
  cbn zeta. unfold CodeGenerator._parse_response.
  assert (Hstart : let files := CodeGenerator.or_index_html response
                                  (CodeGenerator.parse_sections response) in
                   files <> []
                   /\ NoDup (Dict.keys files)
                   /\ Forall (fun file : str * str => fst file <> []) files).
  { cbn zeta. destruct (parse_sections_ok response) as [Hnd Hwf].
    destruct (CodeGenerator.parse_sections response) as [| file files].
    - unfold CodeGenerator.or_index_html.
      destruct (Str.contains (lit "<!DOCTYPE html>") response
                || Str.contains (lit "<html") response);
        cbn [Dict.set Dict.keys map fst];
        (split; [discriminate |]);
        (split; [repeat constructor; auto |]);
        repeat constructor; discriminate.
    - cbn [CodeGenerator.or_index_html].
      split; [discriminate |]. split; [exact Hnd |].
      eapply Forall_impl; [| exact Hwf].
      intros f Hf. apply Hf. }
  cbn zeta in Hstart. revert Hstart.
  generalize (CodeGenerator.or_index_html response
                (CodeGenerator.parse_sections response)).
  induction attachments as [| att attachments IH]; intros files Hfiles;
    cbn [fold_left]; [exact Hfiles |].
  apply IH. destruct Hfiles as (Hne & Hnamed).
  split; [now apply save_attachment_not_empty |].
  now apply named_save_attachment.
Qed.

Lemma named_add_required_files (files : Dict.t str) (brief : str)
  (checks : list str) :
  NoDup (Dict.keys files) /\ Forall (fun file => fst file <> []) files ->
  NoDup (Dict.keys (CodeGenerator._add_required_files files brief checks))
  /\ Forall (fun file : str * str => fst file <> [])
       (CodeGenerator._add_required_files files brief checks).
Proof.
  intros H. unfold CodeGenerator._add_required_files.
  match goal with
  | |- context [if ?b then Dict.set ?k ?v files else files] =>
      set (files1 := if b then Dict.set k v files else files);
      assert (H1 : NoDup (Dict.keys files1)
                   /\ Forall (fun file : str * str => fst file <> []) files1)
        by (subst files1; destruct b;
            [apply named_set; [discriminate | exact H] | exact H]);
      clearbody files1
  end.
  destruct (negb (Dict.mem (lit "README.md") files1)); [| exact H1].
  apply named_set; [discriminate | exact H1].
Qed.

(** X4.  The file set [_parse_response] builds from any completion and
    any attachments is never empty, and its names are distinct and not
    empty.  So is every file set [generate_app] returns, which moreover
    has [README.md] and [LICENSE] or [LICENSE.md]. *)
Theorem generated_files_have_distinct_names :
  forall (World : Type) (api : forall c : call, World -> ret_ty c * World)
         (decode : str -> option str) (self : CodeGenerator.t)
         (brief : str) (checks : list str) (attachments : list attachment)
         (s : state World),
    (forall response : str,
        let files := CodeGenerator._parse_response response attachments in
        files <> []
        /\ NoDup (Dict.keys files)
        /\ Forall (fun name => name <> []) (Dict.keys files))
    /\
    match value (CodeGenerator.generate_app api decode self brief checks
                   attachments s) with
    | Ok files =>
        NoDup (Dict.keys files)
        /\ Forall (fun name => name <> []) (Dict.keys files)
        /\ Dict.mem (lit "README.md") files = true
        /\ (Dict.mem (lit "LICENSE") files
            || Dict.mem (lit "LICENSE.md") files) = true
    | Raise _ => True
    end.
Proof.
  intros World api decode self brief checks attachments s.
  assert (Hkeys : forall files : Dict.t str,
             Forall (fun file : str * str => fst file <> []) files ->
             Forall (fun name : str => name <> []) (Dict.keys files)).
  { intros files H. unfold Dict.keys. apply Forall_map. exact H. }
  split.
  - intros response. cbn zeta.
    destruct (named_parse_response response attachments) as (H1 & H2 & H3).
    auto.
  - destruct (generate_app_run World api decode self brief checks attachments s)
      as [_ Hfiles]. cbn zeta in Hfiles.
    destruct (value (CodeGenerator.generate_app api decode self brief checks
                       attachments s)) as [files | e]; [| exact I].
    destruct Hfiles as [response ->].
    destruct (named_parse_response response attachments) as (H1 & H2 & H3).
    destruct (named_add_required_files _ brief checks (conj H2 H3))
      as [H4 H5].
    destruct (add_required_files_complete
                (CodeGenerator._parse_response response attachments)
                brief checks) as [H6 H7].
    repeat split; auto.
Qed.

(* ================================================================== *)
(** * The generator: text around the sections *)
(* ================================================================== *)

(** Before the first delimiter line the scan keeps nothing. *)
Lemma scan_before_first_marker (lines : list str) :
  Forall plain lines ->
  forall files,
    fold_left CodeGenerator.scan_line lines
      {| CodeGenerator.files := files;
         CodeGenerator.current_file := None;
         CodeGenerator.current_content := [] |}
    = {| CodeGenerator.files := files;
         CodeGenerator.current_file := None;
         CodeGenerator.current_content := [] |}.
Proof.
  induction 1 as [| line lines Hline _ IH]; intros files; cbn [fold_left];
    [reflexivity |].
  unfold CodeGenerator.scan_line at 2. unfold plain in Hline.
  rewrite Hline. cbn [CodeGenerator.current_file CodeGenerator.truthy].
  apply IH.
Qed.

Lemma parse_sections_after_preamble (preamble rest : str) :
  Forall plain (Str.split NL preamble) ->
  CodeGenerator.parse_sections (preamble ++ NL :: rest)
  = CodeGenerator.parse_sections rest.
Proof.
  intros H. unfold CodeGenerator.parse_sections.
  rewrite split_app_sep, fold_left_app.
  now rewrite scan_before_first_marker.
Qed.

(** X5.  Lines before the first delimiter line are dropped by the scan:
    when no line of [preamble] is a delimiter line, the sections found in
    [preamble], a newline and [rest] are those found in [rest]; and when
    [rest] has a named section the whole file set is the same, for any
    attachments. *)
Theorem text_before_first_section_is_dropped :
  forall (preamble rest : str) (attachments : list attachment),
    forallb (fun line => negb (CodeGenerator.is_marker line))
      (Str.split NL preamble) = true ->
    CodeGenerator.parse_sections (preamble ++ NL :: rest)
    = CodeGenerator.parse_sections rest
    /\ match CodeGenerator.parse_sections rest with
       | [] => True
       | _ :: _ =>
           CodeGenerator._parse_response (preamble ++ NL :: rest) attachments
           = CodeGenerator._parse_response rest attachments
       end.
Proof.
  intros preamble rest attachments H. apply plain_forallb in H.
  pose proof (parse_sections_after_preamble preamble rest H) as Hsame.
  split; [exact Hsame |].
  unfold CodeGenerator._parse_response. rewrite Hsame.
  destruct (CodeGenerator.parse_sections rest); [exact I | reflexivity].
Qed.

Lemma text_before_first_section_is_dropped_witness :
  let preamble := text [lit "Here is the application you asked for."; lit ""] in
  let rest := text [lit "=== index.html ==="; lit "<h1>Hi</h1>"] in
  CodeGenerator._parse_response (preamble ++ NL :: rest) []
  = [(lit "index.html", lit "<h1>Hi</h1>")]
  /\ CodeGenerator._parse_response (preamble ++ NL :: rest) []
     = CodeGenerator._parse_response rest [].
Proof.
  cbn zeta. split; [vm_compute; reflexivity |].
  exact (proj2 (text_before_first_section_is_dropped
                  (text [lit "Here is the application you asked for."; lit ""])
                  (text [lit "=== index.html ==="; lit "<h1>Hi</h1>"]) []
                  eq_refl)).
Defined.

(* ================================================================== *)
(** * The generator: attachments the prompt does not list *)
(* ================================================================== *)

Lemma split1_without_sep (sep : char) (s : str) :
  ~ In sep s -> Str.split1 sep s = [s].
Proof.
  induction s as [| c s IH]; intros Hnot; cbn [Str.split1]; [reflexivity |].
  destruct (N.eqb_spec c sep) as [-> | Hne].
  - exfalso. apply Hnot. now left.
  - rewrite IH; [reflexivity |]. intros Hin. apply Hnot. now right.
Qed.

(** X6.  An attachment whose URL starts with [data:] and has no comma
    adds nothing to the prompt, not even its name: the attachment text is
    the heading followed by the lines of the other attachments.  It is
    stored in the file set all the same, under its name when that is not
    empty. *)
Theorem data_uri_without_comma_is_not_listed :
  forall (decode : str -> option str) (before after : list attachment)
         (att : attachment) (url : str),
    att_url att = Some url ->
    Str.startswith (lit "data:") url = true ->
    Str.contains [COMMA] url = false ->
    CodeGenerator._process_attachments decode (before ++ att :: after)
    = lit "Attachments:" ++ [NL]
        ++ concat (map (CodeGenerator.attachment_info decode) (before ++ after))
    /\ (forall (files : Dict.t str) (name : str),
           att_name att = Some name -> name <> [] ->
           CodeGenerator.save_attachment files att = Dict.set name url files).
Proof.
  intros decode before after att url Hurl Hdata Hcomma.
  assert (Hinfo : CodeGenerator.attachment_info decode att = []).
  { unfold CodeGenerator.attachment_info, CodeGenerator.url_of.
    rewrite Hurl, Hdata. rewrite split1_without_sep; [reflexivity |].
    now apply contains_char. }
  split.
  - unfold CodeGenerator._process_attachments.
    destruct (before ++ att :: after) as [| a l] eqn:E.
    { destruct before; discriminate. }
    rewrite <- E, fold_left_append, !map_app, !concat_app.
    cbn [map concat]. rewrite Hinfo. cbn [app].
    now rewrite <- app_assoc.
  - intros files name Hname Hne.
    unfold CodeGenerator.save_attachment, CodeGenerator.name_or,
      CodeGenerator.url_of.
    rewrite Hname, Hurl, Hdata. destruct name; [contradiction | reflexivity].
Qed.

Lemma data_uri_without_comma_is_not_listed_witness :
  let att := {| att_name := Some (lit "logo.png");
                att_url := Some (lit "data:image/png;base64") |} in
  CodeGenerator._process_attachments Sim.no_decoder [att]
  = lit "Attachments:" ++ [NL]
  /\ CodeGenerator.save_attachment [] att
     = [(lit "logo.png", lit "data:image/png;base64")].
Proof.
  cbn zeta.
  pose proof (data_uri_without_comma_is_not_listed Sim.no_decoder [] []
                {| att_name := Some (lit "logo.png");
                   att_url := Some (lit "data:image/png;base64") |}
                (lit "data:image/png;base64") eq_refl eq_refl eq_refl)
    as [Hinfo Hsave].
  split; [exact Hinfo |].
  apply (Hsave [] (lit "logo.png") eq_refl). discriminate.
Defined.

(* ================================================================== *)
(** * The update path: writing one file *)
(* ================================================================== *)

(** X7.  What [_update_or_create_file] calls and returns, by the answers
    it gets.  The file is published as [published_as] says.  It first
    reads the file; when that succeeds it updates the file with the
    identifier read; when the read or the update raises a
    [GithubException] of status 404 it creates the file, and returns what
    the creation returns; any other exception is raised again and nothing
    more is called. *)
Theorem update_or_create_file_contract :
  forall (World : Type) (api : forall c : call, World -> ret_ty c * World)
         (self : GitHubManager.t) (repo : Repository)
         (filename content : str) (s : state World),
    let item := published_as (filename, content) in
    let get := get_contents repo (fst item) in
    let update := fun file_sha =>
      update_file repo (fst item) (lit "Update " ++ fst item) (snd item)
        file_sha (lit "main") in
    let create :=
      create_file repo (fst item) (lit "Add " ++ fst item) (snd item)
        (lit "main") in
    let r := GitHubManager._update_or_create_file api self repo filename
               content s in
    let s1 := final (perform api get s) in
    let creates := fun (before : list event) (s' : state World) =>
      value r = fst (api create (world s'))
      /\ events r = before ++ [Called create (fst (api create (world s')))] in
    match fst (api get (world s)) with
    | Ok file_sha =>
        match fst (api (update file_sha) (world s1)) with
        | Ok _ =>
            value r = Ok tt
            /\ events r = [Called get (Ok file_sha);
                           Called (update file_sha) (Ok tt)]
        | Raise e =>
            if is_404 e
            then creates [Called get (Ok file_sha);
                          Called (update file_sha) (Raise e)]
                   (final (perform api (update file_sha) s1))
            else value r = Raise e
                 /\ events r = [Called get (Ok file_sha);
                                Called (update file_sha) (Raise e)]
        end
    | Raise e =>
        if is_404 e
        then creates [Called get (Raise e)] s1
        else value r = Raise e /\ events r = [Called get (Raise e)]
    end.
Proof.
  intros World api self repo filename content s. cbn zeta.
  unfold GitHubManager._update_or_create_file.
  assert (Hitem : (if Str.startswith (lit "data:") content
                   then (GitHubManager.reference_path filename,
                         GitHubManager.reference_text filename content)
                   else (filename, content))
                  = published_as (filename, content)) by reflexivity.
  rewrite Hitem. destruct (published_as (filename, content))
    as [filename' content']. cbn [fst snd].
  unfold try_except, bind, raising, GitHubManager.gh.
  rewrite perform_run. cbn [value events final world].
  destruct (fst (api (get_contents repo filename') (world s)))
    as [file_sha | e].
  - rewrite perform_run. cbn [value events final world].
    match goal with
    | |- context [fst (api (update_file ?a ?b ?c ?d ?e ?f) ?w)] =>
        destruct (fst (api (update_file a b c d e f) w)) as [[] | e']
    end; cbn [value events final world app].
    + split; reflexivity.
    + destruct e'; cbn [is_404 raise value events app];
        try (split; reflexivity).
      destruct (status =? 404); cbn [raise value events app];
        [| split; reflexivity].
      rewrite perform_run. cbn [value events final world].
      match goal with
      | |- context [fst (api (create_file ?a ?b ?c ?d ?e) ?w)] =>
          destruct (fst (api (create_file a b c d e) w)) as [[] | e'']
      end; cbn [value events final world app raise]; split; reflexivity.
  - destruct e; cbn [is_404 raise value events app]; try (split; reflexivity).
    destruct (status =? 404); cbn [raise value events app];
      [| split; reflexivity].
    rewrite perform_run. cbn [value events final world].
    match goal with
    | |- context [fst (api (create_file ?a ?b ?c ?d ?e) ?w)] =>
        destruct (fst (api (create_file a b c d e) w)) as [[] | e'']
    end; cbn [value events final world app raise]; split; reflexivity.
Qed.

(* ================================================================== *)
(** * The update path: the loop over the files and the result *)
(* ================================================================== *)

Section UpdatePath.
Variable World : Type.
Variable api : forall c : call, World -> ret_ty c * World.
Variable self : GitHubManager.t.

(** The [except GithubException] clause of [update_repo] raises what it
    caught: the function is the body of its [try] statement. *)
Lemma update_repo_body repo_name files (s : state World) :
  let body :=
    (repo <- raising (GitHubManager.gh api (user_get_repo repo_name)) ;;
     for_each (Dict.items files)
       (fun '(filename, content) =>
          GitHubManager._update_or_create_file api self repo filename
            content) ;;
     latest_commit <-
       raising (GitHubManager.gh api (get_commits_first repo)) ;;
     let pages_url := GitHubManager.pages_url_of self repo_name in
     try_except (GitHubManager._enable_pages api self repo ;; ret tt)
       (fun _ => Some (ret tt)) ;;
     ret (html_url repo, latest_commit, pages_url))%py in
  GitHubManager.update_repo api self repo_name files s = body s.
Proof.
  cbn zeta. unfold GitHubManager.update_repo. unfold try_except at 1.
  match goal with
  | |- context [bind ?m ?f s] => destruct (bind m f s) as [[v | e] evs s1]
  end; [reflexivity |].
  destruct (is_GithubException e); cbn [raise]; [| reflexivity].
  now rewrite app_nil_r.
Qed.

(** A loop stops at the first iteration that raises. *)
Lemma for_each_stops {A} (body : A -> M World unit) (before after : list A)
  (x : A) (e : exn) :
  forall s,
    value (for_each before body s) = Ok tt ->
    value (body x (final (for_each before body s))) = Raise e ->
    for_each (before ++ x :: after) body s
    = Run (Raise e)
        (events (for_each before body s)
         ++ events (body x (final (for_each before body s))))
        (final (body x (final (for_each before body s)))).
Proof.
  induction before as [| y before IH]; intros s Hdone Hfail;
    cbn [app for_each] in *.
  - unfold ret in *. cbn [value events final app] in *.
    rewrite (bind_raise _ _ _ _ _ Hfail). reflexivity.
  - destruct (bind_ok_inv _ _ _ _ _ Hdone) as ([] & Hy & Hrest & Hev).
    rewrite (bind_ok World (body y) (fun _ => for_each before body) s tt Hy)
      in Hfail.
    rewrite (bind_ok World (body y) (fun _ => for_each before body) s tt Hy).
    rewrite (bind_ok World (body y)
               (fun _ => for_each (before ++ x :: after) body) s tt Hy).
    cbn [value events final] in *.
    rewrite (IH _ Hrest Hfail). cbn [value events final].
    now rewrite app_assoc.
Qed.

(** What a loop that ended normally has stored. *)
Lemma for_each_stores repo (files : list (str * str)) (s : state World) :
  let done :=
    for_each files
      (fun '(filename, content) =>
         GitHubManager._update_or_create_file api self repo filename content)
      s in
  value done = Ok tt ->
  Forall (fun file => Exists (stores (published_as file)) (events done)) files.
Proof.
  cbn zeta. intros Hdone. apply Forall_forall. intros [filename content] Hin.
  destruct (for_each_ok World _ _ _ Hdone (filename, content) Hin)
    as (s' & Hok & Hincl).
  pose proof (update_or_create_stores World api self repo filename content s')
    as Hst.
  cbn zeta in Hst. cbn beta iota in Hok. rewrite Hok in Hst.
  eapply Exists_incl; eassumption.
Qed.
End UpdatePath.

(** X8.  The update path writes the files one after the other and stops
    at the first that fails: when the repository is found, the files of
    [before] are written and writing [file] raises [e], [update_repo]
    raises [e]; its calls are the request for the repository, the writes
    of [before] and the failed write, so no file of [after] is read or
    written, while every file of [before] has been stored. *)
Theorem update_stops_at_first_failure :
  forall (World : Type) (api : forall c : call, World -> ret_ty c * World)
         (self : GitHubManager.t) (repo_name : str) (repo : Repository)
         (before after : list (str * str)) (file : str * str) (e : exn)
         (s : state World),
    let get := user_get_repo repo_name in
    let write := fun '(filename, content) =>
      GitHubManager._update_or_create_file api self repo filename content in
    let done := for_each before write (final (perform api get s)) in
    let failing := write file (final done) in
    fst (api get (world s)) = Ok repo ->
    value done = Ok tt ->
    value failing = Raise e ->
    let r := GitHubManager.update_repo api self repo_name
               (before ++ file :: after) s in
    value r = Raise e
    /\ events r = Called get (Ok repo) :: events done ++ events failing
    /\ Forall (fun written =>
                 Exists (stores (published_as written)) (events r)) before
    /\ Forall (prepared (before ++ [file])) (events r).
Proof.
  intros World api self repo_name repo before after file e s
    get write done failing Hget Hdone Hfail r.
  assert (Hr : r = Run (Raise e)
                     (Called get (Ok repo) :: events done ++ events failing)
                     (final failing)).
  { subst r. rewrite update_repo_body. cbn zeta.
    unfold bind at 1. unfold raising at 1, GitHubManager.gh at 1.
    fold get. rewrite perform_run, Hget. cbn beta iota.
    unfold bind at 1. unfold Dict.items.
    pose proof (for_each_stops World write before after file e
                  (final (perform api get s)) Hdone Hfail) as Hloop.
    rewrite perform_run in Hloop. cbn [final] in Hloop.
    fold write. rewrite Hloop. cbn beta iota.
    subst done failing. rewrite perform_run. reflexivity. }
  rewrite Hr. cbn [value events].
  split; [reflexivity |]. split; [reflexivity |]. split.
  - pose proof (for_each_stores World api self repo before _ Hdone) as Hst.
    cbn zeta in Hst. eapply Forall_impl; [| exact Hst].
    cbn beta. intros written Hex.
    apply Exists_cons_tl. apply Exists_app. now left.
  - constructor; [exact I |].
    apply Forall_app. split.
    + subst done. apply emits_for_each. intros [filename content] Hin.
      apply prepared_update_or_create_file. apply in_or_app. now left.
    + subst failing write. destruct file as [filename content].
      apply prepared_update_or_create_file. apply in_or_app. right. now left.
Qed.

Lemma update_stops_at_first_failure_witness :
  let files := [(lit "index.html", lit "<h1>Hi</h1>");
                (lit "data.csv", lit "a,b");
                (lit "README.md", lit "# App")] in
  let r := GitHubManager.update_repo (Sim.api_failing_on (lit "data.csv"))
             {| GitHubManager.username := lit "user" |} (lit "demo") files
             (Sim.boot Sim.with_demo) in
  value r = Raise Sim.server_error
  /\ Exists (stores (lit "index.html", lit "<h1>Hi</h1>")) (events r)
  /\ Forall (prepared [(lit "index.html", lit "<h1>Hi</h1>");
                       (lit "data.csv", lit "a,b")]) (events r).
Proof.
  cbn zeta.
  pose proof (update_stops_at_first_failure Sim.t
                (Sim.api_failing_on (lit "data.csv"))
                {| GitHubManager.username := lit "user" |} (lit "demo")
                (Sim.repo_at (lit "demo"))
                [(lit "index.html", lit "<h1>Hi</h1>")]
                [(lit "README.md", lit "# App")]
                (lit "data.csv", lit "a,b") Sim.server_error
                (Sim.boot Sim.with_demo) eq_refl eq_refl eq_refl)
    as (Hv & _ & Hst & Hprep).
  split; [exact Hv |]. split; [| exact Hprep].
  inversion Hst as [| ? ? Hfirst _]. exact Hfirst.
Defined.

(** X9.  When the repository is found, every file is written and the
    latest commit is read, [update_repo] returns the URL of the
    repository, the identifier of that commit and the pages URL made of
    the user name and the repository name given.  Enabling the pages is
    its last call and its answer does not matter: no exception it raises
    makes the update fail. *)
Theorem update_result_ignores_pages :
  forall (World : Type) (api : forall c : call, World -> ret_ty c * World)
         (self : GitHubManager.t) (repo_name : str) (repo : Repository)
         (files : Dict.t str) (latest_commit : str) (s : state World),
    let get := user_get_repo repo_name in
    let write := fun '(filename, content) =>
      GitHubManager._update_or_create_file api self repo filename content in
    let done := for_each files write (final (perform api get s)) in
    let commits := get_commits_first repo in
    let pages := create_pages_site repo (lit "main") (lit "/") in
    fst (api get (world s)) = Ok repo ->
    value done = Ok tt ->
    fst (api commits (world (final done))) = Ok latest_commit ->
    let r := GitHubManager.update_repo api self repo_name files s in
    value r = Ok (html_url repo, latest_commit,
                  lit "https://" ++ GitHubManager.username self
                    ++ lit ".github.io/" ++ repo_name ++ lit "/")
    /\ exists answer,
         events r = Called get (Ok repo) :: events done
                    ++ [Called commits (Ok latest_commit);
                        Called pages answer].
Proof.
  intros World api self repo_name repo files latest_commit s
    get write done commits pages Hget Hdone Hcommits r.
  set (s3 := final (perform api commits (final done))).
  assert (Hr : r = Run (Ok (html_url repo, latest_commit,
                            GitHubManager.pages_url_of self repo_name))
                     (Called get (Ok repo) :: events done
                      ++ [Called commits (Ok latest_commit);
                          Called pages (fst (api pages (world s3)))])
                     (final (perform api pages s3))).
  { subst r. rewrite update_repo_body. cbn zeta.
    unfold bind at 1. unfold raising at 1, GitHubManager.gh at 1.
    fold get. rewrite perform_run, Hget. cbn beta iota.
    unfold Dict.items. fold write.
    assert (Hd : for_each files write
                   {| world := snd (api get (world s));
                      processing_status := processing_status s;
                      tasks_db := tasks_db s |}
                 = Run (Ok tt) (events done) (final done)).
    { subst done. rewrite perform_run. cbn [final].
      rewrite perform_run in Hdone. cbn [final] in Hdone.
      rewrite (run_eta World (for_each files write _)) at 1.
      now rewrite Hdone. }
    unfold bind at 1. rewrite Hd. cbn beta iota.
    unfold bind at 1. unfold raising at 1, GitHubManager.gh at 1.
    fold commits. rewrite perform_run, Hcommits. cbn beta iota.
    unfold bind at 1. unfold try_except at 1. unfold bind at 1.
    unfold GitHubManager._enable_pages at 1. unfold bind at 1.
    unfold try_except at 1. unfold raising at 1, GitHubManager.gh at 1.
    fold pages. subst s3. rewrite !perform_run. cbn [final world].
    match goal with
    | |- context [fst (api pages ?w)] =>
        destruct (fst (api pages w)) as [[] | e]
    end; cbn [ret raise value events final app is_GithubException].
    - reflexivity.
    - destruct (is_GithubException e);
        cbn [ret raise value events final app]; reflexivity. }
  rewrite Hr. cbn [value events]. split; [reflexivity |].
  eexists. reflexivity.
Qed.

Lemma update_result_ignores_pages_witness :
  let r := GitHubManager.update_repo (Sim.api_failing_on (lit "none"))
             {| GitHubManager.username := lit "user" |} (lit "demo")
             [(lit "index.html", lit "<h1>Hi</h1>")]
             (Sim.boot Sim.with_demo) in
  value r = Ok (lit "https://github.com/user/demo", lit "sha1",
                lit "https://user.github.io/demo/")
  /\ Exists (fun e => e = Called (create_pages_site
                                    (Sim.repo_at (lit "demo"))
                                    (lit "main") (lit "/"))
                          (Raise Sim.server_error)) (events r).
Proof.
  cbn zeta.
  pose proof (update_result_ignores_pages Sim.t
                (Sim.api_failing_on (lit "none"))
                {| GitHubManager.username := lit "user" |} (lit "demo")
                (Sim.repo_at (lit "demo"))
                [(lit "index.html", lit "<h1>Hi</h1>")] (lit "sha1")
                (Sim.boot Sim.with_demo) eq_refl eq_refl eq_refl)
    as (Hv & answer & Hev).
  split; [exact Hv |].
  vm_compute. do 4 apply Exists_cons_tl. apply Exists_cons_hd. reflexivity.
Defined.

(* ================================================================== *)
(** * Checking that a repository is accessible *)
(* ================================================================== *)

Lemma last_split (sep : char) (base name : str) :
  ~ In sep name ->
  last (Str.split sep (base ++ sep :: name)) [] = name.
Proof.
  intros Hname. rewrite split_app_sep, (split_single sep name Hname).
  apply last_last.
Qed.

(** X10.  [verify_repo_accessible] never raises.  For a URL that ends in
    [/name], it asks once for the repository [name] of the authenticated
    user, whatever precedes the last [/], and answers whether that
    request succeeded; after a trailing [/] the name asked for is
    empty. *)
Theorem verify_repo_accessible_asks_for_last_segment :
  forall (World : Type) (api : forall c : call, World -> ret_ty c * World)
         (self : GitHubManager.t) (base name : str) (s : state World),
    ~ In SLASH name ->
    let get := user_get_repo name in
    GitHubManager.verify_repo_accessible api self (base ++ SLASH :: name) s
    = Run (Ok (match fst (api get (world s)) with
               | Ok _ => true
               | Raise _ => false
               end))
        [Called get (fst (api get (world s)))]
        (final (perform api get s)).
Proof.
  intros World api self base name s Hname. cbn zeta.
  unfold GitHubManager.verify_repo_accessible. rewrite (last_split _ _ _ Hname).
  unfold try_except, bind, raising, GitHubManager.gh.
  rewrite perform_run. cbn [final].
  destruct (fst (api (user_get_repo name) (world s))) as [repo | e];
    cbn [ret value events final app]; reflexivity.
Qed.

Lemma verify_repo_accessible_asks_for_last_segment_witness :
  let self := {| GitHubManager.username := lit "user" |} in
  value (GitHubManager.verify_repo_accessible Sim.api self
           (lit "https://github.com/someone-else/demo")
           (Sim.boot Sim.with_demo)) = Ok true
  /\ value (GitHubManager.verify_repo_accessible Sim.api self
              (lit "https://github.com/user/demo/")
              (Sim.boot Sim.with_demo)) = Ok false.
Proof.
  cbn zeta. split.
  - change (lit "https://github.com/someone-else/demo")
      with (lit "https://github.com/someone-else" ++ SLASH :: lit "demo").
    rewrite (verify_repo_accessible_asks_for_last_segment Sim.t Sim.api
               {| GitHubManager.username := lit "user" |}
               (lit "https://github.com/someone-else") (lit "demo")
               (Sim.boot Sim.with_demo)).
    + reflexivity.
    + cbn. unfold SLASH. intuition discriminate.
  - change (lit "https://github.com/user/demo/")
      with (lit "https://github.com/user/demo" ++ SLASH :: []).
    rewrite (verify_repo_accessible_asks_for_last_segment Sim.t Sim.api
               {| GitHubManager.username := lit "user" |}
               (lit "https://github.com/user/demo") []
               (Sim.boot Sim.with_demo)).
    + reflexivity.
    + intros [].
Defined.

(* ================================================================== *)
(** * Whom each stage of the pipeline addresses *)
(* ================================================================== *)

Ltac emits_calls := repeat (emits_step; try reflexivity).

Section Parties.
Variable World : Type.
Variable api : forall c : call, World -> ret_ty c * World.

Lemma attempts_address url data max_retries pairs :
  emits (addresses to_evaluation)
    (Evaluator.attempts api url data max_retries pairs).
Proof.
  induction pairs as [| [attempt_no delay] rest IH]; cbn [Evaluator.attempts].
  - apply emits_ret.
  - apply emits_bind.
    + unfold Evaluator.attempt, Evaluator.post.
      apply emits_try_except.
      * apply emits_bind; [apply emits_print | intros _].
        apply emits_bind; [apply emits_bind |].
        -- emits_calls.
        -- intros [code | m | m | m]; emits_calls.
        -- intros code. emits_calls.
      * intros e h He. destruct e; inversion He; apply emits_ret.
    + intros [b |]; [apply emits_ret |].
      apply emits_bind; [| intros _; exact IH].
      unfold Evaluator.sleep. emits_calls.
Qed.

Lemma generate_app_addresses decode self brief checks attachments :
  emits (addresses to_back_end)
    (CodeGenerator.generate_app api decode self brief checks attachments).
Proof.
  unfold CodeGenerator.generate_app, CodeGenerator._call_llm,
    CodeGenerator._call_backend.
  apply emits_bind; [| intros; apply emits_ret].
  emits_calls.
Qed.

Local Abbreviation platform := (emits (World := World) (addresses to_platform)).

Lemma enable_pages_addresses self repo :
  platform (GitHubManager._enable_pages api self repo).
Proof.
  unfold GitHubManager._enable_pages, GitHubManager.gh.
  apply emits_bind; [| intros; apply emits_ret].
  apply emits_try_except; [emits_calls |].
  intros e h He. destruct (is_GithubException e); inversion He.
  apply emits_ret.
Qed.

Lemma create_blobs_address repo items :
  forall elements,
    platform (GitHubManager.create_blobs api repo items elements).
Proof.
  induction items as [| [filename content] rest IH]; intros elements;
    cbn [GitHubManager.create_blobs].
  - apply emits_ret.
  - destruct (Str.startswith (lit "data:") content);
      (apply emits_bind;
       [unfold GitHubManager.gh; emits_calls | intros; apply IH]).
Qed.

Lemma create_initial_commit_addresses self repo files :
  platform (GitHubManager._create_initial_commit api self repo files).
Proof.
  unfold GitHubManager._create_initial_commit, GitHubManager.gh.
  apply emits_bind; [apply create_blobs_address | intros elements].
  apply emits_bind; [emits_calls | intros tree].
  apply emits_bind; [emits_calls | intros commit_sha].
  apply emits_bind; [| intros; apply emits_ret].
  apply emits_try_except; [emits_calls |].
  intros e h He. inversion He. emits_calls.
Qed.

Lemma update_or_create_file_addresses self repo filename content :
  platform (GitHubManager._update_or_create_file api self repo filename
              content).
Proof.
  unfold GitHubManager._update_or_create_file, GitHubManager.gh.
  apply emits_try_except.
  - destruct (Str.startswith (lit "data:") content);
      (apply emits_try_except; [emits_calls |];
       intros e h He; destruct e; inversion He; emits_calls).
  - intros e h He. inversion He. apply emits_raise.
Qed.

Lemma update_repo_addresses self repo_name files :
  platform (GitHubManager.update_repo api self repo_name files).
Proof.
  unfold GitHubManager.update_repo, GitHubManager.gh.
  apply emits_try_except.
  - apply emits_bind; [emits_calls | intros repo].
    apply emits_bind.
    { apply emits_for_each. intros [filename content] Hin.
      apply update_or_create_file_addresses. }
    intros _.
    apply emits_bind; [emits_calls | intros latest].
    apply emits_bind; [| intros; apply emits_ret].
    apply emits_try_except.
    + apply emits_bind;
        [apply enable_pages_addresses | intros; apply emits_ret].
    + intros e h He. inversion He. apply emits_ret.
  - intros e h He. destruct (is_GithubException e); inversion He.
    apply emits_raise.
Qed.

Lemma create_repo_addresses self repo_name files description :
  platform (GitHubManager.create_repo api self repo_name files description).
Proof.
  unfold GitHubManager.create_repo, GitHubManager.create_repo_try,
    GitHubManager.gh.
  apply emits_try_except.
  - apply emits_bind; [emits_calls | intros repo].
    apply emits_bind; [emits_calls | intros _].
    apply emits_bind;
      [apply create_initial_commit_addresses | intros commit_sha].
    apply emits_bind; [apply enable_pages_addresses | intros pages_url].
    emits_calls.
  - intros e h He. destruct e; inversion He.
    apply emits_if; [apply update_repo_addresses | apply emits_raise].
Qed.

End Parties.

(** X11.  Each stage calls its own party only: [generate_app] the
    text-generation back end, [create_repo] and [update_repo] the hosting
    platform and [time.sleep], [submit_to_evaluation] the evaluation
    server and [time.sleep].  None of them writes to the tracker or starts
    a thread. *)
Theorem stages_address_their_own_party :
  forall (World : Type) (api : forall c : call, World -> ret_ty c * World),
    (forall decode self brief checks attachments,
        emits (addresses to_back_end)
          (CodeGenerator.generate_app api decode self brief checks
             attachments))
    /\ (forall self repo_name files description,
           emits (addresses to_platform)
             (GitHubManager.create_repo api self repo_name files description))
    /\ (forall self repo_name files,
           emits (addresses to_platform)
             (GitHubManager.update_repo api self repo_name files))
    /\ (forall url data max_retries,
           emits (addresses to_evaluation)
             (Evaluator.submit_to_evaluation api url data max_retries)).
Proof.
  intros World api.
  split; [intros; apply generate_app_addresses |].
  split; [intros; apply create_repo_addresses |].
  split; [intros; apply update_repo_addresses |].
  intros. apply attempts_address.
Qed.

(* ================================================================== *)
(** * The pipeline: the report, the tracker and the task table *)
(* ================================================================== *)




Section PipelineEnd.
Variable World : Type.
Variable api : forall c : call, World -> ret_ty c * World.
Variable decode : str -> option str.
Variable cfg : config.
Variable task_data : task_request.

Local Abbreviation task_id := (task task_data).
Local Abbreviation gh_manager :=
  {| GitHubManager.username := GITHUB_USERNAME cfg |}.
Local Abbreviation generator :=
  (CodeGenerator.__init__ (LLM_API_KEY cfg) (LLM_PROVIDER cfg)).
Local Abbreviation wrote step := (Tracker task_id (step_record (lit step))).

(** The state the [except] clause of the pipeline leaves. *)
Local Abbreviation failed e s' :=
  {| world := snd (api datetime_utcnow (world s'));
     processing_status :=
       Dict.set task_id
         (error_record e (fst (api datetime_utcnow (world s'))))
         (processing_status s');
     tasks_db := tasks_db s' |}.

(** The state the end of the [try] block leaves. *)
Local Abbreviation finished record s' :=
  {| world := snd (api datetime_utcnow (world s'));
     processing_status := Dict.set task_id record (processing_status s');
     tasks_db := Dict.set (task_key task_data) (task_data, record)
                   (tasks_db s') |}.

Lemma process_task_async_final (s : state World) :
  let s2 := at_step task_id (lit "generating_code")
              (at_step task_id (lit "initializing") s) in
  let g := CodeGenerator.generate_app api decode generator (brief task_data)
             (checks task_data) (attachments task_data) s2 in
  let r := App.process_task_async api decode cfg task_data s in
  match value g with
  | Raise e => final r = failed e (final g)
  | Ok code_files =>
      let p := App.publish api gh_manager task_id (round task_data)
                 code_files
                 (at_step task_id (lit "creating_repo") (final g)) in
      match value p with
      | Raise e => final r = failed e (final p)
      | Ok (repo_url, commit_sha, pages_url) =>
          let sub := Evaluator.submit_to_evaluation_default api
                       (evaluation_url task_data)
                       (App.submission_data task_data repo_url commit_sha
                          pages_url)
                       (at_step task_id (lit "submitting_evaluation")
                          (final p)) in
          match value sub with
          | Raise e => final r = failed e (final sub)
          | Ok success =>
              final r
              = finished
                  (done_record success repo_url commit_sha pages_url
                     (fst (api datetime_utcnow (world (final sub)))))
                  (final sub)
          end
      end
  end.
Proof.
  pose proof (process_task_try_run World api decode cfg task_data s) as Htry.
  cbn zeta in *.
  set (s2 := at_step task_id (lit "generating_code")
               (at_step task_id (lit "initializing") s)) in *.
  assert (H1 : App.set_status task_id
                 [(lit "status", JStr (lit "processing"));
                  (lit "step", JStr (lit "initializing"))] s
               = Run (Ok tt) [wrote "initializing"]
                   (at_step task_id (lit "initializing") s))
    by reflexivity.
  assert (H2 : App.set_step task_id (lit "generating_code")
                 (at_step task_id (lit "initializing") s)
               = Run (Ok tt) [wrote "generating_code"] s2).
  { apply (set_step_run World task_data (lit "initializing")).
    apply get_set_same. }
  pose proof (quiet_generate_app World api decode generator (brief task_data)
                (checks task_data) (attachments task_data) s2)
    as (_ & _ & Qg & _).
  destruct (CodeGenerator.generate_app api decode generator (brief task_data)
              (checks task_data) (attachments task_data) s2)
    as [[code_files | e] eg sg] eqn:Hg; cbn [value events final] in *.
  2:{ unfold App.process_task_async, try_except. rewrite Htry.
      unfold bind, App.utcnow. rewrite perform_run. reflexivity. }
  assert (H3 : App.set_step task_id (lit "creating_repo") sg
               = Run (Ok tt) [wrote "creating_repo"]
                   (at_step task_id (lit "creating_repo") sg)).
  { apply (set_step_run World task_data (lit "generating_code")).
    rewrite Qg. apply get_set_same. }
  pose proof (quiet_publish World api gh_manager task_id (round task_data)
                code_files (at_step task_id (lit "creating_repo") sg))
    as (_ & _ & Qp & _).
  destruct (App.publish api gh_manager task_id (round task_data) code_files
              (at_step task_id (lit "creating_repo") sg))
    as [[[[repo_url commit_sha] pages_url] | e] ep sp] eqn:Hp;
    cbn [value events final] in *.
  2:{ unfold App.process_task_async, try_except. rewrite Htry.
      unfold bind, App.utcnow. rewrite perform_run. reflexivity. }
  assert (H4 : App.set_step task_id (lit "submitting_evaluation") sp
               = Run (Ok tt) [wrote "submitting_evaluation"]
                   (at_step task_id (lit "submitting_evaluation") sp)).
  { apply (set_step_run World task_data (lit "creating_repo")).
    rewrite Qp. apply get_set_same. }
  destruct (Evaluator.submit_to_evaluation_default api (evaluation_url task_data)
          (App.submission_data task_data repo_url commit_sha pages_url)
          (at_step task_id (lit "submitting_evaluation") sp))
    as [[success | e] es ss] eqn:Hs; cbn [value events final] in *.
  2:{ unfold App.process_task_async, try_except. rewrite Htry.
      unfold bind, App.utcnow. rewrite perform_run. reflexivity. }
  clear Htry.
  eassert (Hr : App.process_task_try api decode cfg task_data s = Run _ _ _).
  { unfold App.process_task_try.
    step H1. step H2. step Hg. step H3. step Hp. step H4. step Hs.
    unfold bind at 1. unfold App.utcnow. rewrite perform_run. cbn beta iota.
    unfold bind at 1. rewrite set_status_run. cbn beta iota.
    unfold bind at 1. unfold App.get_status at 1. cbn [processing_status].
    rewrite get_set_same. cbn [ret]. cbn beta iota.
    unfold App.store_task. reflexivity. }
  unfold App.process_task_async, try_except. rewrite Hr.
  reflexivity.
Qed.
End PipelineEnd.

Section PipelineReport.
Variable World : Type.
Variable api : forall c : call, World -> ret_ty c * World.
Variable decode : str -> option str.
Variable cfg : config.
Variable task_data : task_request.

Local Abbreviation task_id := (task task_data).
Local Abbreviation gh_manager :=
  {| GitHubManager.username := GITHUB_USERNAME cfg |}.
Local Abbreviation generator :=
  (CodeGenerator.__init__ (LLM_API_KEY cfg) (LLM_PROVIDER cfg)).


End PipelineReport.



(** X14.  A run of the pipeline leaves the tracker entries of the other
    tasks as they were.  It adds to [tasks_db] only when it has not ended
    in the [except] clause: then the entry under the key of the request
    holds the request and the very record the tracker holds for the task;
    otherwise [tasks_db] is unchanged. *)
Theorem run_changes_only_its_own_entries :
  forall (World : Type) (api : forall c : call, World -> ret_ty c * World)
         (decode : str -> option str) (cfg : config)
         (task_data : task_request) (s : state World),
    let r := App.process_task_async api decode cfg task_data s in
    (forall other,
        other <> task task_data ->
        Dict.get other (processing_status (final r))
        = Dict.get other (processing_status s))
    /\ match Dict.get (task task_data) (processing_status (final r)) with
       | Some record =>
           tasks_db (final r)
           = if is_error record then tasks_db s
             else Dict.set (task_key task_data) (task_data, record)
                    (tasks_db s)
       | None => False
       end.
Proof.
  intros World api decode cfg task_data s. cbn zeta.
  pose proof (process_task_async_final World api decode cfg task_data s)
    as Hfinal.
  cbn zeta in *.
  pose proof (quiet_generate_app World api decode
                (CodeGenerator.__init__ (LLM_API_KEY cfg) (LLM_PROVIDER cfg))
                (brief task_data) (checks task_data) (attachments task_data)
                (at_step (task task_data) (lit "generating_code")
                   (at_step (task task_data) (lit "initializing") s)))
    as (_ & _ & Qg & Tg).
  destruct (CodeGenerator.generate_app api decode _ (brief task_data)
              (checks task_data) (attachments task_data) _)
    as [[code_files | e] eg sg]; cbn [value events final] in *.
  2:{ rewrite Hfinal. cbn [processing_status tasks_db]. split.
      - intros other Hother. rewrite get_set_other by congruence.
        rewrite Qg. cbn [at_step processing_status].
        now rewrite !get_set_other by congruence.
      - rewrite get_set_same. cbn. exact Tg. }
  pose proof (quiet_publish World api
                {| GitHubManager.username := GITHUB_USERNAME cfg |}
                (task task_data) (round task_data) code_files
                (at_step (task task_data) (lit "creating_repo") sg))
    as (_ & _ & Qp & Tp).
  destruct (App.publish api _ (task task_data) (round task_data) code_files _)
    as [[[[repo_url commit_sha] pages_url] | e] ep sp];
    cbn [value events final] in *.
  2:{ rewrite Hfinal. cbn [processing_status tasks_db]. split.
      - intros other Hother. rewrite get_set_other by congruence.
        rewrite Qp. cbn [at_step processing_status].
        rewrite get_set_other by congruence. rewrite Qg.
        cbn [at_step processing_status].
        now rewrite !get_set_other by congruence.
      - rewrite get_set_same. cbn. rewrite Tp. exact Tg. }
  pose proof (quiet_submit World api (evaluation_url task_data)
                (App.submission_data task_data repo_url commit_sha pages_url)
                5 (at_step (task task_data) (lit "submitting_evaluation") sp))
    as (_ & _ & Qs & Ts).
  fold (Evaluator.submit_to_evaluation_default api (evaluation_url task_data)
          (App.submission_data task_data repo_url commit_sha pages_url))
    in Qs, Ts.
  destruct (Evaluator.submit_to_evaluation_default api
              (evaluation_url task_data) _ _)
    as [[success | e] es ss]; cbn [value events final] in *.
  2:{ rewrite Hfinal. cbn [processing_status tasks_db]. split.
      - intros other Hother. rewrite get_set_other by congruence.
        rewrite Qs. cbn [at_step processing_status].
        rewrite get_set_other by congruence. rewrite Qp.
        cbn [at_step processing_status].
        rewrite get_set_other by congruence. rewrite Qg.
        cbn [at_step processing_status].
        now rewrite !get_set_other by congruence.
      - rewrite get_set_same. cbn. rewrite Ts. cbn [at_step tasks_db].
        rewrite Tp. exact Tg. }
  rewrite Hfinal. cbn [processing_status tasks_db]. split.
  - intros other Hother. rewrite get_set_other by congruence.
    rewrite Qs. cbn [at_step processing_status].
    rewrite get_set_other by congruence. rewrite Qp.
    cbn [at_step processing_status].
    rewrite get_set_other by congruence. rewrite Qg.
    cbn [at_step processing_status].
    now rewrite !get_set_other by congruence.
  - rewrite get_set_same.
    replace (is_error (done_record success repo_url commit_sha pages_url _))
      with false by (destruct success; reflexivity).
    rewrite Ts. cbn [at_step tasks_db]. rewrite Tp. cbn [at_step tasks_db].
    rewrite Tg. reflexivity.
Qed.

Lemma run_changes_only_its_own_entries_witness :
  let waiting := [(lit "status", JStr (lit "processing"))] in
  let s := {| world := Sim.fresh;
              processing_status := [(lit "other", waiting)];
              tasks_db := [] |} in
  let r := App.process_task_async Sim.api Sim.no_decoder Sim.sample_config
             (Sim.demo_request 1) s in
  Dict.get (lit "other") (processing_status (final r)) = Some waiting
  /\ Dict.keys (tasks_db (final r)) = [lit "a@example.com_demo_1"].
Proof.
  cbn zeta.
  pose proof (run_changes_only_its_own_entries Sim.t Sim.api Sim.no_decoder
                Sim.sample_config (Sim.demo_request 1)
                {| world := Sim.fresh;
                   processing_status :=
                     [(lit "other", [(lit "status", JStr (lit "processing"))])];
                   tasks_db := [] |}) as [Hother _].
  split; [| vm_compute; reflexivity].
  rewrite (Hother (lit "other")); [reflexivity | discriminate].
Defined.

(** X15.  With a provider that is none of [gemini], [openai] and
    [anthropic] (once put in lower case), such as the default [groq] of
    [app.py], the pipeline calls neither the back end, nor the platform,
    nor the evaluation server: it only reads the clock, leaves a record
    [error] for the task whose message begins with
    [Unsupported provider: ], and stores nothing in [tasks_db].  For a
    provider written in ASCII the message ends with the provider in lower
    case. *)
Theorem unsupported_provider_ends_in_error :
  forall (World : Type) (api : forall c : call, World -> ret_ty c * World)
         (decode : str -> option str) (cfg : config)
         (task_data : task_request) (s : state World),
    let generator :=
      CodeGenerator.__init__ (LLM_API_KEY cfg) (LLM_PROVIDER cfg) in
    backend_of (CodeGenerator.provider generator) = None ->
    let r := App.process_task_async api decode cfg task_data s in
    let timestamp := fst (api datetime_utcnow (world s)) in
    exists message,
      calls (events r) = [datetime_utcnow]
      /\ App.check_status (task task_data) (final r)
         = Run (Ok (JObj [(lit "status", JStr (lit "error"));
                          (lit "error", JStr message);
                          (lit "timestamp", JStr timestamp)], 200))
             [] (final r)
      /\ tasks_db (final r) = tasks_db s
      /\ Str.startswith (lit "Unsupported provider: ") message = true
      /\ (Str.isascii (LLM_PROVIDER cfg) = true ->
          message
          = lit "Unsupported provider: "
              ++ map (fun c => if ((65 <=? c) && (c <=? 90))%N
                               then (c + 32)%N else c)
                   (LLM_PROVIDER cfg)).
Proof.
  intros World api decode cfg task_data s generator Hnone r timestamp.
  pose proof (process_task_async_final World api decode cfg task_data s)
    as Hfinal.
  destruct (process_task_async_run World api decode cfg task_data s)
    as [_ Hev].
  cbn zeta in *. fold generator in Hfinal, Hev. fold r in Hfinal, Hev.
  assert (Hg : forall s', CodeGenerator.generate_app api decode generator
                            (brief task_data) (checks task_data)
                            (attachments task_data) s'
                          = Run (Raise (ValueError
                                          (lit "Unsupported provider: "
                                           ++ CodeGenerator.provider generator)))
                              [] s').
  { intros s'. unfold CodeGenerator.generate_app, CodeGenerator._call_llm.
    unfold backend_of in Hnone.
    destruct (CodeGenerator.provider generator =s? lit "gemini");
      [discriminate |].
    destruct (CodeGenerator.provider generator =s? lit "openai");
      [discriminate |].
    destruct (CodeGenerator.provider generator =s? lit "anthropic");
      [discriminate |].
    reflexivity. }
  rewrite Hg in Hfinal, Hev. cbn [value events final] in Hfinal, Hev.
  exists (lit "Unsupported provider: " ++ CodeGenerator.provider generator).
  rewrite Hev, Hfinal. split; [reflexivity |]. split; [| split; [| split]].
  - unfold App.check_status. cbn [processing_status at_step world].
    rewrite get_set_same. reflexivity.
  - reflexivity.
  - reflexivity.
  - intros _. reflexivity.
Qed.

Lemma unsupported_provider_ends_in_error_witness :
  let cfg := {| SECRET_CODE := lit "secret"; GITHUB_TOKEN := lit "token";
                GITHUB_USERNAME := lit "user"; LLM_API_KEY := lit "key";
                LLM_PROVIDER := lit "groq" |} in
  let r := App.process_task_async Sim.api Sim.no_decoder cfg
             (Sim.demo_request 1) (Sim.boot Sim.fresh) in
  calls (events r) = [datetime_utcnow]
  /\ value (App.check_status (lit "demo") (final r))
     = Ok (JObj [(lit "status", JStr (lit "error"));
                 (lit "error", JStr (lit "Unsupported provider: groq"));
                 (lit "timestamp", JStr (lit "2025-01-01T00:00:00"))], 200).
Proof.
  cbn zeta.
  destruct (unsupported_provider_ends_in_error Sim.t Sim.api Sim.no_decoder
              {| SECRET_CODE := lit "secret"; GITHUB_TOKEN := lit "token";
                 GITHUB_USERNAME := lit "user"; LLM_API_KEY := lit "key";
                 LLM_PROVIDER := lit "groq" |}
              (Sim.demo_request 1) (Sim.boot Sim.fresh) eq_refl)
    as (message & Hcalls & Hstatus & _ & _ & Hmessage).
  split; [exact Hcalls |].
  rewrite (Hmessage eq_refl) in Hstatus.
  exact (f_equal (fun run => value run) Hstatus).
Defined.

(* ================================================================== *)
(** * The submission endpoint: the status code by kind of body *)
(* ================================================================== *)

(** X16.  The status code of [handle_task] by the kind of body.  A body
    that cannot be decoded gets 500 with the text of the exception.  A
    JSON object gets 200, 400, 403 or 500, and 500 only when the message
    of line 128 cannot be printed: the clock's text holds a surrogate, or
    the task or the round of the request is a string that holds one.  A
    JSON string or array is searched for the field names as an object
    would be: it gets 400 when one is not found and 500 otherwise;
    [null], a boolean and a number get 500.  For a body that is not an
    object nothing is called or changed. *)
Theorem answer_by_kind_of_body :
  forall (World : Type) (api : forall c : call, World -> ret_ty c * World)
         (cfg : config) (request_json : result json) (s : state World),
    let r := App.handle_task api cfg request_json s in
    match request_json with
    | Raise e => r = Run (Ok (error_body (exn_str e), 500)) [] s
    | Ok (JObj o) =>
        exists body code,
          value r = Ok (body, code)
          /\ (code = 200 \/ code = 400 \/ code = 403 \/ code = 500)
          /\ (code = 500 ->
              printable (fst (api datetime_utcnow (world s))) = false
              \/ (exists text, Dict.get (lit "task") o = Some (JStr text)
                               /\ printable text = false)
              \/ (exists text, Dict.get (lit "round") o = Some (JStr text)
                               /\ printable text = false))
    | Ok (JStr _) | Ok (JList _) =>
        exists body code,
          r = Run (Ok (body, code)) [] s /\ (code = 400 \/ code = 500)
    | Ok _ => exists body, r = Run (Ok (body, 500)) [] s
    end.
Proof.
  intros World api cfg request_json s. cbn zeta.
  destruct request_json as [task_data | e]; [| reflexivity].
  destruct task_data as [| b | z | t | l | o].
  1-3: (eexists; reflexivity).
  - unfold App.handle_task, try_except, bind.
    cbn [App.lift ret value events final app].
    destruct (App.first_missing App.required_fields (JStr t))
      as [[field |] | e]; cbn [App.lift ret raise value events final app];
      eexists _, _; (split; [reflexivity | auto]).
  - unfold App.handle_task, try_except, bind.
    cbn [App.lift ret value events final app].
    destruct (App.first_missing App.required_fields (JList l))
      as [[field |] | e]; cbn [App.lift ret raise value events final app];
      eexists _, _; (split; [reflexivity | auto]).
  - destruct (missing_fields o) as [| field rest] eqn:Hm.
    + destruct (handle_task_complete World api cfg o s Hm)
        as (secret & task_id & round_num & _ & Ht & Hr & Hrun).
      rewrite Hrun. destruct (App.secret_differs cfg secret).
      { eexists _, _. split; [reflexivity |]. split; [auto | discriminate]. }
      cbn zeta. rewrite printable_received_line.
      destruct (printable (fst (api datetime_utcnow (world s)))) eqn:Hnow;
        cbn [andb].
      2:{ eexists _, _. split; [reflexivity |]. split; [auto | auto]. }
      destruct (no_surrogate task_id) eqn:Htask; cbn [andb].
      2:{ eexists _, _. split; [reflexivity |]. split; [auto |].
          intros _. right. left.
          destruct task_id; try discriminate Htask. eauto. }
      destruct (no_surrogate round_num) eqn:Hround.
      2:{ eexists _, _. split; [reflexivity |]. split; [auto |].
          intros _. right. right.
          destruct round_num; try discriminate Hround. eauto. }
      eexists _, _. split; [reflexivity |]. split; [auto | discriminate].
    + rewrite (handle_task_missing World api cfg o field rest s Hm).
      eexists _, _. split; [reflexivity |]. split; [auto | discriminate].
Qed.

(* ================================================================== *)
(** * The generator: the brief and the checks in the texts it writes *)
(* ================================================================== *)

Lemma occurs_in_refl (s : str) : occurs_in s s.
Proof. exists [], []. now rewrite app_nil_r. Qed.

Lemma occurs_in_trans (a b c : str) :
  occurs_in a b -> occurs_in b c -> occurs_in a c.
Proof.
  intros (p & q & ->) (p' & q' & ->). exists (p' ++ p), (q ++ q').
  now rewrite <- !app_assoc.
Qed.

Lemma occurs_in_app_l (a b c : str) : occurs_in a b -> occurs_in a (b ++ c).
Proof.
  intros (p & q & ->). exists p, (q ++ c). now rewrite <- !app_assoc.
Qed.

Lemma occurs_in_app_r (a b c : str) : occurs_in a c -> occurs_in a (b ++ c).
Proof.
  intros (p & q & ->). exists (b ++ p), q. now rewrite <- !app_assoc.
Qed.

Lemma occurs_in_join (sep piece : str) (pieces : list str) :
  In piece pieces -> occurs_in piece (Str.join sep pieces).
Proof.
  induction pieces as [| p rest IH]; intros Hin; [destruct Hin |].
  destruct rest as [| p' rest'].
  - destruct Hin as [-> | []]. apply occurs_in_refl.
  - change (Str.join sep (p :: p' :: rest'))
      with (p ++ sep ++ Str.join sep (p' :: rest')).
    destruct Hin as [-> | Hin].
    + apply occurs_in_app_l, occurs_in_refl.
    + apply occurs_in_app_r, occurs_in_app_r, IH, Hin.
Qed.

(** X17.  The brief and every check reach the back end and the
    generated README as given: the prompt contains the brief, the
    attachment text and one line [- check] per check, and the README
    contains the brief and the same lines. *)
Theorem brief_and_checks_reach_prompt_and_readme :
  forall (brief : str) (checks : list str) (attachments_info : str)
         (files : Dict.t str),
    let prompt := CodeGenerator._create_prompt brief checks attachments_info in
    let readme := CodeGenerator._generate_readme brief checks files in
    occurs_in brief prompt
    /\ occurs_in attachments_info prompt
    /\ occurs_in brief readme
    /\ Forall (fun check =>
                 occurs_in (lit "- " ++ check) prompt
                 /\ occurs_in (lit "- " ++ check) readme) checks.
Proof.
  intros brief checks attachments_info files. cbn zeta.
  assert (Hchecks : forall check, In check checks ->
            occurs_in (lit "- " ++ check) (CodeGenerator.checks_str checks)).
  { intros check Hin. unfold CodeGenerator.checks_str, text.
    apply occurs_in_join.
    apply (in_map (fun check => lit "- " ++ check)). exact Hin. }
  assert (Hprompt : occurs_in (CodeGenerator.checks_str checks)
                      (CodeGenerator._create_prompt brief checks
                         attachments_info)).
  { unfold CodeGenerator._create_prompt.
    do 3 apply occurs_in_app_r. apply occurs_in_app_l, occurs_in_refl. }
  assert (Hreadme : occurs_in (CodeGenerator.checks_str checks)
                      (CodeGenerator._generate_readme brief checks files)).
  { unfold CodeGenerator._generate_readme, text. apply occurs_in_join.
    cbn [In]. tauto. }
  split; [| split; [| split]].
  - unfold CodeGenerator._create_prompt.
    apply occurs_in_app_r, occurs_in_app_l, occurs_in_refl.
  - apply occurs_in_prompt, occurs_in_refl.
  - unfold CodeGenerator._generate_readme, text. apply occurs_in_join.
    cbn [In]. tauto.
  - apply Forall_forall. intros check Hin. split.
    + eapply occurs_in_trans; [apply Hchecks, Hin | exact Hprompt].
    + eapply occurs_in_trans; [apply Hchecks, Hin | exact Hreadme].
Qed.

(* ================================================================== *)
(** * The create path, call by call *)
(* ================================================================== *)

(** X18.  The [try] block of [create_repo], call by call.  When the
    creation of the repository raises, nothing else is called.  Otherwise
    it pauses 2 seconds and makes the initial commit; when that raises,
    the pages are not enabled.  Otherwise it enables the pages: a
    [GithubException] of that call is ignored, the block pauses 5 seconds
    and returns the URL of the repository, the commit and the pages URL
    made of the name the platform gave the repository; any other
    exception is raised, without the pause. *)
Theorem create_path_order :
  forall (World : Type) (api : forall c : call, World -> ret_ty c * World)
         (self : GitHubManager.t) (repo_name description : str)
         (files : Dict.t str) (s : state World),
    let create := user_create_repo repo_name description false false in
    let r := GitHubManager.create_repo_try api self repo_name files
               description s in
    match fst (api create (world s)) with
    | Raise e => value r = Raise e /\ events r = [Called create (Raise e)]
    | Ok repo =>
        let s1 := final (perform api (time_sleep 2)
                           (final (perform api create s))) in
        let commit := GitHubManager._create_initial_commit api self repo
                        files s1 in
        let before := Called create (Ok repo) :: Called (time_sleep 2) tt
                      :: events commit in
        let pages := create_pages_site repo (lit "main") (lit "/") in
        match value commit with
        | Raise e => value r = Raise e /\ events r = before
        | Ok commit_sha =>
            match fst (api pages (world (final commit))) with
            | Raise e =>
                if is_GithubException e
                then value r = Ok (html_url repo, commit_sha,
                                   GitHubManager.pages_url_of self (name repo))
                     /\ events r = before ++ [Called pages (Raise e);
                                              Called (time_sleep 5) tt]
                else value r = Raise e
                     /\ events r = before ++ [Called pages (Raise e)]
            | Ok _ =>
                value r = Ok (html_url repo, commit_sha,
                              GitHubManager.pages_url_of self (name repo))
                /\ events r = before ++ [Called pages (Ok tt);
                                         Called (time_sleep 5) tt]
            end
        end
    end.
Proof.
  intros World api self repo_name description files s. cbn zeta.
  remember (GitHubManager.create_repo_try api self repo_name files
              description s) as r eqn:Hr.
  unfold GitHubManager.create_repo_try in Hr.
  unfold bind at 1 in Hr. unfold raising at 1, GitHubManager.gh at 1 in Hr.
  rewrite perform_run in Hr.
  destruct (fst (api (user_create_repo repo_name description false false)
                   (world s))) as [repo | e]; cbn beta iota in Hr;
    [| subst r; split; reflexivity].
  unfold bind at 1 in Hr. rewrite perform_run in Hr. cbn beta iota in Hr.
  rewrite !perform_run. cbn [final].
  unfold bind at 1 in Hr.
  destruct (GitHubManager._create_initial_commit api self repo files _)
    as [[commit_sha | e] ec sc]; cbn [value events final];
    cbn beta iota in Hr;
    [| subst r; destruct (fst (api (time_sleep 2) _));
       split; reflexivity].
  unfold bind at 1 in Hr. unfold GitHubManager._enable_pages at 1 in Hr.
  unfold bind at 1 in Hr. unfold try_except at 1 in Hr.
  unfold raising at 1, GitHubManager.gh at 1 in Hr.
  rewrite perform_run in Hr.
  destruct (fst (api (create_pages_site repo (lit "main") (lit "/"))
                   (world sc))) as [[] | e];
    cbn [value events final is_GithubException ret raise app] in Hr.
  - unfold bind at 1 in Hr. rewrite perform_run in Hr.
    cbn [ret value events final app] in Hr.
    destruct (fst (api (time_sleep 5) _)). subst r. cbn [value events].
    destruct (fst (api (time_sleep 2) _)).
    split; [reflexivity |]. cbn [app]. rewrite <- ?app_assoc. reflexivity.
  - destruct (is_GithubException e);
      cbn [value events final is_GithubException ret raise app] in Hr.
    + unfold bind at 1 in Hr. rewrite perform_run in Hr.
      cbn [ret value events final app] in Hr.
      destruct (fst (api (time_sleep 5) _)). subst r. cbn [value events].
      destruct (fst (api (time_sleep 2) _)).
      split; [reflexivity |]. cbn [app]. rewrite <- ?app_assoc. reflexivity.
    + subst r. cbn [value events]. destruct (fst (api (time_sleep 2) _)).
      split; [reflexivity |]. cbn [app]. rewrite <- ?app_assoc. reflexivity.
Qed.

(* ================================================================== *)
(** * Serialising a file set and parsing it *)
(* ================================================================== *)

(** X19.  Serialising and parsing is the identity on well-formed file
    sets: when the names are distinct, not empty, trimmed, without newline
    and without [=], and the contents are trimmed and have no delimiter
    line, the sections found in the serialisation are the file set itself,
    in its order; and so is the file set [_parse_response] builds from it
    when it is not empty. *)
Theorem serialized_file_set_parses_back :
  forall files : Dict.t str,
    NoDup (Dict.keys files) ->
    Forall well_formed files ->
    Forall (fun name => ~ In EQUALS name) (Dict.keys files) ->
    CodeGenerator.parse_sections (serialize files) = files
    /\ match files with
       | [] => True
       | _ :: _ => CodeGenerator._parse_response (serialize files) [] = files
       end.
Proof.
  intros files Hnd Hwf Hfree.
  assert (Hst : forallb stable_name (Dict.keys files) = true).
  { apply forallb_forall. intros name Hin.
    rewrite Forall_forall in Hfree, Hwf.
    pose proof (Hfree _ Hin) as Hname.
    unfold Dict.keys in Hin. apply in_map_iff in Hin.
    destruct Hin as ([name' content] & <- & Hin).
    destruct (Hwf _ Hin) as (_ & _ & Hstrip & _).
    now apply name_without_equals_stable. }
  pose proof (reparse files Hnd Hwf Hst) as Hparse.
  split; [exact Hparse |].
  destruct files as [| file files]; [exact I |].
  unfold CodeGenerator._parse_response. cbn [fold_left].
  now rewrite Hparse.
Qed.

Lemma serialized_file_set_parses_back_witness :
  let files := [(lit "index.html", text [lit "<h1>Hi</h1>"; lit "<p>a = b</p>"]);
                (lit "notes/read me.txt", lit "x")] in
  CodeGenerator._parse_response (serialize files) [] = files.
Proof.
  cbn zeta.
  refine (proj2 (serialized_file_set_parses_back
                   [(lit "index.html",
                     text [lit "<h1>Hi</h1>"; lit "<p>a = b</p>"]);
                    (lit "notes/read me.txt", lit "x")] _ _ _)).
  - repeat constructor; cbn; intuition discriminate.
  - repeat constructor; cbn; try discriminate; unfold NL;
      intuition discriminate.
  - repeat constructor; cbn; unfold EQUALS; intuition discriminate.
Defined.

(* ================================================================== *)
(** * The generator: the last section of a completion *)
(* ================================================================== *)

(** X20.  The last section of a completion decides the content of its
    file: when a completion ends with the delimiter line of [name] (a
    stable, non-empty name without newline) followed by lines none of
    which is a delimiter line, the file [name] holds these lines trimmed,
    whatever comes before, sections of the same name included; and so it
    does in the file set of [_parse_response] when no attachment stores a
    data URI under that name. *)
Theorem last_section_gives_its_file :
  forall (before name content : str),
    stable_name name = true ->
    name <> [] ->
    Str.contains [NL] name = false ->
    forallb (fun line => negb (CodeGenerator.is_marker line))
      (Str.split NL content) = true ->
    let completion := before ++ NL :: header name ++ NL :: content in
    Dict.get name (CodeGenerator.parse_sections completion)
    = Some (Str.strip content)
    /\ forall attachments,
         forallb (fun att => negb (stores_under name att)) attachments = true ->
         Dict.get name (CodeGenerator._parse_response completion attachments)
         = Some (Str.strip content).
Proof.
  intros before name content Hstable Hne Hnl Hplain. cbn zeta.
  apply eqb_eq in Hstable. apply plain_forallb in Hplain.
  apply contains_char in Hnl.
  assert (Hget : Dict.get name
                   (CodeGenerator.parse_sections
                      (before ++ NL :: header name ++ NL :: content))
                 = Some (Str.strip content)).
  { unfold CodeGenerator.parse_sections.
    rewrite split_app_sep, fold_left_app.
    rewrite (split_line NL (header name) content (header_no_NL name Hnl)).
    generalize (fold_left CodeGenerator.scan_line (Str.split NL before)
                  {| CodeGenerator.files := Dict.empty str;
                     CodeGenerator.current_file := None;
                     CodeGenerator.current_content := [] |}).
    intros sc. cbn [fold_left].
    rewrite (scan_line_header sc name Hstable).
    rewrite scan_plain_lines;
      [| destruct name; [contradiction | reflexivity] | exact Hplain].
    unfold CodeGenerator.save.
    cbn [CodeGenerator.current_file CodeGenerator.current_content
         CodeGenerator.files app].
    destruct name as [| c n]; [contradiction |].
    unfold text. rewrite join_split. apply get_set_same. }
  split; [exact Hget |].
  intros attachments Hatts. unfold CodeGenerator._parse_response.
  apply save_attachments_keep; [exact Hatts |].
  destruct (CodeGenerator.parse_sections
              (before ++ NL :: header name ++ NL :: content));
    [discriminate Hget | exact Hget].
Qed.

Lemma last_section_gives_its_file_witness :
  let completion := text [lit "=== app.js ==="; lit "let x = 1;";
                          lit "=== app.js ==="; lit ""; lit "let x = 2;";
                          lit ""] in
  Dict.get (lit "app.js") (CodeGenerator.parse_sections completion)
  = Some (lit "let x = 2;")
  /\ CodeGenerator.parse_sections completion
     = [(lit "app.js", lit "let x = 2;")].
Proof.
  cbn zeta. split; [| vm_compute; reflexivity].
  exact (proj1 (last_section_gives_its_file
                  (text [lit "=== app.js ==="; lit "let x = 1;"])
                  (lit "app.js") (text [lit ""; lit "let x = 2;"; lit ""])
                  eq_refl ltac:(discriminate) eq_refl eq_refl)).
Defined.
